(** * The Mongo storage adapter of the platform ([server/mongo/src/storage.ts])

    A shallow embedding of the query translator, the result shaper and the
    mutation translator of [MongoAdapterBase] and [MongoAdapter], with the
    properties of the adapter's specification stated over it.

    Layout: the values of the JavaScript fragment the adapter manipulates
    (module [JS]), the calls of the Mongo driver and the promises that await
    them (module [Driver]), a reference model of the document store for the
    operators the adapter emits (module [Mongo]), the adapter itself
    (module [Storage]), the vocabulary of the properties (module [Props]) and
    the instances used in concrete runs (module [Fixture]); then the lemmas
    and theorems, and the concrete runs (module [Runs]). *)

From Stdlib Require Import String Ascii List ZArith NArith Bool Lia Arith.
From Stdlib Require Import DecimalString.
Import ListNotations.
Local Open Scope string_scope.
Local Open Scope list_scope.

(** ** Errors and fallible computations *)

(** What a JavaScript expression or a promise can fail with. [TypeError] is
    the engine's own (reading a property of [undefined] or [null], calling a
    method a value does not have); [PlatformError] is what the model cache
    throws; [StoreError] is a rejection of the driver. *)
Inductive error : Type :=
| TypeError (msg : string)
| PlatformError (msg : string)
| StoreError (msg : string).

Inductive result (A : Type) : Type :=
| Ok (a : A)
| Err (e : error).
Arguments Ok {A} a.
Arguments Err {A} e.

Definition rbind {A B : Type} (r : result A) (f : A -> result B) : result B :=
  match r with
  | Ok a => f a
  | Err e => Err e
  end.

Declare Scope result_scope.
Delimit Scope result_scope with result.
Notation "'let?' x ':=' r 'in' k" := (rbind r (fun x => k))
  (at level 10, x name, r at level 100, k at level 200) : result_scope.
Local Open Scope result_scope.

(** ** JavaScript values *)

Module JS.

(** Plain data as the protocol carries it: the own enumerable properties of an
    object in the order [Object.keys] and [for ... in] give them, arrays,
    strings, and numbers, which the adapter passes through without
    arithmetic. A string is the sequence of its code units, one [ascii] for
    each; a string with a code unit above 255 is not a value of the model
    (the adapter only ever splits and joins on ASCII separators). The
    members of the built-in prototypes (methods, [constructor]) are not
    part of the data.

    [VObj] is an object with the prototype every object literal and every
    parsed document has, [Object.prototype]. [VInherit proto props] is an
    object whose prototype an assignment to [__proto__] has replaced by
    [proto], an object, an array or [null]: what [o[key] = value] makes of
    [o] when [key] is [__proto__] (see [assign]). *)
Unset Elimination Schemes.
Inductive value : Type :=
| VUndefined
| VNull
| VBool (b : bool)
| VNum (n : Z)
| VStr (s : string)
| VArr (elems : list value)
| VObj (props : list (string * value))
| VInherit (proto : value) (props : list (string * value)).
Set Elimination Schemes.

Definition obj : Type := list (string * value).

(** Structural induction that reaches inside arrays and objects. *)
Definition value_ind (P : value -> Prop)
    (Hundef : P VUndefined) (Hnull : P VNull)
    (Hbool : forall b, P (VBool b)) (Hnum : forall n, P (VNum n))
    (Hstr : forall s, P (VStr s))
    (Harr : forall l, Forall P l -> P (VArr l))
    (Hobj : forall o, Forall (fun kv => P (snd kv)) o -> P (VObj o))
    (Hinherit : forall p o, P p -> Forall (fun kv => P (snd kv)) o ->
                P (VInherit p o)) :
    forall v, P v :=
  fix F (v : value) : P v :=
    match v with
    | VUndefined => Hundef
    | VNull => Hnull
    | VBool b => Hbool b
    | VNum n => Hnum n
    | VStr s => Hstr s
    | VArr l =>
        Harr l ((fix G (l : list value) : Forall P l :=
                   match l with
                   | [] => Forall_nil _
                   | x :: l' => Forall_cons x (F x) (G l')
                   end) l)
    | VObj o =>
        Hobj o ((fix G (o : obj) : Forall (fun kv => P (snd kv)) o :=
                   match o with
                   | [] => Forall_nil _
                   | kv :: o' => Forall_cons kv (F (snd kv)) (G o')
                   end) o)
    | VInherit p o =>
        Hinherit p o (F p)
          ((fix G (o : obj) : Forall (fun kv => P (snd kv)) o :=
              match o with
              | [] => Forall_nil _
              | kv :: o' => Forall_cons kv (F (snd kv)) (G o')
              end) o)
    end.

(** [===] on plain data compared by content, as the store compares BSON
    values: arrays element by element, objects field by field in order (and
    prototype against prototype where one was replaced). *)
Fixpoint value_eqb (a b : value) {struct a} : bool :=
  match a, b with
  | VUndefined, VUndefined => true
  | VNull, VNull => true
  | VBool x, VBool y => Bool.eqb x y
  | VNum x, VNum y => Z.eqb x y
  | VStr x, VStr y => String.eqb x y
  | VArr xs, VArr ys =>
      (fix go (xs ys : list value) {struct xs} : bool :=
         match xs, ys with
         | [], [] => true
         | x :: xs', y :: ys' => value_eqb x y && go xs' ys'
         | _, _ => false
         end) xs ys
  | VObj xs, VObj ys =>
      (fix go (xs ys : obj) {struct xs} : bool :=
         match xs, ys with
         | [], [] => true
         | (k, x) :: xs', (k', y) :: ys' =>
             String.eqb k k' && value_eqb x y && go xs' ys'
         | _, _ => false
         end) xs ys
  | VInherit p xs, VInherit q ys =>
      value_eqb p q
      && (fix go (xs ys : obj) {struct xs} : bool :=
            match xs, ys with
            | [], [] => true
            | (k, x) :: xs', (k', y) :: ys' =>
                String.eqb k k' && value_eqb x y && go xs' ys'
            | _, _ => false
            end) xs ys
  | _, _ => false
  end.

(** *** Strings *)

(** [s.startsWith(p)] *)
Fixpoint startsWith (s p : string) {struct p} : bool :=
  match p with
  | EmptyString => true
  | String c p' =>
      match s with
      | String d s' => Ascii.eqb d c && startsWith s' p'
      | EmptyString => false
      end
  end.

(** [s.split(sep)] for a one-character separator: never an empty list. *)
Fixpoint split (sep : ascii) (s : string) : list string :=
  match s with
  | EmptyString => [EmptyString]
  | String c s' =>
      if Ascii.eqb c sep then EmptyString :: split sep s'
      else match split sep s' with
           | [] => [String c EmptyString]
           | h :: t => String c h :: t
           end
  end.

(** A name without a dot: a top-level field. *)
Fixpoint no_dot (s : string) : bool :=
  match s with
  | EmptyString => true
  | String c s' => negb (Ascii.eqb c ".") && no_dot s'
  end.

(** [l.join(sep)] on an array of strings. *)
Fixpoint join (sep : string) (l : list string) : string :=
  match l with
  | [] => EmptyString
  | [x] => x
  | x :: l' => x ++ sep ++ join sep l'
  end.

(** Decimal rendering of an array position, as property keys have it. *)
Definition string_of_index (n : N) : string :=
  NilEmpty.string_of_uint (N.to_uint n).

(** A property key is an array index when it is the canonical decimal form
    of an integer below 2^32 - 1. *)
Definition index_of_string (s : string) : option N :=
  match NilEmpty.uint_of_string s with
  | Some u =>
      let n := N.of_uint u in
      if String.eqb (string_of_index n) s && N.ltb n 4294967295
      then Some n else None
  | None => None
  end.

(** *** Objects *)

(** [o[k]] on own properties; [None] is a missing property. *)
Fixpoint obj_get (k : string) (o : obj) : option value :=
  match o with
  | [] => None
  | (k', v) :: o' => if String.eqb k k' then Some v else obj_get k o'
  end.

Definition obj_has (k : string) (o : obj) : bool :=
  match obj_get k o with Some _ => true | None => false end.

(** Overwriting an existing property keeps its place. *)
Fixpoint obj_replace (k : string) (v : value) (o : obj) : obj :=
  match o with
  | [] => []
  | (k', v') :: o' =>
      if String.eqb k k' then (k, v) :: o' else (k', v') :: obj_replace k v o'
  end.

(** A new array-index key goes among the index keys in ascending order,
    before every other key. *)
Fixpoint obj_insert_index (n : N) (k : string) (v : value) (o : obj) : obj :=
  match o with
  | [] => [(k, v)]
  | (k', v') :: o' =>
      match index_of_string k' with
      | Some m =>
          if N.ltb n m then (k, v) :: o
          else (k', v') :: obj_insert_index n k v o'
      | None => (k, v) :: o
      end
  end.

(** [o[k] = v]: the own property order of the language (index keys
    ascending, then the other keys in creation order). *)
Definition obj_set (k : string) (v : value) (o : obj) : obj :=
  if obj_has k o then obj_replace k v o
  else match index_of_string k with
       | Some n => obj_insert_index n k v o
       | None => o ++ [(k, v)]
       end.

(** [{ ...a, ...b }]: the properties of [b] defined one by one over [a]. *)
Definition obj_spread (a b : obj) : obj :=
  fold_left (fun acc kv => obj_set (fst kv) (snd kv) acc) b a.

(** An object literal: its properties defined in the order written. *)
Definition obj_lit (props : obj) : obj := obj_spread [] props.

(** *** Prototypes

    The code builds three objects by assignment under keys it is given:
    the translated filter, the sort document and the [$lookup] sub-map of a
    row. Each starts as [{}], whose prototype [Object.prototype] has the
    accessor [__proto__]. *)

(** The own properties of an object. *)
Definition own (v : value) : obj :=
  match v with
  | VObj o | VInherit _ o => o
  | _ => []
  end.

(** Does an assignment to [__proto__] through this prototype reach the
    accessor of [Object.prototype]? Not when the chain ends at [null]
    before it, and not when an object on the way has a property of that
    name of its own (as [JSON.parse] makes one): then the name is an
    ordinary data property. *)
Fixpoint inherits_setter (proto : value) : bool :=
  match proto with
  | VObj o => negb (obj_has "__proto__" o)
  | VArr _ => true
  | VInherit p o => negb (obj_has "__proto__" o) && inherits_setter p
  | _ => false
  end.

(** The elements of an array or the code units of a string under their
    index keys. *)
Fixpoint indexed {A : Type} (f : A -> value) (i : N) (l : list A) : obj :=
  match l with
  | [] => []
  | x :: l' => (string_of_index i, f x) :: indexed f (N.succ i) l'
  end.

(** The code units of a string, each as a string of length one. *)
Definition chars (s : string) : list string :=
  map (fun c => String c EmptyString) (list_ascii_of_string s).

(** [Object.entries(v)]: throws on [undefined] and [null], is empty on
    numbers and booleans. *)
Definition entries (v : value) : result obj :=
  match v with
  | VUndefined | VNull =>
      Err (TypeError "Cannot convert undefined or null to object")
  | VBool _ | VNum _ => Ok []
  | VStr s => Ok (indexed VStr 0 (chars s))
  | VArr l => Ok (indexed (fun x => x) 0 l)
  | VObj o | VInherit _ o => Ok o
  end.

(** [Object.keys(v)] *)
Definition keys (v : value) : result (list string) :=
  let? es := entries v in Ok (map fst es).

(** [l[0]] on a list of keys. *)
Definition first_key (ks : list string) : option string := hd_error ks.

(** A key used in a string concatenation or as a computed property name:
    a missing key prints as [undefined]. *)
Definition key_string (k : option string) : string :=
  match k with
  | Some s => s
  | None => "undefined"
  end.

Definition or_undefined (v : option value) : value :=
  match v with
  | Some x => x
  | None => VUndefined
  end.

Definition nth_value (l : list value) (n : N) : value :=
  if N.ltb n (N.of_nat (length l))
  then nth (N.to_nat n) l VUndefined else VUndefined.

(** The property [k] as it is found along a replaced prototype chain: in
    the own properties of each link, up to [null] or a built-in
    prototype. *)
Fixpoint inherited (k : string) (proto : value) : value :=
  match proto with
  | VArr l =>
      match index_of_string k with
      | Some n => nth_value l n
      | None =>
          if String.eqb k "length" then VNum (Z.of_nat (length l))
          else VUndefined
      end
  | VObj o => or_undefined (obj_get k o)
  | VInherit p o =>
      match obj_get k o with
      | Some x => x
      | None => inherited k p
      end
  | _ => VUndefined
  end.

(** [v[k]] and [v.k]: a [TypeError] on [undefined] and [null]; own
    properties of objects, then those of a replaced prototype, which is
    itself what [__proto__] reads as where the accessor is in reach;
    elements and [length] of arrays and strings. A member of a built-in
    prototype is not data: a read of one ([constructor], [toString],
    [__proto__] on an object with the prototype of a literal) is answered
    [undefined], and the properties that depend on such a read exclude it
    (see [Props.field_name]). *)
Definition get_prop (v : value) (k : string) : result value :=
  match v with
  | VUndefined | VNull =>
      Err (TypeError "Cannot read properties of undefined or null")
  | VBool _ | VNum _ => Ok VUndefined
  | VStr s =>
      match index_of_string k with
      | Some n => Ok (nth_value (map VStr (chars s)) n)
      | None =>
          if String.eqb k "length" then Ok (VNum (Z.of_nat (String.length s)))
          else Ok VUndefined
      end
  | VArr l =>
      match index_of_string k with
      | Some n => Ok (nth_value l n)
      | None =>
          if String.eqb k "length" then Ok (VNum (Z.of_nat (length l)))
          else Ok VUndefined
      end
  | VObj o => Ok (or_undefined (obj_get k o))
  | VInherit p o =>
      match obj_get k o with
      | Some x => Ok x
      | None =>
          if String.eqb k "__proto__" && inherits_setter p then Ok p
          else Ok (inherited k p)
      end
  end.

(** [v?.k]: [undefined] where [v] is [undefined] or [null]. *)
Definition get_prop_opt (v : value) (k : string) : value :=
  match get_prop v k with
  | Ok x => x
  | Err _ => VUndefined
  end.

(** [typeof v === 'object'] *)
Definition typeof_object (v : value) : bool :=
  match v with
  | VNull | VArr _ | VObj _ | VInherit _ _ => true
  | _ => false
  end.

(** An object that is not an array. *)
Definition is_record (v : value) : bool :=
  match v with
  | VObj _ | VInherit _ _ => true
  | _ => false
  end.

(** [target[k] = v] on an object the code has built from [{}]. An own
    property is overwritten in place. Otherwise the key [__proto__] is
    looked up along the prototype chain: where that reaches the accessor of
    [Object.prototype], an object, an array or [null] becomes the prototype
    of [target] and any other value is ignored, and no property is created
    either way. Every other key becomes a new own property, and so does
    [__proto__] where the accessor is out of reach. *)
Definition assign (k : string) (v : value) (target : value) : value :=
  match target with
  | VObj o =>
      if negb (obj_has k o) && String.eqb k "__proto__" then
        if typeof_object v then VInherit v o else target
      else VObj (obj_set k v o)
  | VInherit p o =>
      if negb (obj_has k o) && String.eqb k "__proto__" && inherits_setter p then
        if typeof_object v then VInherit v o else target
      else VInherit p (obj_set k v o)
  | _ => target
  end.

Definition is_undefined (v : value) : bool :=
  match v with
  | VUndefined => true
  | _ => false
  end.

Definition is_null (v : value) : bool :=
  match v with
  | VNull => true
  | _ => false
  end.

(** [s.replace(pat, rep)] for a string pattern: the first occurrence only. *)
Fixpoint replace (pat rep s : string) : string :=
  if startsWith s pat
  then rep ++ String.substring (String.length pat)
                (String.length s - String.length pat) s
  else match s with
       | EmptyString => EmptyString
       | String c s' => String c (replace pat rep s')
       end.

End JS.

(** ** The driver: store calls and promises *)

Module Driver.
Import JS.

(** The calls the adapter makes on [db.collection(name)], each with the type
    of what the driver resolves it to. A cursor that is sorted, limited and
    read with [toArray] is one call. *)
Inductive StoreCall : Type -> Type :=
| updateOne (coll : string) (filter update : obj) : StoreCall value
| deleteOne (coll : string) (filter : obj) : StoreCall value
| bulkWrite (coll : string) (ops : list value) : StoreCall value
| findOneAndUpdate (coll : string) (filter update options : obj) :
    StoreCall value
| find (coll : string) (filter : value) (sort : option value)
    (limit : option Z) : StoreCall (list obj)
| aggregate (coll : string) (pipeline : list value) : StoreCall (list obj).

(** An [async] method body: it returns, throws, or awaits a store call and
    goes on with what the driver resolved it to. A rejected call rejects the
    method (see [Mongo.run]). *)
Inductive Promise (A : Type) : Type :=
| resolve (a : A)
| reject (e : error)
| await {R : Type} (call : StoreCall R) (k : R -> Promise A).
Arguments resolve {A} a.
Arguments reject {A} e.
Arguments await {A R} call k.

(** A synchronous computation inside an [async] body. *)
Definition lift {A B : Type} (r : result A) (k : A -> Promise B) : Promise B :=
  match r with
  | Ok a => k a
  | Err e => reject e
  end.

End Driver.

(** ** A reference model of the document store

    The store is an external collaborator. This is the fragment of its
    documented behaviour that the adapter's filters and updates reach:
    field paths through embedded documents, equality, [$in], [$exists] and
    [$regex] conditions, the [$set], [$pull] and [$push] update operators,
    and the write and read calls of module [Driver]. Wherever an input
    leaves the fragment the model answers [None]: it says nothing there. *)

Module Mongo.
Import JS Driver.

(** *** Regular expressions

    Literal characters, [.], a postfix [*], [^] as the first and [$] as the
    last character of the pattern; the option [i]. *)
Inductive atom : Type :=
| AnyChar
| Lit (c : ascii).

Inductive item : Type :=
| One (a : atom)
| Star (a : atom).

Record regex : Type := {
  anchored_start : bool;
  items : list item;
  anchored_end : bool
}.

Definition is_meta (c : ascii) : bool :=
  existsb (Ascii.eqb c)
    (list_ascii_of_string "\^$.|?*+()[]{}").

Fixpoint parse_items (cs : list ascii) : option (list item * bool) :=
  match cs with
  | [] => Some ([], false)
  | c :: rest =>
      if Ascii.eqb c "$" then
        match rest with
        | [] => Some ([], true)
        | _ => None
        end
      else
        let atom :=
          if Ascii.eqb c "." then Some AnyChar
          else if is_meta c then None
          else Some (Lit c) in
        match atom with
        | None => None
        | Some a =>
            match rest with
            | star :: rest' =>
                if Ascii.eqb star "*" then
                  match parse_items rest' with
                  | Some (its, e) => Some (Star a :: its, e)
                  | None => None
                  end
                else
                  match parse_items rest with
                  | Some (its, e) => Some (One a :: its, e)
                  | None => None
                  end
            | [] => Some ([One a], false)
            end
      end
  end.

Definition parse (pattern : string) : option regex :=
  match list_ascii_of_string pattern with
  | c :: rest =>
      if Ascii.eqb c "^" then
        match parse_items rest with
        | Some (its, e) => Some {| anchored_start := true; items := its; anchored_end := e |}
        | None => None
        end
      else
        match parse_items (c :: rest) with
        | Some (its, e) => Some {| anchored_start := false; items := its; anchored_end := e |}
        | None => None
        end
  | [] => Some {| anchored_start := false; items := []; anchored_end := false |}
  end.

Definition lower (c : ascii) : ascii :=
  let n := nat_of_ascii c in
  if (65 <=? n)%nat && (n <=? 90)%nat then ascii_of_nat (n + 32) else c.

Definition newline : ascii := ascii_of_nat 10.

Definition atom_matches (ci : bool) (a : atom) (c : ascii) : bool :=
  match a with
  | AnyChar => negb (Ascii.eqb c newline)
  | Lit l => if ci then Ascii.eqb (lower l) (lower c) else Ascii.eqb l c
  end.

(** [$] holds at the end of the subject and before a final newline. *)
Definition at_end (cs : list ascii) : bool :=
  match cs with
  | [] => true
  | [c] => Ascii.eqb c newline
  | _ => false
  end.

(** The items match a prefix of [cs], any prefix unless anchored at the
    end. *)
Fixpoint match_here (ci : bool) (e : bool) (its : list item) (cs : list ascii) {struct its} : bool :=
  match its with
  | [] => if e then at_end cs else true
  | One a :: its' =>
      match cs with
      | c :: cs' => atom_matches ci a c && match_here ci e its' cs'
      | [] => false
      end
  | Star a :: its' =>
      (fix star (cs : list ascii) {struct cs} : bool :=
         match_here ci e its' cs
         || match cs with
            | c :: cs' => atom_matches ci a c && star cs'
            | [] => false
            end) cs
  end.

Fixpoint match_anywhere (ci : bool) (e : bool) (its : list item) (cs : list ascii) : bool :=
  match_here ci e its cs
  || match cs with
     | _ :: cs' => match_anywhere ci e its cs'
     | [] => false
     end.

Definition regex_options (options : string) : option bool :=
  if String.eqb options "" then Some false
  else if String.eqb options "i" then Some true
  else None.

(** Does the subject contain a match of [pattern] under [options]? *)
Definition regex_test (pattern options subject : string) : option bool :=
  match parse pattern, regex_options options with
  | Some r, Some ci =>
      let cs := list_ascii_of_string subject in
      Some (if anchored_start r
            then match_here ci (anchored_end r) (items r) cs
            else match_anywhere ci (anchored_end r) (items r) cs)
  | _, _ => None
  end.

(** *** Field paths *)

Definition path : Type := list string.

Definition path_of (key : string) : path := split "." key.

Inductive found : Type :=
| Found (v : value)
| Missing.

(** The value at a path through embedded documents; [None] when the path
    meets an array on its way. *)
Fixpoint get_path (p : path) (v : value) : option found :=
  match p with
  | [] => Some (Found v)
  | f :: p' =>
      match v with
      | VObj o =>
          match obj_get f o with
          | Some x => get_path p' x
          | None => Some Missing
          end
      | VArr _ => None
      | _ => Some Missing
      end
  end.

(** *** Filters *)

(** Equality with a value: the field holds it, or is an array that has it
    as an element; [null] also matches a missing field. *)
Definition eq_match (cond : value) (f : found) : bool :=
  match f with
  | Found v =>
      value_eqb v cond
      || match v with
         | VArr l => existsb (fun x => value_eqb x cond) l
         | _ => false
         end
  | Missing => is_null cond
  end.

Definition in_match (conds : list value) (f : found) : bool :=
  existsb (fun c => eq_match c f) conds.

Definition exists_match (b : bool) (f : found) : bool :=
  match f with
  | Found _ => b
  | Missing => negb b
  end.

Definition regex_match (pattern options : string) (f : found) : option bool :=
  match f with
  | Found (VStr s) => regex_test pattern options s
  | Found (VArr _) => None
  | _ => Some false
  end.

Definition is_operator_object (cond : value) : bool :=
  match cond with
  | VObj ((k, _) :: _) => startsWith k "$"
  | _ => false
  end.

(** One field of a filter against the value found at its path. *)
Definition cond_match (cond : value) (f : found) : option bool :=
  if is_operator_object cond then
    match cond with
    | VObj [("$in"%string, VArr conds)] => Some (in_match conds f)
    | VObj [("$exists"%string, VBool b)] => Some (exists_match b f)
    | VObj [("$regex"%string, VStr p); ("$options"%string, VStr o)] =>
        regex_match p o f
    | VObj [("$regex"%string, VStr p)] => regex_match p "" f
    | _ => None
    end
  else Some (eq_match cond f).

(** A document satisfies a filter when it satisfies each of its fields. *)
Fixpoint matches (filter : obj) (doc : obj) : option bool :=
  match filter with
  | [] => Some true
  | (key, cond) :: rest =>
      if startsWith key "$" then None
      else
        match get_path (path_of key) (VObj doc) with
        | None => None
        | Some f =>
            match cond_match cond f, matches rest doc with
            | Some a, Some b => Some (a && b)
            | _, _ => None
            end
        end
  end.

(** *** Updates *)

(** A stored document keeps its fields in the order they were written. *)
Definition doc_set (k : string) (v : value) (d : obj) : obj :=
  if obj_has k d then obj_replace k v d else d ++ [(k, v)].

Definition valid_field (f : string) : bool :=
  negb (String.eqb f "") && negb (startsWith f "$").

(** Writing at a path creates the embedded documents that are missing and
    is refused through a value that is not a document. *)
Fixpoint set_path (p : path) (v : value) (d : obj) : option (result obj) :=
  match p with
  | [] => Some (Err (StoreError "An empty update path is not valid"))
  | f :: p' =>
      if negb (valid_field f) then
        Some (Err (StoreError "The update path contains an invalid field name"))
      else
        match p' with
        | [] => Some (Ok (doc_set f v d))
        | _ =>
            match obj_get f d with
            | None =>
                match set_path p' v [] with
                | Some (Ok sub) => Some (Ok (doc_set f (VObj sub) d))
                | other => other
                end
            | Some (VObj sub) =>
                match set_path p' v sub with
                | Some (Ok sub') => Some (Ok (doc_set f (VObj sub') d))
                | other => other
                end
            | Some (VArr _) => None
            | Some _ => Some (Err (StoreError "Cannot create field in element"))
            end
      end
  end.

(** The array at a path; a missing field counts as an empty one. *)
Definition array_at (p : path) (d : obj) : option (result (list value)) :=
  match get_path p (VObj d) with
  | None => None
  | Some Missing => Some (Ok [])
  | Some (Found (VArr l)) => Some (Ok l)
  | Some (Found _) => Some (Err (StoreError "The field must be an array"))
  end.

Definition is_missing (p : path) (d : obj) : bool :=
  match get_path p (VObj d) with
  | Some Missing => true
  | _ => false
  end.

Definition pull_value (p : path) (v : value) (d : obj) : option (result obj) :=
  match v with
  | VObj _ | VInherit _ _ => None
  | _ =>
      if is_missing p d then Some (Ok d)
      else
        match array_at p d with
        | Some (Ok l) => set_path p (VArr (filter (fun x => negb (value_eqb x v)) l)) d
        | Some (Err e) => Some (Err e)
        | None => None
        end
  end.

Definition insert_at (position : Z) (new old : list value) : list value :=
  let len := Z.of_nat (length old) in
  let i := if (position <? 0)%Z then Z.max 0 (len + position) else Z.min position len in
  firstn (Z.to_nat i) old ++ new ++ skipn (Z.to_nat i) old.

Definition push_value (p : path) (v : value) (d : obj) : option (result obj) :=
  match array_at p d with
  | Some (Ok l) =>
      match v with
      | VObj [("$each"%string, VArr new); ("$position"%string, VNum n)] =>
          set_path p (VArr (insert_at n new l)) d
      | VObj [("$each"%string, VArr new)] => set_path p (VArr (l ++ new)) d
      | VObj ((k, _) :: _) =>
          if startsWith k "$" then None else set_path p (VArr (l ++ [v])) d
      | _ => set_path p (VArr (l ++ [v])) d
      end
  | Some (Err e) => Some (Err e)
  | None => None
  end.

Definition apply_operator (op : string) : option (path -> value -> obj -> option (result obj)) :=
  if String.eqb op "$set" then Some set_path
  else if String.eqb op "$pull" then Some pull_value
  else if String.eqb op "$push" then Some push_value
  else None.

(** The paths an update writes, operator by operator. *)
Fixpoint update_paths (update : obj) : list path :=
  match update with
  | [] => []
  | (_, VObj fields) :: rest => map (fun kv => path_of (fst kv)) fields ++ update_paths rest
  | _ :: rest => update_paths rest
  end.

Fixpoint is_prefix (p q : path) : bool :=
  match p, q with
  | [], _ => true
  | a :: p', b :: q' => String.eqb a b && is_prefix p' q'
  | _ :: _, [] => false
  end.

Definition conflict (p q : path) : bool := is_prefix p q || is_prefix q p.

Fixpoint conflicts (ps : list path) : bool :=
  match ps with
  | [] => false
  | p :: rest => existsb (conflict p) rest || conflicts rest
  end.

Definition writes_id (ps : list path) : bool :=
  existsb (fun p => match p with
                    | f :: _ => String.eqb f "_id"
                    | [] => false
                    end) ps.

(** What the store checks on the update document itself, whether or not a
    document matches. *)
Fixpoint check_operators (update : obj) : option (result unit) :=
  match update with
  | [] => Some (Ok tt)
  | (op, payload) :: rest =>
      if negb (startsWith op "$") then
        Some (Err (StoreError "Update document requires atomic operators"))
      else
        match apply_operator op, payload with
        | Some _, VObj (_ :: _) => check_operators rest
        | Some _, VObj [] => None
        | Some _, _ =>
            Some (Err (StoreError "Modifiers operate on fields"))
        | None, _ => None
        end
  end.

Definition check_update (update : obj) : option (result unit) :=
  match update with
  | [] => Some (Err (StoreError "Update document requires atomic operators"))
  | _ =>
      match check_operators update with
      | Some (Ok _) =>
          let ps := update_paths update in
          if writes_id ps then None
          else if conflicts ps then
            Some (Err (StoreError "Updating the path would create a conflict"))
          else Some (Ok tt)
      | other => other
      end
  end.

Fixpoint apply_fields (f : path -> value -> obj -> option (result obj)) (fields : obj) (d : obj) : option (result obj) :=
  match fields with
  | [] => Some (Ok d)
  | (key, v) :: rest =>
      match f (path_of key) v d with
      | Some (Ok d') => apply_fields f rest d'
      | other => other
      end
  end.

Fixpoint apply_operators (update : obj) (d : obj) : option (result obj) :=
  match update with
  | [] => Some (Ok d)
  | (op, payload) :: rest =>
      match apply_operator op, payload with
      | Some f, VObj fields =>
          match apply_fields f fields d with
          | Some (Ok d') => apply_operators rest d'
          | other => other
          end
      | _, _ => None
      end
  end.

Definition apply_update (update : obj) (d : obj) : option (result obj) :=
  match check_update update with
  | Some (Ok _) => apply_operators update d
  | Some (Err e) => Some (Err e)
  | None => None
  end.

(** *** Collections and calls *)

(** The documents of each collection, in their natural order. *)
Definition database : Type := string -> list obj.

Definition store (db : database) (coll : string) (docs : list obj) : database :=
  fun c => if String.eqb c coll then docs else db c.

Definition doc_id (d : obj) : value := or_undefined (obj_get "_id" d).

Definition is_array (v : value) : bool :=
  match v with
  | VArr _ => true
  | _ => false
  end.

(** What the store guarantees of the identifiers of a collection: no two
    documents share one, and none is an array. *)
Definition keyed (docs : list obj) : Prop :=
  NoDup (map doc_id docs) /\ Forall (fun d => is_array (doc_id d) = false) docs.

Definition has_id (id : string) (d : obj) : bool := value_eqb (doc_id d) (VStr id).

(** The first document that satisfies the filter, with those before it and
    those after it. *)
Fixpoint first_match (filter : obj) (docs : list obj) : option (option (list obj * obj * list obj)) :=
  match docs with
  | [] => Some None
  | d :: rest =>
      match matches filter d with
      | None => None
      | Some true => Some (Some ([], d, rest))
      | Some false =>
          match first_match filter rest with
          | Some (Some (before, m, after)) => Some (Some (d :: before, m, after))
          | other => other
          end
      end
  end.

Fixpoint select (filter : obj) (docs : list obj) : option (list obj) :=
  match docs with
  | [] => Some []
  | d :: rest =>
      match matches filter d, select filter rest with
      | Some b, Some l => Some (if b then d :: l else l)
      | _, _ => None
      end
  end.

Definition count (n : nat) : value := VNum (Z.of_nat n).

Definition UpdateResult (matched modified : nat) : value :=
  VObj [("acknowledged", VBool true); ("modifiedCount", count modified);
        ("upsertedId", VNull); ("upsertedCount", count 0);
        ("matchedCount", count matched)].

Definition DeleteResult (deleted : nat) : value :=
  VObj [("acknowledged", VBool true); ("deletedCount", count deleted)].

Definition ModifyResult (doc : value) (n : nat) : value :=
  VObj [("lastErrorObject",
         VObj [("n", count n); ("updatedExisting", VBool (Nat.ltb 0 n))]);
        ("value", doc); ("ok", VNum 1)].

Definition BulkWriteResult (matched modified : nat) : value :=
  VObj [("ok", VNum 1); ("nMatched", count matched); ("nModified", count modified)].

Definition changed (d d' : obj) : nat :=
  if value_eqb (VObj d) (VObj d') then 0 else 1.

(** One update of the first matching document: the documents afterwards,
    the document before and after when one matched. A rejected update
    leaves the collection as it was. *)
Definition update_first (filter update : obj) (docs : list obj) : option (result (list obj * option (obj * obj))) :=
  match check_update update with
  | None => None
  | Some (Err e) => Some (Err e)
  | Some (Ok _) =>
      match first_match filter docs with
      | None => None
      | Some None => Some (Ok (docs, None))
      | Some (Some (before, d, after)) =>
          match apply_operators update d with
          | None => None
          | Some (Err e) => Some (Err e)
          | Some (Ok d') => Some (Ok (before ++ d' :: after, Some (d, d')))
          end
      end
  end.

(** The operations of an ordered batch, one after the other; the first
    rejection ends the batch and keeps what was written before it. *)
Fixpoint bulk (ops : list value) (docs : list obj) (matched modified : nat) : option (result value * list obj) :=
  match ops with
  | [] => Some (Ok (BulkWriteResult matched modified), docs)
  | VObj [("updateOne"%string, VObj [("filter"%string, VObj filter); ("update"%string, VObj update)])] :: rest =>
      match update_first filter update docs with
      | None => None
      | Some (Err e) => Some (Err e, docs)
      | Some (Ok (docs', None)) => bulk rest docs' matched modified
      | Some (Ok (docs', Some (d, d'))) =>
          bulk rest docs' (S matched) (changed d d' + modified)
      end
  | _ => None
  end.

Definition limited (limit : option Z) (docs : list obj) : option (list obj) :=
  match limit with
  | None => Some docs
  | Some n =>
      if (n =? 0)%Z then Some docs
      else if (0 <? n)%Z then Some (firstn (Z.to_nat n) docs)
      else None
  end.

(** The join stage on one row: the documents of [from] whose foreign field
    equals the row's local field, under the key [as]. *)
Definition join_row (foreign : list obj) (localField foreignField as_ : string) (row : obj) : option obj :=
  match get_path (path_of localField) (VObj row) with
  | None | Some (Found (VArr _)) => None
  | Some local =>
      let cond := match local with Found v => v | Missing => VNull end in
      match select [(foreignField, cond)] foreign with
      | Some joined =>
          match path_of as_ with
          | [f] => if valid_field f then Some (doc_set f (VArr (map VObj joined)) row) else None
          | _ => None
          end
      | None => None
      end
  end.

Fixpoint join_rows (foreign : list obj) (localField foreignField as_ : string) (rows : list obj) : option (list obj) :=
  match rows with
  | [] => Some []
  | row :: rest =>
      match join_row foreign localField foreignField as_ row,
            join_rows foreign localField foreignField as_ rest with
      | Some r, Some l => Some (r :: l)
      | _, _ => None
      end
  end.

Definition stage (db : database) (st : value) (rows : list obj) : option (list obj) :=
  match st with
  | VObj [("$match"%string, VObj filter)] => select filter rows
  | VObj [("$lookup"%string,
           VObj [("from"%string, VStr from); ("localField"%string, VStr localField);
                 ("foreignField"%string, VStr foreignField); ("as"%string, VStr as_)])] =>
      join_rows (db from) localField foreignField as_ rows
  | VObj [("$limit"%string, VNum n)] =>
      if (0 <? n)%Z then Some (firstn (Z.to_nat n) rows) else None
  | _ => None
  end.

Fixpoint stages (db : database) (pipeline : list value) (rows : list obj) : option (list obj) :=
  match pipeline with
  | [] => Some rows
  | st :: rest =>
      match stage db st rows with
      | Some rows' => stages db rest rows'
      | None => None
      end
  end.

(** What the store answers to a call and what it holds afterwards. *)
Definition exec {R : Type} (call : StoreCall R) (db : database) : option (result R * database) :=
  match call in StoreCall T return option (result T * database) with
  | updateOne coll filter update =>
      match update_first filter update (db coll) with
      | None => None
      | Some (Err e) => Some (Err e, db)
      | Some (Ok (docs, None)) => Some (Ok (UpdateResult 0 0), db)
      | Some (Ok (docs, Some (d, d'))) =>
          Some (Ok (UpdateResult 1 (changed d d')), store db coll docs)
      end
  | deleteOne coll filter =>
      match first_match filter (db coll) with
      | None => None
      | Some None => Some (Ok (DeleteResult 0), db)
      | Some (Some (before, _, after)) =>
          Some (Ok (DeleteResult 1), store db coll (before ++ after))
      end
  | bulkWrite coll ops =>
      match bulk ops (db coll) 0 0 with
      | None => None
      | Some (r, docs) => Some (r, store db coll docs)
      end
  | findOneAndUpdate coll filter update options =>
      match options with
      | [("returnDocument"%string, VStr which)] =>
          if String.eqb which "after" || String.eqb which "before" then
            match update_first filter update (db coll) with
            | None => None
            | Some (Err e) => Some (Err e, db)
            | Some (Ok (docs, None)) => Some (Ok (ModifyResult VNull 0), db)
            | Some (Ok (docs, Some (d, d'))) =>
                Some (Ok (ModifyResult
                            (VObj (if String.eqb which "after" then d' else d)) 1),
                      store db coll docs)
            end
          else None
      | _ => None
      end
  | find coll filter sort limit =>
      match filter, sort with
      | VObj filter, (None | Some (VObj [])) =>
          match select filter (db coll) with
          | Some docs =>
              match limited limit docs with
              | Some docs' => Some (Ok docs', db)
              | None => None
              end
          | None => None
          end
      | _, _ => None
      end
  | aggregate coll pipeline =>
      match stages db pipeline (db coll) with
      | Some rows => Some (Ok rows, db)
      | None => None
      end
  end.

(** A promise run against the store: each awaited call is answered by
    [exec]; a rejected call rejects the promise. *)
Fixpoint run {A : Type} (p : Promise A) (db : database) : option (result A * database) :=
  match p with
  | resolve a => Some (Ok a, db)
  | reject e => Some (Err e, db)
  | await call k =>
      match exec call db with
      | Some (Ok r, db') => run (k r) db'
      | Some (Err e, db') => Some (Err e, db')
      | None => None
      end
  end.

End Mongo.

(** ** The adapter *)

Module Storage.
Import JS Driver.

Definition Ref : Type := string.

Inductive SortingOrder : Type := Ascending | Descending.

(** [FindOptions]: every member is optional. [sort] and [lookup] are kept in
    the order [for ... in] visits them, each key with the value read at it. *)
Module FindOptions.
Record t : Type := {
  limit : option Z;
  sort : option (list (string * SortingOrder));
  lookup : option (list (string * Ref))
}.
End FindOptions.

(** The members the transactions share ([TxCUD]) are repeated in each. *)
Module TxPutBag.
Record t : Type := {
  objectId : Ref; objectClass : Ref; modifiedBy : Ref; modifiedOn : Z;
  bag : string; key : string; value : JS.value
}.
End TxPutBag.

Module TxRemoveDoc.
Record t : Type := {
  objectId : Ref; objectClass : Ref; modifiedBy : Ref; modifiedOn : Z
}.
End TxRemoveDoc.

Module TxMixin.
Record t : Type := {
  objectId : Ref; objectClass : Ref; modifiedBy : Ref; modifiedOn : Z;
  mixin : Ref; attributes : obj
}.
End TxMixin.

Module TxUpdateDoc.
Record t : Type := {
  objectId : Ref; objectClass : Ref; modifiedBy : Ref; modifiedOn : Z;
  operations : obj; retrieve : option bool
}.
End TxUpdateDoc.

(** The collaborators the adapter is constructed with. *)
Record Hierarchy : Type := {
  getBaseClass : Ref -> Ref;
  getDescendants : Ref -> list Ref;
  getDomain : Ref -> string
}.

Record ModelDb : Type := {
  getObject : value -> result value
}.

Record MongoAdapterBase : Type := {
  hierarchy : Hierarchy;
  modelDb : ModelDb
}.

(** What the file imports from the core package and only uses: the test for
    an operator map and the name of the model domain. *)
Class Core : Type := {
  isOperator : obj -> bool;
  DOMAIN_MODEL : string
}.

Section Adapter.
Context {core : Core}.
Variable this : MongoAdapterBase.

(** *** [translateQuery] *)

(** The body of the loop over the fields of the query: what is stored at
    the field's key. [pattern.split] throws unless the pattern is a string. *)
Definition translateField (value : value) : result JS.value :=
  if negb (is_null value) && typeof_object value then
    let? keys := keys value in
    match first_key keys with
    | Some k =>
        if String.eqb k "$like" then
          let? pattern := get_prop value "$like" in
          match pattern with
          | VStr pattern =>
              Ok (VObj (obj_lit
                    [("$regex", VStr ("^" ++ join ".*" (split "%" pattern) ++ "$"));
                     ("$options", VStr "i")]))
          | _ => Err (TypeError "pattern.split is not a function")
          end
        else Ok value
    | None => Ok value
    end
  else Ok value.

(** [for (const key in query) { ... translated[key] = ... }] *)
Fixpoint translateFields (query : obj) (translated : JS.value) : result JS.value :=
  match query with
  | [] => Ok translated
  | (key, value) :: rest =>
      let? v := translateField value in
      translateFields rest (assign key v translated)
  end.

Definition class_in (classes : list Ref) : JS.value :=
  VObj (obj_lit [("$in", VArr (map VStr classes))]).

Definition exists_true : JS.value :=
  VObj (obj_lit [("$exists", VBool true)]).

(** [translated] starts as [{}]; [translated._class] is read through the
    prototype where the loop has replaced it. *)
Definition translateQuery (clazz : Ref) (query : obj) : result JS.value :=
  let? translated := translateFields query (VObj []) in
  let baseClass := getBaseClass (hierarchy this) clazz in
  let classes := getDescendants (hierarchy this) baseClass in
  let translated :=
    if is_undefined (get_prop_opt (get_prop_opt translated "_class") "$in")
    then assign "_class" (class_in classes) translated
    else translated in
  let translated :=
    if negb (String.eqb baseClass clazz)
    then assign clazz exists_true translated
    else translated in
  Ok translated.

(** *** [lookup] and [findAll] *)

(** The join stages: one for each lookup entry outside the model domain. *)
Fixpoint lookup_stages (lookups : list (string * Ref)) : list JS.value :=
  match lookups with
  | [] => []
  | (key, clazz) :: rest =>
      let domain := getDomain (hierarchy this) clazz in
      if negb (String.eqb domain DOMAIN_MODEL) then
        VObj (obj_lit
          [("$lookup", VObj (obj_lit
              [("from", VStr domain);
               ("localField", VStr key);
               ("foreignField", VStr "_id");
               ("as", VStr (key ++ "_lookup"))]))])
        :: lookup_stages rest
      else lookup_stages rest
  end.

Definition order_value (o : SortingOrder) : JS.value :=
  match o with
  | Ascending => VNum 1
  | Descending => VNum (-1)
  end.

(** A sort key that addresses a looked-up field is retargeted to the joined
    array. *)
Definition lookup_sort_key (_key : string) : string :=
  if startsWith _key "$lookup." then
    let key := replace "$lookup." "" _key in
    match split "." key with
    | k0 :: rest => join "." ((k0 ++ "_lookup")%string :: rest)
    | [] => key
    end
  else _key.

(** [for (const _key in options.sort) { ... sort[key] = ... }] *)
Fixpoint lookup_sort (s : list (string * SortingOrder)) (sort : JS.value) : JS.value :=
  match s with
  | [] => sort
  | (_key, o) :: rest =>
      lookup_sort rest (assign (lookup_sort_key _key) (order_value o) sort)
  end.

Fixpoint find_sort (s : list (string * SortingOrder)) (sort : JS.value) : JS.value :=
  match s with
  | [] => sort
  | (key, o) :: rest => find_sort rest (assign key (order_value o) sort)
  end.

Definition lookups_of (options : FindOptions.t) : list (string * Ref) :=
  match FindOptions.lookup options with
  | Some l => l
  | None => []
  end.

Definition pipeline_of (filter : JS.value) (options : FindOptions.t) : list JS.value :=
  [VObj (obj_lit [("$match", filter)])]
  ++ lookup_stages (lookups_of options)
  ++ match FindOptions.sort options with
     | Some s => [VObj (obj_lit [("$sort", lookup_sort s (VObj []))])]
     | None => []
     end
  ++ match FindOptions.limit options with
     | Some n => [VObj (obj_lit [("$limit", VNum n)])]
     | None => []
     end.

(** [object.$lookup[key] = x]: the sub-map, which [shape_row] has set to
    [{}], is assigned to in place. *)
Definition set_lookup (key : string) (x : JS.value) (object : obj) : result obj :=
  match or_undefined (obj_get "$lookup" object) with
  | (VObj _ | VInherit _ _) as sub =>
      Ok (obj_set "$lookup" (assign key x sub) object)
  | VUndefined | VNull =>
      Err (TypeError "Cannot set properties of undefined or null")
  | _ => Err (TypeError "Cannot create property on a primitive value")
  end.

(** The loop over the lookup entries for one row. *)
Fixpoint shape_entries (lookups : list (string * Ref)) (object : obj) : result obj :=
  match lookups with
  | [] => Ok object
  | (key, clazz) :: rest =>
      let domain := getDomain (hierarchy this) clazz in
      if negb (String.eqb domain DOMAIN_MODEL) then
        let arr := or_undefined (obj_get (key ++ "_lookup") object) in
        let? first := get_prop arr "0" in
        let? object := set_lookup key first object in
        shape_entries rest object
      else
        let? found := getObject (modelDb this) (or_undefined (obj_get key object)) in
        let? object := set_lookup key found object in
        shape_entries rest object
  end.

Definition shape_row (lookups : list (string * Ref)) (row : obj) : result obj :=
  shape_entries lookups (obj_set "$lookup" (VObj []) row).

(** [for (const row of result) { ... }] *)
Fixpoint shape_rows (lookups : list (string * Ref)) (rows : list obj) : result (list obj) :=
  match rows with
  | [] => Ok []
  | row :: rest =>
      let? row' := shape_row lookups row in
      let? rest' := shape_rows lookups rest in
      Ok (row' :: rest')
  end.

Definition lookup (clazz : Ref) (query : obj) (options : FindOptions.t) : Promise (list obj) :=
  lift (translateQuery clazz query) (fun filter =>
  let pipeline := pipeline_of filter options in
  let domain := getDomain (hierarchy this) clazz in
  await (aggregate domain pipeline) (fun result =>
  lift (shape_rows (lookups_of options) result) resolve)).

Definition findAll (_class : Ref) (query : obj) (options : option FindOptions.t) : Promise (list obj) :=
  match options with
  | Some o =>
      match FindOptions.lookup o with
      | Some _ => lookup _class query o
      | None =>
          let domain := getDomain (hierarchy this) _class in
          lift (translateQuery _class query) (fun filter =>
          await (find domain filter
                   (option_map (fun s => find_sort s (VObj [])) (FindOptions.sort o))
                   (FindOptions.limit o))
                resolve)
      end
  | None =>
      let domain := getDomain (hierarchy this) _class in
      lift (translateQuery _class query) (fun filter =>
      await (find domain filter None None) resolve)
  end.

(** *** [MongoAdapter]: the mutation translator *)

Definition by_id (objectId : Ref) : obj := obj_lit [("_id", VStr objectId)].

Definition txPutBag (tx : TxPutBag.t) : Promise JS.value :=
  let domain := getDomain (hierarchy this) (TxPutBag.objectClass tx) in
  await (updateOne domain (by_id (TxPutBag.objectId tx))
           (obj_lit
              [("$set", VObj (obj_lit
                  [((TxPutBag.bag tx ++ "." ++ TxPutBag.key tx)%string,
                    TxPutBag.value tx)]))]))
        (fun _ => resolve (VObj [])).

Definition txRemoveDoc (tx : TxRemoveDoc.t) : Promise JS.value :=
  let domain := getDomain (hierarchy this) (TxRemoveDoc.objectClass tx) in
  await (deleteOne domain (by_id (TxRemoveDoc.objectId tx)))
        (fun _ => resolve (VObj [])).

(** The loop of [translateMixinAttrs] over the entries, with the recursive
    call on the payload of an operator key as a parameter. *)
Definition mixin_entries (rec : JS.value -> result obj) (mixin : Ref) :
    obj -> obj -> nat -> result (obj * nat) :=
  fix loop (es attrs : obj) (count : nat) {struct es} : result (obj * nat) :=
    match es with
    | [] => Ok (attrs, count)
    | (k, v) :: es' =>
        if startsWith k "$" then
          let? sub := rec v in
          loop es' (obj_set k (VObj sub) attrs) (S count)
        else
          loop es' (obj_set (mixin ++ "." ++ k)%string v attrs) (S count)
    end.

(** [if (count === 0) { attrs[mixin + '.' + '__mixin'] = 'true' }] *)
Definition mixin_marker (mixin : Ref) (r : obj * nat) : obj :=
  if Nat.eqb (snd r) 0
  then obj_set (mixin ++ "." ++ "__mixin")%string (VStr "true") (fst r)
  else fst r.

(** [attributes] is whatever the caller or the recursion passes. The
    entries of an array or a string have index keys, none of which starts
    with [$], so the loop over them never recurses. *)
Fixpoint translateMixinAttrs (mixin : Ref) (attributes : JS.value) {struct attributes} : result obj :=
  match attributes with
  | VObj es | VInherit _ es =>
      let? r := mixin_entries (translateMixinAttrs mixin) mixin es [] 0 in
      Ok (mixin_marker mixin r)
  | _ =>
      let? es := entries attributes in
      let? r := mixin_entries (fun _ => Ok []) mixin es [] 0 in
      Ok (mixin_marker mixin r)
  end.

Definition modified (modifiedBy : Ref) (modifiedOn : Z) : obj :=
  obj_lit [("modifiedBy", VStr modifiedBy); ("modifiedOn", VNum modifiedOn)].

(** The two writes of the list reposition, on the array field [arr] with
    the descriptor [desc]; reading a member of a missing descriptor throws. *)
Definition move_ops (objectId modifiedBy : Ref) (modifiedOn : Z) (arr : string) (desc : JS.value) : result (list JS.value) :=
  let? pulled := get_prop desc "$value" in
  let? pushed := get_prop desc "$value" in
  let? position := get_prop desc "$position" in
  Ok [VObj (obj_lit
        [("updateOne", VObj (obj_lit
            [("filter", VObj (by_id objectId));
             ("update", VObj (obj_lit
                 [("$pull", VObj (obj_lit [(arr, pulled)]))]))]))]);
      VObj (obj_lit
        [("updateOne", VObj (obj_lit
            [("filter", VObj (by_id objectId));
             ("update", VObj (obj_lit
                 [("$set", VObj (modified modifiedBy modifiedOn));
                  ("$push", VObj (obj_lit
                      [(arr, VObj (obj_lit
                          [("$each", VArr [pushed]);
                           ("$position", position)]))]))]))]))])].

Definition txMixin (tx : TxMixin.t) : Promise JS.value :=
  let domain := getDomain (hierarchy this) (TxMixin.objectClass tx) in
  let attributes := TxMixin.attributes tx in
  let modifiedBy := TxMixin.modifiedBy tx in
  let modifiedOn := TxMixin.modifiedOn tx in
  if isOperator attributes then
    let operator := first_key (map fst attributes) in
    if match operator with Some k => String.eqb k "$move" | None => false end
    then
      let keyval := or_undefined (obj_get "$move" attributes) in
      lift (keys keyval) (fun ks =>
      let arr := (TxMixin.mixin tx ++ "." ++ key_string (first_key ks))%string in
      lift (get_prop keyval arr) (fun desc =>
      lift (move_ops (TxMixin.objectId tx) modifiedBy modifiedOn arr desc) (fun ops =>
      await (bulkWrite domain ops) resolve)))
    else
      lift (translateMixinAttrs (TxMixin.mixin tx) (VObj attributes)) (fun attrs =>
      await (updateOne domain (by_id (TxMixin.objectId tx))
               (obj_set "$set" (VObj (modified modifiedBy modifiedOn)) (obj_spread [] attrs)))
            resolve)
  else
    lift (translateMixinAttrs (TxMixin.mixin tx) (VObj attributes)) (fun attrs =>
    await (updateOne domain (by_id (TxMixin.objectId tx))
             (obj_lit
                [("$set", VObj (obj_spread (obj_spread [] attrs) (modified modifiedBy modifiedOn)))]))
          resolve).

Definition returnDocument_after : obj := obj_lit [("returnDocument", VStr "after")].

(** [{ object: result.value }] *)
Definition retrieved (result : JS.value) : Promise JS.value :=
  lift (get_prop result "value") (fun v => resolve (VObj (obj_lit [("object", v)]))).

Definition txUpdateDoc (tx : TxUpdateDoc.t) : Promise JS.value :=
  let domain := getDomain (hierarchy this) (TxUpdateDoc.objectClass tx) in
  let operations := TxUpdateDoc.operations tx in
  let modifiedBy := TxUpdateDoc.modifiedBy tx in
  let modifiedOn := TxUpdateDoc.modifiedOn tx in
  if isOperator operations then
    let operator := first_key (map fst operations) in
    if match operator with Some k => String.eqb k "$move" | None => false end
    then
      let keyval := or_undefined (obj_get "$move" operations) in
      lift (keys keyval) (fun ks =>
      let arr := key_string (first_key ks) in
      lift (get_prop keyval arr) (fun desc =>
      lift (move_ops (TxUpdateDoc.objectId tx) modifiedBy modifiedOn arr desc) (fun ops =>
      await (bulkWrite domain ops) resolve)))
    else
      let update := obj_set "$set" (VObj (modified modifiedBy modifiedOn)) (obj_spread [] operations) in
      match TxUpdateDoc.retrieve tx with
      | Some true =>
          await (findOneAndUpdate domain (by_id (TxUpdateDoc.objectId tx))
                   update returnDocument_after)
                retrieved
      | _ =>
          await (updateOne domain (by_id (TxUpdateDoc.objectId tx)) update)
                resolve
      end
  else
    let update :=
      obj_lit [("$set", VObj (obj_spread (obj_spread [] operations) (modified modifiedBy modifiedOn)))] in
    match TxUpdateDoc.retrieve tx with
    | Some true =>
        await (findOneAndUpdate domain (by_id (TxUpdateDoc.objectId tx))
                 update returnDocument_after)
              retrieved
    | _ =>
        await (updateOne domain (by_id (TxUpdateDoc.objectId tx)) update)
              resolve
    end.

End Adapter.
End Storage.

(** ** The vocabulary of the properties *)

Module Props.
Import JS Driver Storage.

(** Does an update document set [modifiedBy] and [modifiedOn] to the given
    values in its [$set] clause? *)
Definition stamped (modifiedBy : Ref) (modifiedOn : Z) (update : obj) : bool :=
  match obj_get "$set" update with
  | Some (VObj s) =>
      value_eqb (or_undefined (obj_get "modifiedBy" s)) (VStr modifiedBy)
      && value_eqb (or_undefined (obj_get "modifiedOn" s)) (VNum modifiedOn)
  | _ => false
  end.

Definition stamped_op (modifiedBy : Ref) (modifiedOn : Z) (op : value) : bool :=
  match or_undefined (obj_get "update"
          match get_prop_opt op "updateOne" with VObj o => o | _ => [] end) with
  | VObj update => stamped modifiedBy modifiedOn update
  | _ => false
  end.

(** Does a store call write the two fields? A batch does when one of its
    operations does. *)
Definition stamped_call (modifiedBy : Ref) (modifiedOn : Z) {R : Type} (call : StoreCall R) : bool :=
  match call with
  | updateOne _ _ update => stamped modifiedBy modifiedOn update
  | findOneAndUpdate _ _ update _ => stamped modifiedBy modifiedOn update
  | bulkWrite _ ops => existsb (stamped_op modifiedBy modifiedOn) ops
  | _ => false
  end.

(** The call a method issues first, judged by [stamped_call]; [None] when
    the method ends without calling the store. *)
Definition issues_stamped (modifiedBy : Ref) (modifiedOn : Z) {A : Type} (p : Promise A) : option bool :=
  match p with
  | await call _ => Some (stamped_call modifiedBy modifiedOn call)
  | _ => None
  end.

(** The native form of a pattern match. *)
Definition like_regex (pattern : string) : value :=
  VObj [("$regex", VStr ("^" ++ join ".*" (split "%" pattern) ++ "$"));
        ("$options", VStr "i")].

(** The first key of an object value is the pattern-match marker. *)
Definition first_is_like (v : value) : bool :=
  match v with
  | VObj ((k, _) :: _) | VInherit _ ((k, _) :: _) => String.eqb k "$like"
  | _ => false
  end.

(** Where the marker comes first, the pattern under it is a string. *)
Definition well_patterned (v : value) : bool :=
  match v with
  | VObj ((k, p) :: _) | VInherit _ ((k, p) :: _) =>
      if String.eqb k "$like"
      then match p with VStr _ => true | _ => false end
      else true
  | _ => true
  end.

(** The value carries a class list of its own. *)
Definition has_in (v : value) : bool := negb (is_undefined (get_prop_opt v "$in")).

(** The two steps of [translateQuery] after the loop, on what the loop
    produced. *)
Definition with_class (this : MongoAdapterBase) (clazz : Ref) (t0 : value) : value :=
  if is_undefined (get_prop_opt (get_prop_opt t0 "_class") "$in")
  then assign "_class"
         (class_in (getDescendants (hierarchy this) (getBaseClass (hierarchy this) clazz))) t0
  else t0.

Definition with_facet (this : MongoAdapterBase) (clazz : Ref) (t1 : value) : value :=
  if negb (String.eqb (getBaseClass (hierarchy this) clazz) clazz)
  then assign clazz exists_true t1
  else t1.


(** The target class of a lookup entry is stored outside the model
    domain. *)
Definition non_model {core : Core} (this : MongoAdapterBase) (clazz : Ref) : bool :=
  negb (String.eqb (getDomain (hierarchy this) clazz) DOMAIN_MODEL).

(** The join stage for the lookup entry [key] with target domain [domain]. *)
Definition join_stage (domain key : string) : value :=
  VObj [("$lookup", VObj [("from", VStr domain); ("localField", VStr key);
                          ("foreignField", VStr "_id");
                          ("as", VStr (key ++ "_lookup"))])].

(** The names every object inherits from [Object.prototype]. *)
Definition object_prototype_names : list string :=
  ["__proto__"; "constructor"; "hasOwnProperty"; "isPrototypeOf";
   "propertyIsEnumerable"; "toLocaleString"; "toString"; "valueOf";
   "__defineGetter__"; "__defineSetter__"; "__lookupGetter__";
   "__lookupSetter__"].

(** A key under which the shaper reads a field of a row and binds a lookup:
    not [$lookup], where it keeps its sub-map, and none of the inherited
    names, under which a read of a row finds a member of the prototype and
    an assignment of [__proto__] goes to the accessor. *)
Definition field_name (k : string) : bool :=
  negb (String.eqb k "$lookup")
  && negb (existsb (String.eqb k) object_prototype_names).

(** A row the store can have produced for the lookups, on which the model
    cache answers: it has the joined array of every entry outside the model
    domain, and the cache resolves the field of every entry inside it. *)
Definition row_ready {core : Core} (this : MongoAdapterBase) (lookups : list (string * Ref)) (row : obj) : Prop :=
  forall key clazz, In (key, clazz) lookups ->
    if non_model this clazz
    then exists arr, obj_get (key ++ "_lookup") row = Some (VArr arr)
    else exists found,
           getObject (modelDb this) (or_undefined (obj_get key row)) = Ok found.

(** The shaped row: the row itself with a [$lookup] sub-map that binds the
    key of every entry, to the first element of its joined array
    ([undefined] when the array is empty) or to what the model cache
    resolves the row's field to. *)
Definition shaped {core : Core} (this : MongoAdapterBase) (lookups : list (string * Ref)) (row row' : obj) : Prop :=
  (forall k, k <> "$lookup" -> obj_get k row' = obj_get k row)
  /\ exists sub,
       obj_get "$lookup" row' = Some (VObj sub)
       /\ forall key clazz, In (key, clazz) lookups ->
            if non_model this clazz
            then forall arr, obj_get (key ++ "_lookup") row = Some (VArr arr) ->
                   obj_get key sub = Some (nth 0 arr VUndefined)
            else forall found,
                   getObject (modelDb this) (or_undefined (obj_get key row)) = Ok found ->
                   obj_get key sub = Some found.

(** The payload takes the reposition branch of [txUpdateDoc] and
    [txMixin]. *)
Definition is_reposition {core : Core} (payload : obj) : bool :=
  isOperator payload
  && match first_key (map fst payload) with
     | Some k => String.eqb k "$move"
     | None => false
     end.

(** The update document of a non-reposition [txUpdateDoc]. *)
Definition updateDoc_update {core : Core} (tx : TxUpdateDoc.t) : obj :=
  if isOperator (TxUpdateDoc.operations tx)
  then obj_set "$set"
         (VObj (modified (TxUpdateDoc.modifiedBy tx) (TxUpdateDoc.modifiedOn tx)))
         (obj_spread [] (TxUpdateDoc.operations tx))
  else [("$set", VObj (obj_spread (obj_spread [] (TxUpdateDoc.operations tx))
                         (modified (TxUpdateDoc.modifiedBy tx) (TxUpdateDoc.modifiedOn tx))))].

(** The update document of a [txMixin] without attributes. *)
Definition marker_update (mixin modifiedBy : Ref) (modifiedOn : Z) : obj :=
  [("$set", VObj [((mixin ++ "." ++ "__mixin")%string, VStr "true");
                  ("modifiedBy", VStr modifiedBy);
                  ("modifiedOn", VNum modifiedOn)])].

(** The test for the presence of a facet. *)
Definition has_facet (mixin : Ref) : obj := [(mixin, VObj [("$exists", VBool true)])].

(** A method that throws before it reaches the store. *)
Definition throws {A : Type} (p : Promise A) : bool :=
  match p with
  | reject (TypeError _) => true
  | _ => false
  end.

End Props.

(** ** Instances for concrete runs *)

Module Fixture.
Import JS Driver Storage.

(** An instance of what the core package provides. An operator map is a
    map with at least one key, all of whose keys carry the operator prefix;
    the model domain is the one the core names [model]. *)
Definition isOperator (o : obj) : bool :=
  match o with
  | [] => false
  | _ => forallb (fun kv => startsWith (fst kv) "$") o
  end.

Definition core : Core := {| Storage.isOperator := isOperator; DOMAIN_MODEL := "model" |}.

(** A hierarchy with a base class [Doc], its subclasses [Task] and [Bug],
    a mixin [Assigned] stored with [Doc], and the model class [User]. *)
Definition hierarchy : Hierarchy := {|
  getBaseClass := fun c => if String.eqb c "Assigned" then "Doc" else c;
  getDescendants := fun c => if String.eqb c "Doc" then ["Doc"; "Task"; "Bug"] else [c];
  getDomain := fun c => if String.eqb c "User" then "model" else "tasks"
|}.

Definition modelDb : ModelDb := {|
  getObject := fun v =>
    match v with
    | VStr "u1" => Ok (VObj [("_id", VStr "u1"); ("_class", VStr "User")])
    | _ => Err (PlatformError "ObjectNotFound")
    end
|}.

Definition adapter : MongoAdapterBase := {| Storage.hierarchy := hierarchy; Storage.modelDb := modelDb |}.

Definition reposition : obj :=
  [("$move", VObj [("items", VObj [("$value", VStr "B"); ("$position", VNum 0)])])].

Definition task1 : obj :=
  [("_id", VStr "d1"); ("_class", VStr "Task");
   ("items", VArr [VStr "A"; VStr "B"; VStr "C"]); ("parent", VStr "d2");
   ("owner", VStr "u1")].

Definition task2 : obj :=
  [("_id", VStr "d2"); ("_class", VStr "Task"); ("owner", VStr "u1")].

Definition db : Mongo.database :=
  fun c => if String.eqb c "tasks" then [task1; task2] else [].

Definition descriptor : value := VObj [("$value", VStr "B"); ("$position", VNum 0)].

Definition mixinMove : TxMixin.t := {|
  TxMixin.objectId := "d1"; TxMixin.objectClass := "Task";
  TxMixin.modifiedBy := "u1"; TxMixin.modifiedOn := 1700000000000;
  TxMixin.mixin := "Assigned";
  TxMixin.attributes := [("$move", VObj [("items", descriptor)])]
|}.

Definition mixinEmpty : TxMixin.t := {|
  TxMixin.objectId := "d1"; TxMixin.objectClass := "Task";
  TxMixin.modifiedBy := "u1"; TxMixin.modifiedOn := 1700000000000;
  TxMixin.mixin := "Assigned"; TxMixin.attributes := []
|}.

Definition updateRetrieve : TxUpdateDoc.t := {|
  TxUpdateDoc.objectId := "d2"; TxUpdateDoc.objectClass := "Task";
  TxUpdateDoc.modifiedBy := "u1"; TxUpdateDoc.modifiedOn := 1700000000000;
  TxUpdateDoc.operations := [("title", VStr "Fix")];
  TxUpdateDoc.retrieve := Some true
|}.

Definition removeTask : TxRemoveDoc.t := {|
  TxRemoveDoc.objectId := "d1"; TxRemoveDoc.objectClass := "Task";
  TxRemoveDoc.modifiedBy := "u1"; TxRemoveDoc.modifiedOn := 1700000000000
|}.

Definition putBag : TxPutBag.t := {|
  TxPutBag.objectId := "d1"; TxPutBag.objectClass := "Task";
  TxPutBag.modifiedBy := "u1"; TxPutBag.modifiedOn := 1700000000000;
  TxPutBag.bag := "labels"; TxPutBag.key := "color"; TxPutBag.value := VStr "red"
|}.

Definition withLookups : FindOptions.t := {|
  FindOptions.limit := None; FindOptions.sort := None;
  FindOptions.lookup := Some [("owner", "User"); ("parent", "Task")]
|}.

(** Two rows as the join stage for [parent] leaves them: one with a
    parent, one without. *)
Definition joined1 : obj := task1 ++ [("parent_lookup", VArr [VObj task2])].
Definition joined2 : obj := task2 ++ [("parent_lookup", VArr [])].

Definition likeQuery : obj :=
  [("name", VObj [("$like", VStr "ab%cd")]); ("size", VObj [("$gt", VNum 3)])].




(** Two operator maps with the same keys in either order. *)
Definition moveThenPush : obj :=
  [("$move", VObj [("items", descriptor)]); ("$push", VObj [("tags", VStr "x")])].

Definition pushThenMove : obj :=
  [("$push", VObj [("tags", VStr "x")]); ("$move", VObj [("items", descriptor)])].

End Fixture.

(** ** Further vocabulary *)

Module MoreProps.
Import JS Driver Storage.

(** Every key of a translated attribute map is a field under the mixin or
    an operator over a map that is namespaced in turn. *)
Unset Elimination Schemes.
Inductive namespaced (mixin : Ref) : obj -> Prop :=
| Namespaced (o : obj) :
    (forall k v, In (k, v) o ->
       (exists field, k = (mixin ++ "." ++ field)%string)
       \/ (startsWith k "$" = true
           /\ exists sub, v = VObj sub /\ namespaced mixin sub)) ->
    namespaced mixin o.
Set Elimination Schemes.

(** A field name the store takes as one top-level field. *)
Definition top_field (f : string) : bool := no_dot f && Mongo.valid_field f.

(** A descriptor of a reposition: the value and where it goes. *)
Definition move_descriptor (v : value) (position : Z) : value :=
  VObj [("$value", v); ("$position", VNum position)].

Definition is_object (v : value) : bool :=
  match v with
  | VObj _ | VInherit _ _ => true
  | _ => false
  end.


(** The filter [{ _id: id }]. *)
Definition by_identifier (id : Ref) (filter : obj) : bool :=
  value_eqb (VObj filter) (VObj [("_id", VStr id)]).

Definition op_by_identifier (id : Ref) (op : value) : bool :=
  match or_undefined (obj_get "filter"
          match get_prop_opt op "updateOne" with VObj o => o | _ => [] end) with
  | VObj filter => by_identifier id filter
  | _ => false
  end.

(** A write call on the collection [domain] that addresses the document
    [id] and no other: by its filter, and in a batch by the filter of each
    operation. *)
Definition writes_to (domain : string) (id : Ref) {R : Type} (call : StoreCall R) : bool :=
  match call with
  | updateOne coll filter _ => String.eqb coll domain && by_identifier id filter
  | deleteOne coll filter => String.eqb coll domain && by_identifier id filter
  | findOneAndUpdate coll filter _ _ => String.eqb coll domain && by_identifier id filter
  | bulkWrite coll ops => String.eqb coll domain && forallb (op_by_identifier id) ops
  | _ => false
  end.

(** The method is over: it makes no call. *)
Definition settled {A : Type} (p : Promise A) : bool :=
  match p with
  | await _ _ => false
  | _ => true
  end.

(** A method that throws, or makes one write call on the document [id] of
    [domain] and no call after it. *)
Inductive single_write (domain : string) (id : Ref) {A : Type} : Promise A -> Prop :=
| WriteNone (e : error) : single_write domain id (reject e)
| WriteOne (R : Type) (call : StoreCall R) (k : R -> Promise A) :
    writes_to domain id call = true ->
    (forall r, settled (k r) = true) ->
    single_write domain id (await call k).

(** The embedded document under a field, empty where there is none. *)
Definition embedded (f : string) (d : obj) : obj :=
  match obj_get f d with
  | Some (VObj sub) => sub
  | _ => []
  end.

(** The field is absent or holds an embedded document. *)
Definition embeddable (f : string) (d : obj) : bool :=
  match obj_get f d with
  | None | Some (VObj _) => true
  | _ => false
  end.

(** The two operations of a reposition, as the driver receives them. *)
Definition pull_op (objectId : Ref) (arr : string) (v : value) : value :=
  VObj [("updateOne",
         VObj [("filter", VObj [("_id", VStr objectId)]);
               ("update", VObj [("$pull", VObj [(arr, v)])])])].

Definition push_op (objectId modifiedBy : Ref) (modifiedOn : Z) (arr : string)
    (v position : value) : value :=
  VObj [("updateOne",
         VObj [("filter", VObj [("_id", VStr objectId)]);
               ("update",
                VObj [("$set", VObj [("modifiedBy", VStr modifiedBy);
                                     ("modifiedOn", VNum modifiedOn)]);
                      ("$push", VObj [(arr, VObj [("$each", VArr [v]);
                                                  ("$position", position)])])])])].

(** An array without the elements equal to [v]. *)
Definition without (v : value) (items : list value) : list value :=
  filter (fun x => negb (value_eqb x v)) items.

(** The class of a stored document is one of the classes. *)
Definition class_among (classes : list Ref) (d : obj) : bool :=
  match obj_get "_class" d with
  | Some (VStr c) => existsb (String.eqb c) classes
  | _ => false
  end.

(** The document names its class by a string. *)
Definition classed (d : obj) : bool :=
  match obj_get "_class" d with
  | Some (VStr _) => true
  | _ => false
  end.

End MoreProps.

(** ** Further instances for concrete runs *)

Module MoreFixture.
Import JS Driver Storage.

Definition plainAttrs : obj := [("due", VNum 5); ("note", VStr "soon")].

Definition nestedAttrs : value :=
  VObj [("$push", VObj [("tags", VStr "x")]); ("due", VNum 5)].

Definition operatorUpdate : TxUpdateDoc.t := {|
  TxUpdateDoc.objectId := "d1"; TxUpdateDoc.objectClass := "Task";
  TxUpdateDoc.modifiedBy := "u1"; TxUpdateDoc.modifiedOn := 1700000000000;
  TxUpdateDoc.operations :=
    [("$set", VObj [("title", VStr "Fix")]); ("$inc", VObj [("rank", VNum 1)])];
  TxUpdateDoc.retrieve := None
|}.

Definition operatorMixin : TxMixin.t := {|
  TxMixin.objectId := "d1"; TxMixin.objectClass := "Task";
  TxMixin.modifiedBy := "u1"; TxMixin.modifiedOn := 1700000000000;
  TxMixin.mixin := "Assigned";
  TxMixin.attributes :=
    [("$set", VObj [("due", VNum 5)]); ("$inc", VObj [("rank", VNum 1)])]
|}.

Definition moveItems : TxUpdateDoc.t := {|
  TxUpdateDoc.objectId := "d1"; TxUpdateDoc.objectClass := "Task";
  TxUpdateDoc.modifiedBy := "u1"; TxUpdateDoc.modifiedOn := 1700000000000;
  TxUpdateDoc.operations :=
    [("$move", VObj [("items", VObj [("$value", VStr "B"); ("$position", VNum 0)])])];
  TxUpdateDoc.retrieve := None
|}.

Definition limitOne : FindOptions.t := {|
  FindOptions.limit := Some 1%Z; FindOptions.sort := None; FindOptions.lookup := None
|}.

Definition badLike : obj := [("name", VObj [("$like", VNum 3)])].



End MoreFixture.

(** * Properties *)

(** ** Objects and strings *)

Module JSFacts.
Import JS.

Lemma eqb_false_sym (a b : string) : String.eqb a b = false -> String.eqb b a = false.
Proof. rewrite !String.eqb_neq. congruence. Qed.

Lemma obj_get_here (k : string) (v : value) (o : obj) :
  obj_get k ((k, v) :: o) = Some v.
Proof. cbn [obj_get]. now rewrite String.eqb_refl. Qed.

Lemma obj_get_next (k k' : string) (v : value) (o : obj) :
  String.eqb k k' = false -> obj_get k ((k', v) :: o) = obj_get k o.
Proof. intros N. cbn [obj_get]. now rewrite N. Qed.

Lemma obj_get_app (k : string) (o1 o2 : obj) :
  obj_get k (o1 ++ o2) =
  match obj_get k o1 with Some v => Some v | None => obj_get k o2 end.
Proof.
  induction o1 as [|[k' v'] o1 IH]; simpl; [reflexivity|].
  destruct (String.eqb k k'); [reflexivity | exact IH].
Qed.

Lemma obj_get_replace_same (k : string) (v : value) (o : obj) :
  obj_has k o = true -> obj_get k (obj_replace k v o) = Some v.
Proof.
  unfold obj_has. induction o as [|[k' v'] o IH]; simpl; [discriminate|].
  destruct (String.eqb k k') eqn:E; simpl.
  - now rewrite String.eqb_refl.
  - rewrite E. exact IH.
Qed.

Lemma obj_get_replace_other (k k' : string) (v : value) (o : obj) :
  String.eqb k' k = false -> obj_get k' (obj_replace k v o) = obj_get k' o.
Proof.
  intros N. induction o as [|[k0 v0] o IH]; simpl; [reflexivity|].
  destruct (String.eqb k k0) eqn:E; simpl.
  - apply String.eqb_eq in E. subst k0. now rewrite N.
  - now rewrite IH.
Qed.

Lemma obj_get_insert_same (n : N) (k : string) (v : value) (o : obj) :
  obj_has k o = false -> obj_get k (obj_insert_index n k v o) = Some v.
Proof.
  unfold obj_has. induction o as [|[k' v'] o IH]; simpl; intros H.
  - now rewrite String.eqb_refl.
  - destruct (String.eqb k k') eqn:E; [discriminate|].
    destruct (index_of_string k') as [m|]; [destruct (N.ltb n m)|]; simpl;
      rewrite ?String.eqb_refl, ?E; auto.
Qed.

Lemma obj_get_insert_other (n : N) (k k' : string) (v : value) (o : obj) :
  String.eqb k' k = false -> obj_get k' (obj_insert_index n k v o) = obj_get k' o.
Proof.
  intros N0. induction o as [|[k0 v0] o IH]; simpl.
  - now rewrite N0.
  - destruct (index_of_string k0) as [m|]; [destruct (N.ltb n m)|]; simpl;
      rewrite ?N0, ?IH; reflexivity.
Qed.

(** Reading back what was just written. *)
Lemma obj_get_set_same (k : string) (v : value) (o : obj) :
  obj_get k (obj_set k v o) = Some v.
Proof.
  unfold obj_set. destruct (obj_has k o) eqn:H.
  - now apply obj_get_replace_same.
  - destruct (index_of_string k) as [n|].
    + now apply obj_get_insert_same.
    + rewrite obj_get_app. unfold obj_has in H.
      destruct (obj_get k o); [discriminate|]. simpl. now rewrite String.eqb_refl.
Qed.

(** A write leaves every other key as it was. *)
Lemma obj_get_set_other (k k' : string) (v : value) (o : obj) :
  String.eqb k' k = false -> obj_get k' (obj_set k v o) = obj_get k' o.
Proof.
  intros N0. unfold obj_set. destruct (obj_has k o).
  - now apply obj_get_replace_other.
  - destruct (index_of_string k) as [n|].
    + now apply obj_get_insert_other.
    + rewrite obj_get_app. destruct (obj_get k' o); [reflexivity|].
      simpl. now rewrite N0.
Qed.

Lemma obj_set_nil (k : string) (v : value) : obj_set k v [] = [(k, v)].
Proof. unfold obj_set. simpl. now destruct (index_of_string k). Qed.

Lemma obj_lit_single (k : string) (v : value) : obj_lit [(k, v)] = [(k, v)].
Proof. unfold obj_lit, obj_spread. simpl. apply obj_set_nil. Qed.

(** A dotted name is none of the names that have no dot. *)
Lemma dotted_neq (a b t : string) :
  no_dot t = true -> String.eqb (a ++ "." ++ b) t = false.
Proof.
  revert t. induction a as [|c a IH]; intros t H; destruct t as [|c' t];
    cbn [String.eqb append no_dot] in *; try reflexivity.
  - apply andb_true_iff in H as [H _].
    destruct (Ascii.eqb_spec "." c') as [E|E]; [|reflexivity].
    subst c'. rewrite Ascii.eqb_refl in H. discriminate.
  - apply andb_true_iff in H as [_ H].
    destruct (Ascii.eqb c c'); [now apply IH | reflexivity].
Qed.

Lemma append_length (a b : string) :
  String.length (a ++ b) = String.length a + String.length b.
Proof. induction a; simpl; congruence. Qed.

(** A name prefixed with a mixin is never the bare name. *)
Lemma prefixed_neq (m f : string) : String.eqb (m ++ "." ++ f) f = false.
Proof.
  apply String.eqb_neq. intros E.
  apply (f_equal String.length) in E. rewrite !append_length in E. simpl in E. lia.
Qed.

Lemma lookup_suffix_neq (key : string) : String.eqb (key ++ "_lookup") "$lookup" = false.
Proof.
  apply String.eqb_neq. intros E.
  destruct key as [|c key]; simpl in E; [discriminate|].
  apply (f_equal String.length) in E. simpl in E. rewrite append_length in E.
  simpl in E. lia.
Qed.

Lemma split_cons (sep : ascii) (s : string) : exists h t, split sep s = h :: t.
Proof.
  induction s as [|c s [h [t IH]]]; simpl; eauto.
  destruct (Ascii.eqb c sep); eauto. rewrite IH. eauto.
Qed.

(** Splitting distributes over a separator that joins two strings. *)
Lemma split_app (sep : ascii) (a b : string) :
  split sep (a ++ String sep b) = split sep a ++ split sep b.
Proof.
  induction a as [|c a IH]; simpl.
  - now rewrite Ascii.eqb_refl.
  - destruct (Ascii.eqb c sep); rewrite IH; [reflexivity|].
    destruct (split_cons sep a) as [h [t E]]. now rewrite E.
Qed.

(** The first component of a name starts with [$] exactly when the name
    does. *)
Lemma split_head_dollar (s h : string) (t : list string) :
  split "." s = h :: t -> startsWith s "$" = startsWith h "$".
Proof.
  destruct s as [|x s]; cbn [split].
  - intros E. injection E as <- _. reflexivity.
  - destruct (Ascii.eqb_spec x ".") as [->|N0].
    + intros E. injection E as <- _. reflexivity.
    + destruct (split_cons "." s) as [h' [t' Es]]. rewrite Es.
      intros E. injection E as <- _. reflexivity.
Qed.

Lemma value_eqb_str (v : value) (s : string) :
  value_eqb v (VStr s) = true -> v = VStr s.
Proof.
  destruct v; simpl; try discriminate.
  intros H. apply String.eqb_eq in H. now subst.
Qed.

End JSFacts.

(** ** Assignment under a given key *)

Module AssignFacts.
Import JS JSFacts.

Lemma assign_record (k : string) (v t : value) :
  is_record t = true -> is_record (assign k v t) = true.
Proof.
  destruct t as [| | | | | |o|p o]; try discriminate; intros _; cbn [assign].
  - destruct (negb (obj_has k o) && String.eqb k "__proto__");
      [destruct (typeof_object v)|]; reflexivity.
  - destruct (negb (obj_has k o) && String.eqb k "__proto__" && inherits_setter p);
      [destruct (typeof_object v)|]; reflexivity.
Qed.

(** Every key but [__proto__] is assigned as an own property. *)
Lemma assign_plain (k : string) (v : value) (o : obj) :
  k <> "__proto__" -> assign k v (VObj o) = VObj (obj_set k v o).
Proof.
  intros N. apply String.eqb_neq in N. cbn [assign]. now rewrite N, andb_false_r.
Qed.

Lemma assign_inherit (k : string) (v p : value) (o : obj) :
  k <> "__proto__" -> assign k v (VInherit p o) = VInherit p (obj_set k v o).
Proof.
  intros N. apply String.eqb_neq in N. cbn [assign].
  now rewrite N, andb_false_r.
Qed.

Lemma own_assign_same (k : string) (v t : value) :
  is_record t = true -> k <> "__proto__" ->
  obj_get k (own (assign k v t)) = Some v.
Proof.
  destruct t as [| | | | | |o|p o]; try discriminate; intros _ N.
  - rewrite assign_plain by exact N. apply obj_get_set_same.
  - rewrite assign_inherit by exact N. apply obj_get_set_same.
Qed.

(** An assignment leaves the own properties under every other key as they
    were, whatever it does to the prototype. *)
Lemma own_assign_other (k k' : string) (v t : value) :
  String.eqb k k' = false ->
  obj_get k (own (assign k' v t)) = obj_get k (own t).
Proof.
  intros N. destruct t as [| | | | | |o|p o]; try reflexivity; cbn [assign].
  - destruct (negb (obj_has k' o) && String.eqb k' "__proto__");
      [destruct (typeof_object v); reflexivity|].
    cbn [own]. now apply obj_get_set_other.
  - destruct (negb (obj_has k' o) && String.eqb k' "__proto__" && inherits_setter p);
      [destruct (typeof_object v); reflexivity|].
    cbn [own]. now apply obj_get_set_other.
Qed.

(** What an object has of its own after an assignment it had before,
    unless under the key assigned. *)
Lemma own_assign_inv (k k' : string) (v x t : value) :
  obj_get k (own (assign k' v t)) = Some x ->
  k = k' \/ obj_get k (own t) = Some x.
Proof.
  destruct (String.eqb_spec k k') as [->|N]; [now left|].
  rewrite own_assign_other by now apply String.eqb_neq. now right.
Qed.


(** An own property is what a read finds first. *)
Lemma get_prop_opt_own (k : string) (x t : value) :
  is_record t = true -> obj_get k (own t) = Some x -> get_prop_opt t k = x.
Proof.
  destruct t as [| | | | | |o|p o]; try discriminate; intros _ G;
    cbn [own] in G; unfold get_prop_opt, get_prop; now rewrite G.
Qed.

Lemma get_prop_opt_plain (k : string) (o : obj) :
  get_prop_opt (VObj o) k = or_undefined (obj_get k o).
Proof. reflexivity. Qed.

End AssignFacts.

(** ** The store *)

Module MongoFacts.
Import JS Driver Mongo JSFacts.

(** A filter on the identifier is decided on every document. *)
Lemma matches_by_id (id : string) (d : obj) :
  is_array (doc_id d) = false ->
  matches [("_id", VStr id)] d = Some (has_id id d).
Proof.
  unfold has_id, doc_id. intros A.
  cbn [matches]. change (startsWith "_id" "$") with false. cbv iota.
  change (path_of "_id") with ["_id"]. cbn [get_path].
  destruct (obj_get "_id" d) as [x|]; cbn [or_undefined cond_match is_operator_object] in *.
  - unfold eq_match. destruct x; try discriminate A;
      now rewrite ?orb_false_r, ?andb_true_r.
  - reflexivity.
Qed.

Lemma keyed_tail (d : obj) (docs : list obj) : keyed (d :: docs) -> keyed docs.
Proof.
  intros [N F]. split; [now inversion N | now inversion F].
Qed.

(** Without a document of that identifier nothing matches. *)
Lemma first_match_absent (id : string) (docs : list obj) :
  Forall (fun d => is_array (doc_id d) = false) docs ->
  ~ In (VStr id) (map doc_id docs) ->
  first_match [("_id", VStr id)] docs = Some None.
Proof.
  induction 1 as [|d docs A _ IH]; intros N; cbn [first_match]; [reflexivity|].
  rewrite matches_by_id by exact A.
  destruct (has_id id d) eqn:H.
  - exfalso. apply N. left. now apply value_eqb_str in H.
  - rewrite IH; [reflexivity|]. intros I. apply N. now right.
Qed.

(** In a keyed collection the filter on an identifier finds the one
    document that has it, and what remains is the collection without it. *)
Lemma first_match_keyed (id : string) (docs : list obj) :
  keyed docs ->
  (first_match [("_id", VStr id)] docs = Some None
   /\ filter (fun d => negb (has_id id d)) docs = docs)
  \/ (exists before d after,
        first_match [("_id", VStr id)] docs = Some (Some (before, d, after))
        /\ docs = before ++ d :: after
        /\ has_id id d = true
        /\ filter (fun d => negb (has_id id d)) docs = before ++ after
        /\ ~ In (VStr id) (map doc_id (before ++ after))).
Proof.
  induction docs as [|d docs IH]; intros K.
  - left. split; reflexivity.
  - pose proof K as [N F]. inversion N as [|? ? Nd Nr]; subst.
    inversion F as [|? ? A Fr]; subst.
    cbn [first_match filter]. rewrite matches_by_id by exact A.
    destruct (has_id id d) eqn:H; cbn [negb].
    + assert (Hn : ~ In (VStr id) (map doc_id docs)).
      { apply value_eqb_str in H. now rewrite <- H. }
      right. exists [], d, docs. cbn [app map].
      split; [reflexivity|]. split; [reflexivity|]. split; [exact H|].
      split; [|exact Hn]. f_equal.
      clear - Hn. induction docs as [|x docs IH]; [reflexivity|].
      cbn [filter]. destruct (has_id id x) eqn:Hx.
      * exfalso. apply Hn. left. now apply value_eqb_str in Hx.
      * cbn [negb]. f_equal. apply IH. intros I. apply Hn. now right.
    + destruct (IH (keyed_tail _ _ K)) as [[E Fl]|(before & m & after & E & D & Hm & Fl & Nn)].
      * left. rewrite E, Fl. split; reflexivity.
      * right. exists (d :: before), m, after. rewrite E, Fl. cbn [app map].
        split; [reflexivity|]. split; [now rewrite D|]. split; [exact Hm|].
        split; [reflexivity|].
        intros [I|I]; [|now apply Nn].
        unfold has_id in H. rewrite I in H. cbn in H.
        now rewrite String.eqb_refl in H.
Qed.

Lemma obj_get_doc_set_same (k : string) (v : value) (d : obj) :
  obj_get k (doc_set k v d) = Some v.
Proof.
  unfold doc_set. destruct (obj_has k d) eqn:H.
  - now apply obj_get_replace_same.
  - rewrite obj_get_app. unfold obj_has in H.
    destruct (obj_get k d); [discriminate|]. apply obj_get_here.
Qed.

Lemma obj_get_doc_set_other (k k' : string) (v : value) (d : obj) :
  String.eqb k' k = false -> obj_get k' (doc_set k v d) = obj_get k' d.
Proof.
  intros N. unfold doc_set. destruct (obj_has k d).
  - now apply obj_get_replace_other.
  - rewrite obj_get_app. destruct (obj_get k' d); [reflexivity|].
    now apply obj_get_next.
Qed.

Lemma path_of_marker (mixin : string) :
  path_of (mixin ++ "." ++ "__mixin") = path_of mixin ++ ["__mixin"].
Proof. unfold path_of. cbn [append]. now rewrite split_app. Qed.

(** A successful write below a path leaves a value at the path. *)
Lemma set_path_found (p : path) (f : string) (v : value) :
  p <> [] ->
  forall d d1, set_path (p ++ [f]) v d = Some (Ok d1) ->
  exists x, get_path p (VObj d1) = Some (Found x).
Proof.
  induction p as [|h p IH]; [congruence|]. intros _ d d1.
  cbn [app set_path]. destruct (valid_field h); cbn [negb]; [|discriminate].
  destruct p as [|h' p].
  - cbn [app]. destruct (obj_get h d) as [[]|] eqn:G; try discriminate.
    + destruct (set_path [f] v props) as [[sub|]|]; try discriminate.
      intros E. injection E as <-. exists (VObj sub).
      cbn [get_path]. now rewrite obj_get_doc_set_same.
    + destruct (set_path [f] v []) as [[sub|]|]; try discriminate.
      intros E. injection E as <-. exists (VObj sub).
      cbn [get_path]. now rewrite obj_get_doc_set_same.
  - assert (Hne : h' :: p <> []) by discriminate.
    specialize (IH Hne). cbn [app] in *.
    destruct (obj_get h d) as [[]|] eqn:G; try discriminate.
    + destruct (set_path (h' :: p ++ [f]) v props) as [[sub|]|] eqn:S; try discriminate.
      intros E. injection E as <-. destruct (IH _ _ S) as [x Hx]. exists x.
      cbn [get_path] in *. now rewrite obj_get_doc_set_same.
    + destruct (set_path (h' :: p ++ [f]) v []) as [[sub|]|] eqn:S; try discriminate.
      intros E. injection E as <-. destruct (IH _ _ S) as [x Hx]. exists x.
      cbn [get_path] in *. now rewrite obj_get_doc_set_same.
Qed.

Lemma set_path_head_valid (h : string) (p : path) (v : value) (d d1 : obj) :
  set_path (h :: p) v d = Some (Ok d1) -> valid_field h = true.
Proof. cbn [set_path]. destruct (valid_field h); [reflexivity | discriminate]. Qed.

(** Writing a top-level field leaves the paths under other fields alone. *)
Lemma get_path_set_field (g h : string) (p : path) (v : value) (d d1 : obj) :
  String.eqb h g = false ->
  set_path [g] v d = Some (Ok d1) ->
  get_path (h :: p) (VObj d1) = get_path (h :: p) (VObj d).
Proof.
  intros N. cbn [set_path]. destruct (valid_field g); cbn [negb]; [|discriminate].
  intros E. injection E as <-. cbn [get_path]. now rewrite obj_get_doc_set_other.
Qed.

Lemma conflict_field (g h : string) (p : path) :
  conflict (h :: p) [g] = false -> String.eqb g h = false.
Proof.
  unfold conflict. intros C. apply orb_false_iff in C as [_ C].
  cbn [is_prefix] in C. now rewrite andb_true_r in C.
Qed.

Lemma Forall_firstn {A : Type} (P : A -> Prop) (n : nat) (l : list A) :
  Forall P l -> Forall P (firstn n l).
Proof.
  revert l. induction n as [|n IH]; intros l F; cbn [firstn]; [constructor|].
  destruct F; constructor; auto.
Qed.

Lemma stages_app (db : database) (p q : list value) (rows : list obj) :
  stages db (p ++ q) rows =
  match stages db p rows with
  | Some rows' => stages db q rows'
  | None => None
  end.
Proof.
  revert rows. induction p as [|st p IH]; intros rows; cbn [app stages]; [reflexivity|].
  destruct (stage db st rows); [apply IH | reflexivity].
Qed.

(** A name without a dot is its own path. *)
Lemma split_single (s f : string) : split "." s = [f] -> f = s.
Proof.
  revert f. induction s as [|c s IH]; intros f; cbn [split].
  - now intros [= <-].
  - destruct (Ascii.eqb c ".").
    + destruct (split_cons "." s) as [h [t E]]. rewrite E. discriminate.
    + destruct (split_cons "." s) as [h [t E]]. rewrite E in *.
      intros [= <- ->]. now rewrite (IH h eq_refl).
Qed.

(** The join stage leaves an array under its key and keeps the arrays
    that earlier join stages left. *)
Lemma join_row_array (foreign : list obj) (localField foreignField as_ : string) (row row' : obj) :
  join_row foreign localField foreignField as_ row = Some row' ->
  (exists arr, obj_get as_ row' = Some (VArr arr))
  /\ forall k, (exists arr, obj_get k row = Some (VArr arr)) ->
               exists arr, obj_get k row' = Some (VArr arr).
Proof.
  unfold join_row.
  destruct (get_path (path_of localField) (VObj row)) as [local|]; [|discriminate].
  destruct (match local with Found (VArr _) => true | _ => false end) eqn:A.
  { destruct local as [[]|]; discriminate. }
  assert (E : forall (X : option obj),
            match local with
            | Found (VArr _) => None
            | _ => X
            end = X).
  { intros X. destruct local as [[]|]; try reflexivity. discriminate A. }
  rewrite E. clear E A.
  destruct (select _ foreign) as [joined|]; [|discriminate].
  unfold path_of. destruct (split "." as_) as [|f [|]] eqn:S; try discriminate.
  apply split_single in S. subst f.
  destruct (valid_field as_); [|discriminate].
  intros [= <-]. split.
  - eexists. apply obj_get_doc_set_same.
  - intros k [arr G]. destruct (String.eqb k as_) eqn:K.
    + apply String.eqb_eq in K. subst k. eexists. apply obj_get_doc_set_same.
    + exists arr. now rewrite obj_get_doc_set_other.
Qed.

Lemma join_rows_array (foreign : list obj) (localField foreignField as_ : string) (rows rows' : list obj) :
  join_rows foreign localField foreignField as_ rows = Some rows' ->
  Forall (fun row' => exists arr, obj_get as_ row' = Some (VArr arr)) rows'
  /\ forall k, Forall (fun row => exists arr, obj_get k row = Some (VArr arr)) rows ->
               Forall (fun row' => exists arr, obj_get k row' = Some (VArr arr)) rows'.
Proof.
  revert rows'. induction rows as [|row rows IH]; intros rows'; cbn [join_rows].
  - intros [= <-]. split; [constructor | intros; constructor].
  - destruct (join_row foreign localField foreignField as_ row) as [r|] eqn:J; [|discriminate].
    destruct (join_rows foreign localField foreignField as_ rows) as [l|]; [|discriminate].
    intros [= <-]. destruct (join_row_array _ _ _ _ _ _ J) as [Hr Hk].
    destruct (IH l eq_refl) as [Hl Hkl]. split.
    + now constructor.
    + intros k F. inversion F; subst. constructor; [now apply Hk | now apply Hkl].
Qed.

End MongoFacts.

(** ** The mutation translator *)

Section Mutations.
Import JS Driver Storage Props JSFacts MongoFacts.
Context {core : Core}.
Variable this : MongoAdapterBase.

Lemma modified_eq (modifiedBy : Ref) (modifiedOn : Z) :
  modified modifiedBy modifiedOn =
  [("modifiedBy", VStr modifiedBy); ("modifiedOn", VNum modifiedOn)].
Proof. reflexivity. Qed.

Lemma stamped_set (modifiedBy : Ref) (modifiedOn : Z) (o : obj) :
  stamped modifiedBy modifiedOn
    (obj_set "$set" (VObj (modified modifiedBy modifiedOn)) o) = true.
Proof.
  unfold stamped. rewrite obj_get_set_same, modified_eq. cbn.
  now rewrite String.eqb_refl, Z.eqb_refl.
Qed.

Lemma stamped_spread (modifiedBy : Ref) (modifiedOn : Z) (o : obj) :
  stamped modifiedBy modifiedOn
    (obj_lit [("$set", VObj (obj_spread o (modified modifiedBy modifiedOn)))]) = true.
Proof.
  rewrite obj_lit_single. unfold stamped. cbn [obj_get String.eqb Ascii.eqb Bool.eqb].
  unfold obj_spread. rewrite modified_eq. cbn [fold_left fst snd].
  rewrite obj_get_set_same, obj_get_set_other by reflexivity.
  rewrite obj_get_set_same. cbn.
  now rewrite String.eqb_refl, Z.eqb_refl.
Qed.

Ltac literal := unfold obj_lit, obj_spread; cbn [fold_left fst snd].
Ltac getset :=
  repeat first [ rewrite obj_get_set_same
               | rewrite obj_get_set_other by reflexivity ].

(** Both writes of a reposition carry the stamp in the second. *)
Lemma move_ops_stamped (objectId modifiedBy : Ref) (modifiedOn : Z) (arr : string) (desc : value) (ops : list value) :
  move_ops objectId modifiedBy modifiedOn arr desc = Ok ops ->
  existsb (stamped_op modifiedBy modifiedOn) ops = true.
Proof.
  unfold move_ops.
  destruct (get_prop desc "$value") as [x|]; [|discriminate].
  destruct (get_prop desc "$position") as [y|]; [|discriminate].
  cbn [rbind]. intros E. injection E as <-.
  cbn [existsb]. apply orb_true_iff. right. apply orb_true_iff. left.
  unfold stamped_op, get_prop_opt, get_prop.
  rewrite obj_lit_single. cbn [obj_get String.eqb Ascii.eqb Bool.eqb or_undefined].
  literal. getset. cbn [or_undefined].
  unfold stamped. getset. rewrite modified_eq. cbn.
  now rewrite String.eqb_refl, Z.eqb_refl.
Qed.

Lemma get_prop_throws (v : value) (k : string) (e : error) :
  get_prop v k = Err e -> exists m, e = TypeError m.
Proof.
  destruct v as [| | | | | | |p o]; cbn [get_prop]; try discriminate;
    try (intros E; injection E as <-; eauto);
    try (destruct (obj_get k o); [|destruct (_ && _)]; discriminate);
    destruct (index_of_string k); try discriminate;
    destruct (String.eqb k "length"); discriminate.
Qed.

Lemma keys_throws (v : value) (e : error) :
  keys v = Err e -> exists m, e = TypeError m.
Proof.
  destruct v; cbn; try discriminate; intros E; injection E as <-; eauto.
Qed.

Lemma move_ops_throws (objectId modifiedBy : Ref) (modifiedOn : Z) (arr : string) (desc : value) (e : error) :
  move_ops objectId modifiedBy modifiedOn arr desc = Err e -> exists m, e = TypeError m.
Proof.
  unfold move_ops.
  destruct (get_prop desc "$value") eqn:V; cbn [rbind].
  - destruct (get_prop desc "$position") eqn:P; cbn [rbind]; [discriminate|].
    intros E. injection E as <-. eapply get_prop_throws; eassumption.
  - intros E. injection E as <-. eapply get_prop_throws; eassumption.
Qed.

(** The reposition branch, whatever the array field is called: it throws
    or it issues a stamped batch. *)
Lemma move_stamps (domain : string) (objectId modifiedBy : Ref) (modifiedOn : Z) (name : option string -> string) (keyval : value) :
  let p := lift (keys keyval) (fun ks =>
           let arr := name (first_key ks) in
           lift (get_prop keyval arr) (fun desc =>
           lift (move_ops objectId modifiedBy modifiedOn arr desc) (fun ops =>
           await (bulkWrite domain ops) resolve))) in
  issues_stamped modifiedBy modifiedOn p = Some true \/ throws p = true.
Proof.
  cbv zeta.
  destruct (keys keyval) as [ks|e] eqn:K; cbn [lift].
  2:{ right. apply keys_throws in K as [m ->]. reflexivity. }
  destruct (get_prop keyval (name (first_key ks))) as [desc|e] eqn:G; cbn [lift].
  2:{ right. apply get_prop_throws in G as [m ->]. reflexivity. }
  destruct (move_ops objectId modifiedBy modifiedOn (name (first_key ks)) desc)
    as [ops|e] eqn:M; cbn [lift].
  2:{ right. apply move_ops_throws in M as [m ->]. reflexivity. }
  left. cbn [issues_stamped stamped_call]. f_equal.
  eapply move_ops_stamped; eassumption.
Qed.

(** Every write [txUpdateDoc] issues carries the stamp. *)
Lemma txUpdateDoc_stamps (tx : TxUpdateDoc.t) :
  issues_stamped (TxUpdateDoc.modifiedBy tx) (TxUpdateDoc.modifiedOn tx) (txUpdateDoc this tx) = Some true
  \/ throws (txUpdateDoc this tx) = true.
Proof.
  unfold txUpdateDoc.
  destruct (isOperator (TxUpdateDoc.operations tx)).
  - destruct (match first_key (map fst (TxUpdateDoc.operations tx)) with
              | Some k => String.eqb k "$move" | None => false end).
    + apply (move_stamps _ _ _ _ key_string).
    + left. destruct (TxUpdateDoc.retrieve tx) as [[|]|];
        cbn [issues_stamped stamped_call]; f_equal; apply stamped_set.
  - left. destruct (TxUpdateDoc.retrieve tx) as [[|]|];
      cbn [issues_stamped stamped_call]; f_equal; apply stamped_spread.
Qed.

Lemma mixin_entries_throws (rec : value -> result obj) (mixin : Ref) (es : obj) :
  Forall (fun kv => forall e, rec (snd kv) = Err e -> exists m, e = TypeError m) es ->
  forall attrs count e,
    mixin_entries rec mixin es attrs count = Err e -> exists m, e = TypeError m.
Proof.
  induction 1 as [|[k v] es Hv _ IH]; intros attrs count e; cbn [mixin_entries].
  - discriminate.
  - destruct (startsWith k "$").
    + destruct (rec v) as [sub|e'] eqn:R; cbn [rbind].
      * apply IH.
      * intros E. injection E as <-. now apply Hv.
    + apply IH.
Qed.

(** [translateMixinAttrs] fails only as the language does. *)
Lemma translateMixinAttrs_throws (mixin : Ref) (attributes : value) (e : error) :
  translateMixinAttrs mixin attributes = Err e -> exists m, e = TypeError m.
Proof.
  revert e. induction attributes as [| | | | | l _ | es IH | p es _ IH] using value_ind;
    intros e; cbn [translateMixinAttrs entries rbind];
    try (intros E; injection E as <-; eauto; fail).
  - cbn [mixin_entries]. discriminate.
  - cbn [mixin_entries]. discriminate.
  - destruct (mixin_entries _ mixin (indexed VStr 0 (chars s)) [] 0) eqn:M; cbn [rbind];
      [discriminate|].
    intros E. injection E as <-. eapply mixin_entries_throws; [|exact M].
    apply Forall_forall. discriminate.
  - destruct (mixin_entries _ mixin (indexed (fun x => x) 0 l) [] 0) eqn:M; cbn [rbind];
      [discriminate|].
    intros E. injection E as <-. eapply mixin_entries_throws; [|exact M].
    apply Forall_forall. discriminate.
  - destruct (mixin_entries (translateMixinAttrs mixin) mixin es [] 0) eqn:M; cbn [rbind];
      [discriminate|].
    intros E. injection E as <-. eapply mixin_entries_throws; [|exact M].
    exact IH.
  - destruct (mixin_entries (translateMixinAttrs mixin) mixin es [] 0) eqn:M; cbn [rbind];
      [discriminate|].
    intros E. injection E as <-. eapply mixin_entries_throws; [|exact M].
    exact IH.
Qed.

(** Every write [txMixin] issues carries the stamp. *)
Lemma txMixin_stamps (tx : TxMixin.t) :
  issues_stamped (TxMixin.modifiedBy tx) (TxMixin.modifiedOn tx) (txMixin this tx) = Some true
  \/ throws (txMixin this tx) = true.
Proof.
  unfold txMixin.
  destruct (isOperator (TxMixin.attributes tx)).
  - destruct (match first_key (map fst (TxMixin.attributes tx)) with
              | Some k => String.eqb k "$move" | None => false end).
    + apply (move_stamps _ _ _ _
               (fun k => (TxMixin.mixin tx ++ "." ++ key_string k)%string)).
    + destruct (translateMixinAttrs (TxMixin.mixin tx) (VObj (TxMixin.attributes tx)))
        as [attrs|e] eqn:T; cbn [lift].
      * left. cbn [issues_stamped stamped_call]. f_equal. apply stamped_set.
      * right. apply translateMixinAttrs_throws in T as [m ->]. reflexivity.
  - destruct (translateMixinAttrs (TxMixin.mixin tx) (VObj (TxMixin.attributes tx)))
      as [attrs|e] eqn:T; cbn [lift].
    + left. cbn [issues_stamped stamped_call]. f_equal. apply stamped_spread.
    + right. apply translateMixinAttrs_throws in T as [m ->]. reflexivity.
Qed.

(** C2. A PutBag transaction is written as a single [$set] of the field
    [<bag>.<key>]: the update [txPutBag] issues sets neither [modifiedBy] nor
    [modifiedOn], where [txUpdateDoc] and [txMixin] set both
    ([txUpdateDoc_stamps], [txMixin_stamps]). *)
Theorem txPutBag_omits_modified (tx : TxPutBag.t) :
  txPutBag this tx =
    await (updateOne (getDomain (hierarchy this) (TxPutBag.objectClass tx))
             [("_id", VStr (TxPutBag.objectId tx))]
             [("$set", VObj [((TxPutBag.bag tx ++ "." ++ TxPutBag.key tx)%string,
                              TxPutBag.value tx)])])
          (fun _ => resolve (VObj []))
  /\ issues_stamped (TxPutBag.modifiedBy tx) (TxPutBag.modifiedOn tx) (txPutBag this tx)
     = Some false.
Proof.
  assert (E : txPutBag this tx =
    await (updateOne (getDomain (hierarchy this) (TxPutBag.objectClass tx))
             [("_id", VStr (TxPutBag.objectId tx))]
             [("$set", VObj [((TxPutBag.bag tx ++ "." ++ TxPutBag.key tx)%string,
                              TxPutBag.value tx)])])
          (fun _ => resolve (VObj []))).
  { unfold txPutBag, by_id. now rewrite !obj_lit_single. }
  split; [exact E|]. rewrite E.
  cbn [issues_stamped stamped_call]. f_equal.
  unfold stamped. rewrite obj_get_here.
  rewrite obj_get_next
    by exact (eqb_false_sym _ _ (dotted_neq (TxPutBag.bag tx) (TxPutBag.key tx) "modifiedBy" eq_refl)).
  reflexivity.
Qed.

(** C3. A MixinUpdate whose payload is the reposition operator naming one
    field never reaches the store: the descriptor is looked up under the
    namespaced name [<mixin>.<field>] in a map that is keyed by the bare
    field name, and reading [$value] of the missing descriptor throws. *)
Theorem txMixin_move_throws (tx : TxMixin.t) (f : string) (desc : value) :
  TxMixin.attributes tx = [("$move", VObj [(f, desc)])] ->
  isOperator (TxMixin.attributes tx) = true ->
  txMixin this tx = reject (TypeError "Cannot read properties of undefined or null").
Proof.
  intros A O. unfold txMixin. rewrite O, A.
  cbn [map fst first_key hd_error obj_get or_undefined keys entries rbind lift
       key_string get_prop].
  replace (String.eqb "$move" "$move") with true by reflexivity.
  cbn [lift obj_get or_undefined].
  unfold keys, entries. cbn [rbind map fst lift first_key hd_error key_string].
  unfold get_prop at 1. rewrite obj_get_next by apply prefixed_neq.
  reflexivity.
Qed.

(** C10. The dispatch looks at the first key of an operator map and at
    nothing else. With [$move] first, an UpdateDoc and a MixinUpdate are
    the reposition built from the payload of that key alone: neither the
    keys after it nor the [retrieve] flag occur in the program, so they are
    not written. With any other key first, both take the generic path with
    the whole map, also where [$move] is one of the later keys. *)
Theorem dispatch_on_first_key (objectId objectClass modifiedBy mixin : Ref) (modifiedOn : Z)
    (first : string) (payload : value) (rest : obj) (retrieve : option bool) :
  isOperator ((first, payload) :: rest) = true ->
  (first = "$move" ->
   txUpdateDoc this
     {| TxUpdateDoc.objectId := objectId; TxUpdateDoc.objectClass := objectClass;
        TxUpdateDoc.modifiedBy := modifiedBy; TxUpdateDoc.modifiedOn := modifiedOn;
        TxUpdateDoc.operations := (first, payload) :: rest;
        TxUpdateDoc.retrieve := retrieve |}
   = lift (keys payload) (fun ks =>
     lift (get_prop payload (key_string (first_key ks))) (fun desc =>
     lift (move_ops objectId modifiedBy modifiedOn (key_string (first_key ks)) desc)
       (fun ops =>
     await (bulkWrite (getDomain (hierarchy this) objectClass) ops) resolve)))
   /\ txMixin this
     {| TxMixin.objectId := objectId; TxMixin.objectClass := objectClass;
        TxMixin.modifiedBy := modifiedBy; TxMixin.modifiedOn := modifiedOn;
        TxMixin.mixin := mixin; TxMixin.attributes := (first, payload) :: rest |}
   = lift (keys payload) (fun ks =>
     lift (get_prop payload (mixin ++ "." ++ key_string (first_key ks))) (fun desc =>
     lift (move_ops objectId modifiedBy modifiedOn
             (mixin ++ "." ++ key_string (first_key ks)) desc) (fun ops =>
     await (bulkWrite (getDomain (hierarchy this) objectClass) ops) resolve))))
  /\ (first <> "$move" ->
      txUpdateDoc this
        {| TxUpdateDoc.objectId := objectId; TxUpdateDoc.objectClass := objectClass;
           TxUpdateDoc.modifiedBy := modifiedBy; TxUpdateDoc.modifiedOn := modifiedOn;
           TxUpdateDoc.operations := (first, payload) :: rest;
           TxUpdateDoc.retrieve := retrieve |}
      = match retrieve with
        | Some true =>
            await (findOneAndUpdate (getDomain (hierarchy this) objectClass)
                     [("_id", VStr objectId)]
                     (obj_set "$set" (VObj (modified modifiedBy modifiedOn))
                        (obj_spread [] ((first, payload) :: rest)))
                     [("returnDocument", VStr "after")])
                  retrieved
        | _ =>
            await (updateOne (getDomain (hierarchy this) objectClass)
                     [("_id", VStr objectId)]
                     (obj_set "$set" (VObj (modified modifiedBy modifiedOn))
                        (obj_spread [] ((first, payload) :: rest))))
                  resolve
        end
      /\ txMixin this
        {| TxMixin.objectId := objectId; TxMixin.objectClass := objectClass;
           TxMixin.modifiedBy := modifiedBy; TxMixin.modifiedOn := modifiedOn;
           TxMixin.mixin := mixin; TxMixin.attributes := (first, payload) :: rest |}
      = lift (translateMixinAttrs mixin (VObj ((first, payload) :: rest))) (fun attrs =>
        await (updateOne (getDomain (hierarchy this) objectClass)
                 [("_id", VStr objectId)]
                 (obj_set "$set" (VObj (modified modifiedBy modifiedOn))
                    (obj_spread [] attrs)))
              resolve)).
Proof.
  intros O. split.
  - intros ->. split.
    + unfold txUpdateDoc. cbn [TxUpdateDoc.operations TxUpdateDoc.objectId
        TxUpdateDoc.objectClass TxUpdateDoc.modifiedBy TxUpdateDoc.modifiedOn].
      rewrite O. cbn [map fst first_key hd_error].
      rewrite !obj_get_here. reflexivity.
    + unfold txMixin. cbn [TxMixin.attributes TxMixin.objectId TxMixin.mixin
        TxMixin.objectClass TxMixin.modifiedBy TxMixin.modifiedOn].
      rewrite O. cbn [map fst first_key hd_error].
      rewrite !obj_get_here. reflexivity.
  - intros N. apply String.eqb_neq in N. split.
    + unfold txUpdateDoc. cbn [TxUpdateDoc.operations TxUpdateDoc.objectId
        TxUpdateDoc.objectClass TxUpdateDoc.modifiedBy TxUpdateDoc.modifiedOn
        TxUpdateDoc.retrieve].
      rewrite O. cbn [map fst first_key hd_error]. rewrite N.
      unfold by_id. rewrite obj_lit_single.
      destruct retrieve as [[|]|]; reflexivity.
    + unfold txMixin. cbn [TxMixin.attributes TxMixin.objectId TxMixin.mixin
        TxMixin.objectClass TxMixin.modifiedBy TxMixin.modifiedOn].
      rewrite O. cbn [map fst first_key hd_error]. rewrite N.
      unfold by_id. now rewrite obj_lit_single.
Qed.

(** C8. A RemoveDoc transaction is one delete by identifier, and its result
    is the empty success whatever the store answers. Run against a store
    whose collection is keyed, it succeeds whether or not the identifier is
    there and leaves the collection without that document; run again, it
    succeeds again and the store stays as the first run left it. *)
Theorem txRemoveDoc_idempotent (tx : TxRemoveDoc.t) (db : Mongo.database) :
  Mongo.keyed (db (getDomain (hierarchy this) (TxRemoveDoc.objectClass tx))) ->
  txRemoveDoc this tx =
    await (deleteOne (getDomain (hierarchy this) (TxRemoveDoc.objectClass tx))
             [("_id", VStr (TxRemoveDoc.objectId tx))])
          (fun _ => resolve (VObj []))
  /\ exists db1,
       Mongo.run (txRemoveDoc this tx) db = Some (Ok (VObj []), db1)
       /\ db1 (getDomain (hierarchy this) (TxRemoveDoc.objectClass tx)) =
            filter (fun d => negb (Mongo.has_id (TxRemoveDoc.objectId tx) d))
              (db (getDomain (hierarchy this) (TxRemoveDoc.objectClass tx)))
       /\ (forall c,
             String.eqb c (getDomain (hierarchy this) (TxRemoveDoc.objectClass tx)) = false ->
             db1 c = db c)
       /\ Mongo.run (txRemoveDoc this tx) db1 = Some (Ok (VObj []), db1).
Proof.
  intros K.
  assert (E : txRemoveDoc this tx =
    await (deleteOne (getDomain (hierarchy this) (TxRemoveDoc.objectClass tx))
             [("_id", VStr (TxRemoveDoc.objectId tx))])
          (fun _ => resolve (VObj []))).
  { unfold txRemoveDoc, by_id. now rewrite obj_lit_single. }
  split; [exact E|]. rewrite E. clear E.
  set (domain := getDomain (hierarchy this) (TxRemoveDoc.objectClass tx)) in *.
  set (id := TxRemoveDoc.objectId tx).
  destruct (first_match_keyed id (db domain) K)
    as [[M F]|(before & d & after & M & D & H & F & N)].
  - exists db. cbn [Mongo.run Mongo.exec]. rewrite M. cbn [Mongo.run].
    repeat split; auto.
  - exists (Mongo.store db domain (before ++ after)).
    cbn [Mongo.run Mongo.exec]. rewrite M. cbn [Mongo.run].
    split; [reflexivity|]. unfold Mongo.store at 1 2.
    rewrite String.eqb_refl. split; [now rewrite F|].
    split; [intros c Hc; now rewrite Hc|].
    unfold Mongo.store at 1. rewrite String.eqb_refl.
    rewrite first_match_absent; [reflexivity| |exact N].
    destruct K as [_ Fa]. rewrite D in Fa.
    apply Forall_app in Fa as [Fb Fc]. apply Forall_app. split; [exact Fb|].
    now inversion Fc.
Qed.

Lemma retrieved_value (doc : value) (n : nat) :
  retrieved (Mongo.ModifyResult doc n) = resolve (VObj [("object", doc)]).
Proof. reflexivity. Qed.

(** C5. An UpdateDoc with [retrieve] set that is not a reposition is one
    [findOneAndUpdate] by identifier that asks for the document after the
    update, and its result carries what the store returns as [value]: run
    against the store, the updated document when one has the identifier,
    and [null] without an error when none has. *)
Theorem txUpdateDoc_retrieve (tx : TxUpdateDoc.t) :
  TxUpdateDoc.retrieve tx = Some true ->
  is_reposition (TxUpdateDoc.operations tx) = false ->
    txUpdateDoc this tx =
      await (findOneAndUpdate (getDomain (hierarchy this) (TxUpdateDoc.objectClass tx))
               [("_id", VStr (TxUpdateDoc.objectId tx))] (updateDoc_update tx)
               [("returnDocument", VStr "after")])
            retrieved
    /\ (forall result, retrieved result =
          lift (get_prop result "value") (fun v => resolve (VObj [("object", v)])))
    /\ forall db : Mongo.database,
         (forall before d after d',
            Mongo.first_match [("_id", VStr (TxUpdateDoc.objectId tx))]
              (db (getDomain (hierarchy this) (TxUpdateDoc.objectClass tx)))
              = Some (Some (before, d, after)) ->
            Mongo.apply_update (updateDoc_update tx) d = Some (Ok d') ->
            Mongo.run (txUpdateDoc this tx) db =
              Some (Ok (VObj [("object", VObj d')]),
                    Mongo.store db (getDomain (hierarchy this) (TxUpdateDoc.objectClass tx))
                      (before ++ d' :: after)))
         /\ (Mongo.first_match [("_id", VStr (TxUpdateDoc.objectId tx))]
               (db (getDomain (hierarchy this) (TxUpdateDoc.objectClass tx)))
               = Some None ->
             Mongo.check_update (updateDoc_update tx) = Some (Ok tt) ->
             Mongo.run (txUpdateDoc this tx) db = Some (Ok (VObj [("object", VNull)]), db)).
Proof.
  intros R N.
  assert (E : txUpdateDoc this tx =
      await (findOneAndUpdate (getDomain (hierarchy this) (TxUpdateDoc.objectClass tx))
               [("_id", VStr (TxUpdateDoc.objectId tx))] (updateDoc_update tx)
               [("returnDocument", VStr "after")])
            retrieved).
  { unfold txUpdateDoc, updateDoc_update, is_reposition in *. rewrite R.
    destruct (isOperator (TxUpdateDoc.operations tx)); cbn [andb] in N.
    - rewrite N. unfold by_id. rewrite obj_lit_single. reflexivity.
    - unfold by_id. rewrite !obj_lit_single. reflexivity. }
  split; [exact E|]. split.
  { intros result. reflexivity. }
  intros db. rewrite E. cbn [Mongo.run Mongo.exec].
  change (String.eqb "after" "after") with true. cbn [orb].
  unfold Mongo.update_first. split.
  - intros before d after d' M A. unfold Mongo.apply_update in A.
    destruct (Mongo.check_update (updateDoc_update tx)) as [[[]|e]|]; try discriminate.
    rewrite M, A. cbn [Mongo.run]. now rewrite retrieved_value.
  - intros M C. rewrite C, M. cbn [Mongo.run]. now rewrite retrieved_value.
Qed.

(** Once the store has applied the update of an attribute-less mixin
    transaction to a document, the facet key is there. *)
Lemma marker_exists (mixin modifiedBy : Ref) (modifiedOn : Z) (d d' : obj) :
  Mongo.apply_update (marker_update mixin modifiedBy modifiedOn) d = Some (Ok d') ->
  Mongo.matches (has_facet mixin) d' = Some true.
Proof.
  unfold Mongo.apply_update, marker_update.
  destruct (Mongo.check_update _) as [[[]|]|] eqn:C; try discriminate.
  unfold Mongo.check_update in C.
  cbn [Mongo.check_operators Mongo.update_paths map fst app] in C.
  change (startsWith "$set" "$") with true in C.
  change (Mongo.apply_operator "$set") with (Some Mongo.set_path) in C.
  cbn [negb] in C.
  destruct (Mongo.writes_id _); [discriminate|].
  destruct (Mongo.conflicts _) eqn:Cf; [discriminate|]. clear C.
  cbn [Mongo.apply_operators].
  change (Mongo.apply_operator "$set") with (Some Mongo.set_path).
  cbn [Mongo.apply_fields].
  rewrite path_of_marker in *.
  change (Mongo.path_of "modifiedBy") with ["modifiedBy"] in *.
  change (Mongo.path_of "modifiedOn") with ["modifiedOn"] in *.
  destruct (split_cons "." mixin) as [h [t Hs]].
  unfold Mongo.path_of in *. rewrite Hs in *.
  destruct (Mongo.set_path ((h :: t) ++ ["__mixin"]) (VStr "true") d)
    as [[d1|]|] eqn:S1; try discriminate.
  destruct (Mongo.set_path ["modifiedBy"] (VStr modifiedBy) d1)
    as [[d2|]|] eqn:S2; try discriminate.
  destruct (Mongo.set_path ["modifiedOn"] (VNum modifiedOn) d2)
    as [[d3|]|] eqn:S3; try discriminate.
  intros E. injection E as <-.
  cbn [Mongo.conflicts existsb Mongo.conflict Mongo.is_prefix app] in Cf.
  apply orb_false_iff in Cf as [Cf _].
  apply orb_false_iff in Cf as [C1 C2].
  apply orb_false_iff in C2 as [C2 _].
  apply conflict_field in C1, C2.
  destruct (set_path_found (h :: t) "__mixin" (VStr "true") ltac:(discriminate) _ _ S1)
    as [x Hx].
  pose proof (set_path_head_valid _ _ _ _ _ S1) as V.
  unfold has_facet. cbn [Mongo.matches].
  rewrite (split_head_dollar _ _ _ Hs).
  unfold Mongo.valid_field in V. apply andb_true_iff in V as [_ V].
  apply negb_true_iff in V. rewrite V.
  unfold Mongo.path_of. rewrite Hs.
  rewrite (get_path_set_field _ _ _ _ _ _ (eqb_false_sym _ _ C2) S3).
  rewrite (get_path_set_field _ _ _ _ _ _ (eqb_false_sym _ _ C1) S2).
  rewrite Hx. reflexivity.
Qed.

(** C6. A MixinUpdate without attributes is still one update by
    identifier, and what it sets has the placeholder [<mixin>.__mixin] next
    to the stamp. Run against the store where a document has the
    identifier, a successful run leaves in its place a document on which the
    test for the facet key holds. *)
Theorem txMixin_empty_marks (tx : TxMixin.t) :
  TxMixin.attributes tx = [] ->
  isOperator [] = false ->
  txMixin this tx =
    await (updateOne (getDomain (hierarchy this) (TxMixin.objectClass tx))
             [("_id", VStr (TxMixin.objectId tx))]
             (marker_update (TxMixin.mixin tx) (TxMixin.modifiedBy tx) (TxMixin.modifiedOn tx)))
          resolve
  /\ forall (db db' : Mongo.database) before d after r,
       Mongo.first_match [("_id", VStr (TxMixin.objectId tx))]
         (db (getDomain (hierarchy this) (TxMixin.objectClass tx)))
         = Some (Some (before, d, after)) ->
       Mongo.run (txMixin this tx) db = Some (Ok r, db') ->
       exists d',
         db' (getDomain (hierarchy this) (TxMixin.objectClass tx)) = before ++ d' :: after
         /\ Mongo.matches (has_facet (TxMixin.mixin tx)) d' = Some true.
Proof.
  intros A O.
  assert (E : txMixin this tx =
    await (updateOne (getDomain (hierarchy this) (TxMixin.objectClass tx))
             [("_id", VStr (TxMixin.objectId tx))]
             (marker_update (TxMixin.mixin tx) (TxMixin.modifiedBy tx) (TxMixin.modifiedOn tx)))
          resolve).
  { unfold txMixin, marker_update. rewrite A, O.
    cbn [translateMixinAttrs mixin_entries rbind lift mixin_marker fst snd Nat.eqb].
    rewrite obj_set_nil. unfold by_id. rewrite !obj_lit_single.
    unfold obj_spread. rewrite modified_eq. cbn [fold_left fst snd].
    unfold obj_set at 2. unfold obj_has.
    rewrite obj_get_next
      by exact (eqb_false_sym _ _ (dotted_neq (TxMixin.mixin tx) "__mixin" "modifiedBy" eq_refl)).
    cbn [obj_get]. change (index_of_string "modifiedBy") with (@None N). cbn [app].
    unfold obj_set, obj_has.
    rewrite obj_get_next
      by exact (eqb_false_sym _ _ (dotted_neq (TxMixin.mixin tx) "__mixin" "modifiedOn" eq_refl)).
    reflexivity. }
  split; [exact E|]. rewrite E. clear E.
  intros db db' before d after r M. cbn [Mongo.run Mongo.exec].
  unfold Mongo.update_first. rewrite M.
  destruct (Mongo.check_update _) as [[[]|]|] eqn:C; try discriminate.
  destruct (Mongo.apply_operators _ d) as [[d'|]|] eqn:Ap; try discriminate.
  cbn [Mongo.run]. intros R. injection R as _ <-. exists d'. split.
  - unfold Mongo.store. now rewrite String.eqb_refl.
  - eapply marker_exists. unfold Mongo.apply_update. rewrite C. exact Ap.
Qed.

End Mutations.

(** ** The query translator *)

Section Queries.
Import JS Driver Storage Props JSFacts AssignFacts MongoFacts.
Context {core : Core}.
Variable this : MongoAdapterBase.


(** A value whose first key is not the marker is kept as it is. *)
Lemma translateField_other (v : value) :
  first_is_like v = false -> translateField v = Ok v.
Proof.
  destruct v as [| | | | |l|o|q o]; try reflexivity.
  - intros _. destruct l as [|x l]; reflexivity.
  - destruct o as [|[k x] o]; [reflexivity|].
    cbn [first_is_like]. intros N. unfold translateField.
    cbn [is_null negb typeof_object andb keys entries rbind map fst first_key hd_error].
    now rewrite N.
  - destruct o as [|[k x] o]; [reflexivity|].
    cbn [first_is_like]. intros N. unfold translateField.
    cbn [is_null negb typeof_object andb keys entries rbind map fst first_key hd_error].
    now rewrite N.
Qed.

Lemma translateField_total (v : value) :
  well_patterned v = true -> exists v', translateField v = Ok v'.
Proof.
  destruct (first_is_like v) eqn:F.
  - destruct v as [| | | | | |[|[k x] o]|q [|[k x] o]]; try discriminate F;
      cbn [first_is_like] in F; cbn [well_patterned]; rewrite F;
      apply String.eqb_eq in F; subst k;
      destruct x; try discriminate; intros _; eexists; reflexivity.
  - intros _. exists v. now apply translateField_other.
Qed.

(** The pattern rule keeps or produces a value without a class list where
    the field had none. *)
Lemma translateField_has_in (v v' : value) :
  translateField v = Ok v' -> has_in v = false -> has_in v' = false.
Proof.
  intros T H. destruct (first_is_like v) eqn:F.
  - destruct v as [| | | | | |[|[k x] o]|q [|[k x] o]]; try discriminate F;
      cbn [first_is_like] in F; apply String.eqb_eq in F; subst k;
      unfold translateField in T;
      cbn [is_null negb typeof_object andb keys entries rbind map fst first_key
           hd_error String.eqb Ascii.eqb Bool.eqb] in T;
      unfold get_prop in T; rewrite obj_get_here in T; cbn [or_undefined rbind] in T;
      destruct x; try discriminate T; now injection T as <-.
  - rewrite translateField_other in T by exact F. now injection T as <-.
Qed.

(** The loop assigns to each key of the query the translation of its
    value: every key but [__proto__] is bound to it, and the other keys of
    the accumulator are left alone. Without a key [__proto__] the filter
    stays an object with the prototype it started with. *)
Lemma translateFields_spec (query : obj) :
  forall acc t,
    is_record acc = true ->
    translateFields query acc = Ok t ->
    is_record t = true
    /\ (forall k, ~ In k (map fst query) -> obj_get k (own t) = obj_get k (own acc))
    /\ (NoDup (map fst query) ->
        forall k v, In (k, v) query -> k <> "__proto__" ->
          exists v', translateField v = Ok v' /\ obj_get k (own t) = Some v')
    /\ (~ In "__proto__" (map fst query) ->
        forall o, acc = VObj o -> exists o', t = VObj o').
Proof.
  induction query as [|[k0 v0] query IH]; intros acc t R; cbn [translateFields].
  - intros E. injection E as <-. split; [exact R|]. split; [reflexivity|].
    split; [intros _ k v []|]. intros _ o ->. now exists o.
  - destruct (translateField v0) as [v0'|] eqn:T; cbn [rbind]; [|discriminate].
    intros E.
    destruct (IH _ _ (assign_record k0 v0' acc R) E) as (Rt & Hout & Hin & Hplain).
    split; [exact Rt|]. split; [|split].
    + intros k N. cbn [map fst] in N.
      rewrite Hout by (intros I; apply N; now right).
      apply own_assign_other. apply String.eqb_neq. intros ->. apply N. now left.
    + intros ND k v I Np. cbn [map fst] in ND. inversion ND as [|? ? Nk ND']; subst.
      destruct I as [I|I].
      * injection I as -> ->. exists v0'. split; [exact T|].
        rewrite Hout by exact Nk. now apply own_assign_same.
      * now apply Hin.
    + intros Np o ->. cbn [map fst] in Np.
      apply (Hplain (fun I => Np (or_intror I)) (obj_set k0 v0' o)).
      apply assign_plain. intros ->. apply Np. now left.
Qed.


Lemma translateFields_total (query : obj) :
  Forall (fun kv => well_patterned (snd kv) = true) query ->
  forall acc, exists t, translateFields query acc = Ok t.
Proof.
  induction 1 as [|[k v] query W _ IH]; intros acc; cbn [translateFields].
  - now exists acc.
  - destruct (translateField_total v W) as [v' ->]. cbn [rbind]. apply IH.
Qed.

Lemma translateQuery_steps (clazz : Ref) (query : obj) :
  translateQuery this clazz query =
  let? t0 := translateFields query (VObj []) in
  Ok (with_facet this clazz (with_class this clazz t0)).
Proof. reflexivity. Qed.

Lemma translateQuery_total (clazz : Ref) (query : obj) :
  Forall (fun kv => well_patterned (snd kv) = true) query ->
  exists t0, translateFields query (VObj []) = Ok t0
    /\ translateQuery this clazz query = Ok (with_facet this clazz (with_class this clazz t0)).
Proof.
  intros W. destruct (translateFields_total query W (VObj [])) as [t0 E].
  exists t0. split; [exact E|]. rewrite translateQuery_steps, E. reflexivity.
Qed.


(** After the class step the class field of a filter with the prototype
    of a literal carries a class list: the caller's own, or the descendants
    of the base class. *)
Lemma with_class_spec (clazz : Ref) (o : obj) :
  exists o' c,
    with_class this clazz (VObj o) = VObj o'
    /\ obj_get "_class" o' = Some c
    /\ has_in c = true
    /\ (obj_get "_class" o = None ->
        c = class_in (getDescendants (hierarchy this) (getBaseClass (hierarchy this) clazz))).
Proof.
  unfold with_class. rewrite get_prop_opt_plain.
  destruct (is_undefined (get_prop_opt (or_undefined (obj_get "_class" o)) "$in")) eqn:U.
  - rewrite assign_plain by discriminate. eexists. eexists.
    split; [reflexivity|]. rewrite obj_get_set_same. repeat split.
  - destruct (obj_get "_class" o) as [c|] eqn:G; [|discriminate U].
    exists o, c. cbn [or_undefined] in U. unfold has_in. rewrite U.
    split; [reflexivity|]. split; [exact G|]. split; [reflexivity | discriminate].
Qed.

(** A class field of the filter's own without a class list is replaced. *)
Lemma with_class_overrides (clazz : Ref) (t0 c : value) :
  is_record t0 = true ->
  obj_get "_class" (own t0) = Some c -> has_in c = false ->
  obj_get "_class" (own (with_class this clazz t0)) =
    Some (class_in (getDescendants (hierarchy this) (getBaseClass (hierarchy this) clazz))).
Proof.
  intros R G H. unfold with_class. rewrite (get_prop_opt_own _ _ _ R G).
  unfold has_in in H. apply negb_false_iff in H. rewrite H.
  apply own_assign_same; [exact R | discriminate].
Qed.

Lemma with_facet_other (clazz k : Ref) (t1 : value) :
  k <> clazz ->
  obj_get k (own (with_facet this clazz t1)) = obj_get k (own t1).
Proof.
  intros N. unfold with_facet. destruct (negb _); [|reflexivity].
  apply own_assign_other. now apply String.eqb_neq.
Qed.

(** What does hold of the class field: without one in the query, and
    without a field [__proto__], the descendants of the base class are
    injected. *)
Lemma translateQuery_injects_class (clazz : Ref) (query : obj) :
  ~ In "_class" (map fst query) ->
  ~ In "__proto__" (map fst query) ->
  Forall (fun kv => well_patterned (snd kv) = true) query ->
  clazz <> "_class" ->
  exists t, translateQuery this clazz query = Ok t
    /\ obj_get "_class" (own t) =
       Some (class_in (getDescendants (hierarchy this) (getBaseClass (hierarchy this) clazz))).
Proof.
  intros N Np W Hc. destruct (translateQuery_total clazz query W) as [t0 [E ->]].
  eexists. split; [reflexivity|].
  destruct (translateFields_spec query (VObj []) _ eq_refl E) as (_ & Hout & _ & Hplain).
  specialize (Hout _ N). cbn [own obj_get] in Hout.
  destruct (Hplain Np [] eq_refl) as [o0 ->]. cbn [own] in Hout.
  destruct (with_class_spec clazz o0) as (o' & c & -> & G & _ & Hc').
  rewrite with_facet_other by (intros E'; apply Hc; now symmetry).
  cbn [own]. now rewrite G, (Hc' Hout).
Qed.

(** A class list of the caller's own is kept. *)
Lemma translateQuery_keeps_class_list (clazz : Ref) (query : obj) (v : value) :
  NoDup (map fst query) ->
  In ("_class", v) query -> has_in v = true -> first_is_like v = false ->
  Forall (fun kv => well_patterned (snd kv) = true) query ->
  clazz <> "_class" ->
  exists t, translateQuery this clazz query = Ok t /\ obj_get "_class" (own t) = Some v.
Proof.
  intros ND I H F W Hc. destruct (translateQuery_total clazz query W) as [t0 [E ->]].
  eexists. split; [reflexivity|].
  destruct (translateFields_spec query (VObj []) _ eq_refl E) as (R & _ & Hin & _).
  destruct (Hin ND _ _ I ltac:(discriminate)) as [v' [T G]].
  rewrite translateField_other in T by exact F. injection T as <-.
  rewrite with_facet_other by (intros E'; apply Hc; now symmetry).
  unfold with_class. rewrite (get_prop_opt_own _ _ _ R G).
  unfold has_in in H. apply negb_true_iff in H. now rewrite H.
Qed.

(** C1. A class field that the caller constrains is not left as it is
    unless the constraint carries a class list of its own ([$in], see
    [translateQuery_keeps_class_list]): every other constraint, a plain
    class among them, is replaced by the descendants of the base class, as
    if the caller had given none ([translateQuery_injects_class]). *)
Theorem translateQuery_overrides_class (clazz : Ref) (query : obj) (v : value) :
  NoDup (map fst query) ->
  In ("_class", v) query -> has_in v = false ->
  Forall (fun kv => well_patterned (snd kv) = true) query ->
  clazz <> "_class" ->
  exists t, translateQuery this clazz query = Ok t
    /\ obj_get "_class" (own t) =
       Some (VObj [("$in", VArr (map VStr
               (getDescendants (hierarchy this) (getBaseClass (hierarchy this) clazz))))])
    /\ obj_get "_class" (own t) <> Some v.
Proof.
  intros ND I H W Hc. destruct (translateQuery_total clazz query W) as [t0 [E ->]].
  eexists. split; [reflexivity|].
  destruct (translateFields_spec query (VObj []) _ eq_refl E) as (R & _ & Hin & _).
  destruct (Hin ND _ _ I ltac:(discriminate)) as [v' [T G]].
  pose proof (translateField_has_in _ _ T H) as H'.
  assert (G1 : obj_get "_class" (own (with_facet this clazz (with_class this clazz t0))) =
               Some (class_in (getDescendants (hierarchy this)
                                 (getBaseClass (hierarchy this) clazz)))).
  { rewrite with_facet_other by (intros E'; apply Hc; now symmetry).
    now apply (with_class_overrides clazz t0 v'). }
  split; [exact G1|]. rewrite G1. intros [= <-]. discriminate H.
Qed.



End Queries.

(** ** The result shaper *)

Section Lookups.
Import JS Driver Storage Props JSFacts AssignFacts MongoFacts.
Context {core : Core}.
Variable this : MongoAdapterBase.


Lemma nth_value_first (arr : list value) : nth_value arr 0 = nth 0 arr VUndefined.
Proof. now destruct arr. Qed.

(** The loop over the entries, from any object that agrees with the row
    outside [$lookup] and has a sub-map there. *)
Lemma shape_entries_spec (row : obj) (lookups : list (string * Ref)) :
  NoDup (map fst lookups) -> ~ In "$lookup" (map fst lookups) ->
  ~ In "__proto__" (map fst lookups) ->
  row_ready this lookups row ->
  forall object sub,
    (forall k, k <> "$lookup" -> obj_get k object = obj_get k row) ->
    obj_get "$lookup" object = Some (VObj sub) ->
    exists object' sub',
      shape_entries this lookups object = Ok object'
      /\ (forall k, k <> "$lookup" -> obj_get k object' = obj_get k row)
      /\ obj_get "$lookup" object' = Some (VObj sub')
      /\ (forall k, ~ In k (map fst lookups) -> obj_get k sub' = obj_get k sub)
      /\ forall key clazz, In (key, clazz) lookups ->
           if non_model this clazz
           then forall arr, obj_get (key ++ "_lookup") row = Some (VArr arr) ->
                  obj_get key sub' = Some (nth 0 arr VUndefined)
           else forall found,
                  getObject (modelDb this) (or_undefined (obj_get key row)) = Ok found ->
                  obj_get key sub' = Some found.
Proof.
  induction lookups as [|[key clazz] lookups IH]; intros ND NL NP Rd object sub Hrow Hsub.
  - exists object, sub. cbn [shape_entries]. repeat split; auto. intros ? ? [].
  - cbn [map fst] in ND, NL, NP. inversion ND as [|? ? Nk ND']; subst.
    assert (Hkey : key <> "$lookup") by (intros ->; apply NL; now left).
    assert (Hproto : key <> "__proto__") by (intros ->; apply NP; now left).
    assert (NL' : ~ In "$lookup" (map fst lookups)) by (intros I; apply NL; now right).
    assert (NP' : ~ In "__proto__" (map fst lookups)) by (intros I; apply NP; now right).
    assert (Rd' : row_ready this lookups row)
      by (intros k c I; apply Rd; now right).
    pose proof (Rd key clazz (or_introl eq_refl)) as Rk.
    cbn [shape_entries]. fold (non_model this clazz).
    assert (Step : forall x,
      (if non_model this clazz
       then forall arr, obj_get (key ++ "_lookup") row = Some (VArr arr) ->
              x = nth 0 arr VUndefined
       else forall found,
              getObject (modelDb this) (or_undefined (obj_get key row)) = Ok found ->
              x = found) ->
      exists object' sub',
        shape_entries this lookups
          (obj_set "$lookup" (VObj (obj_set key x sub)) object) = Ok object'
        /\ (forall k, k <> "$lookup" -> obj_get k object' = obj_get k row)
        /\ obj_get "$lookup" object' = Some (VObj sub')
        /\ (forall k, ~ In k (key :: map fst lookups) -> obj_get k sub' = obj_get k sub)
        /\ forall key0 clazz0, In (key0, clazz0) ((key, clazz) :: lookups) ->
             if non_model this clazz0
             then forall arr, obj_get (key0 ++ "_lookup") row = Some (VArr arr) ->
                    obj_get key0 sub' = Some (nth 0 arr VUndefined)
             else forall found,
                    getObject (modelDb this) (or_undefined (obj_get key0 row)) = Ok found ->
                    obj_get key0 sub' = Some found).
    { intros x Hx.
      destruct (IH ND' NL' NP' Rd' (obj_set "$lookup" (VObj (obj_set key x sub)) object)
                  (obj_set key x sub))
        as (object' & sub' & E & Hrow' & Hsub' & Hout & Hin).
      - intros k Hk. rewrite obj_get_set_other by now apply String.eqb_neq.
        now apply Hrow.
      - apply obj_get_set_same.
      - exists object', sub'. split; [exact E|]. split; [exact Hrow'|].
        split; [exact Hsub'|]. split.
        + intros k Nk'. rewrite Hout by (intros I; apply Nk'; now right).
          apply obj_get_set_other. apply String.eqb_neq. intros ->. apply Nk'. now left.
        + intros key0 clazz0 [I|I].
          * injection I as <- <-. rewrite (Hout _ Nk), obj_get_set_same.
            destruct (non_model this clazz).
            -- intros arr Ha. now rewrite (Hx arr Ha).
            -- intros found Hf. now rewrite (Hx found Hf).
          * now apply Hin. }
    unfold set_lookup. destruct (non_model this clazz) eqn:D; cbn [negb].
    + destruct Rk as [arr Ha].
      rewrite Hrow by (apply String.eqb_neq, lookup_suffix_neq).
      rewrite Ha. cbn [or_undefined].
      change (get_prop (VArr arr) "0") with (Ok (nth_value arr 0)).
      cbn [rbind]. rewrite Hsub. cbn [or_undefined rbind].
      rewrite assign_plain by exact Hproto.
      apply Step. intros arr' Ha'. rewrite Ha in Ha'. injection Ha' as <-.
      apply nth_value_first.
    + destruct Rk as [found Hf].
      rewrite Hrow by exact Hkey. rewrite Hf. cbn [rbind].
      rewrite Hsub. cbn [or_undefined rbind].
      rewrite assign_plain by exact Hproto.
      apply Step. intros found' Hf'. rewrite Hf in Hf'. now injection Hf' as <-.
Qed.

Lemma shape_row_spec (lookups : list (string * Ref)) (row : obj) :
  NoDup (map fst lookups) -> ~ In "$lookup" (map fst lookups) ->
  ~ In "__proto__" (map fst lookups) ->
  row_ready this lookups row ->
  exists row', shape_row this lookups row = Ok row' /\ shaped this lookups row row'.
Proof.
  intros ND NL NP Rd. unfold shape_row.
  destruct (shape_entries_spec row lookups ND NL NP Rd
              (obj_set "$lookup" (VObj []) row) [])
    as (object' & sub' & E & Hrow & Hsub & _ & Hin).
  - intros k Hk. apply obj_get_set_other. now apply String.eqb_neq.
  - apply obj_get_set_same.
  - exists object'. split; [exact E|]. split; [exact Hrow|].
    exists sub'. split; [exact Hsub | exact Hin].
Qed.

Lemma stage_join (db : Mongo.database) (domain key : string) (rows : list obj) :
  Mongo.stage db (join_stage domain key) rows =
  Mongo.join_rows (db domain) key "_id" (key ++ "_lookup") rows.
Proof. reflexivity. Qed.

(** In the store the join stages leave the joined array of every entry
    outside the model domain on every row. *)
Lemma lookup_stages_joined (db : Mongo.database) (lookups : list (string * Ref)) :
  forall rows rows',
    Mongo.stages db (lookup_stages this lookups) rows = Some rows' ->
    (forall key clazz, In (key, clazz) lookups -> non_model this clazz = true ->
       Forall (fun row => exists arr, obj_get (key ++ "_lookup") row = Some (VArr arr)) rows')
    /\ forall k, Forall (fun row => exists arr, obj_get k row = Some (VArr arr)) rows ->
                 Forall (fun row => exists arr, obj_get k row = Some (VArr arr)) rows'.
Proof.
  induction lookups as [|[key clazz] lookups IH]; intros rows rows'; cbn [lookup_stages].
  - cbn [Mongo.stages]. intros [= <-]. split; [intros ? ? [] | auto].
  - fold (non_model this clazz). destruct (non_model this clazz) eqn:D.
    + change (Mongo.stages db (?st :: lookup_stages this lookups) rows)
        with (match Mongo.stage db (join_stage (getDomain (hierarchy this) clazz) key) rows with
              | Some r => Mongo.stages db (lookup_stages this lookups) r
              | None => None
              end).
      rewrite stage_join.
      destruct (Mongo.join_rows _ key "_id" (key ++ "_lookup") rows) as [rows1|] eqn:J;
        [|discriminate].
      intros E. destruct (join_rows_array _ _ _ _ _ _ J) as [H1 K1].
      destruct (IH _ _ E) as [H2 K2]. split.
      * intros k c [I|I] N.
        -- injection I as <- <-. now apply K2.
        -- now apply (H2 k c).
      * intros k F. apply K2. now apply K1.
    + intros E. destruct (IH _ _ E) as [H2 K2]. split; [|exact K2].
      intros k c [I|I] N.
      * injection I as <- <-. congruence.
      * now apply (H2 k c).
Qed.

(** Every row that is ready is shaped. *)
Lemma shape_rows_spec (lookups : list (string * Ref)) (rows : list obj) :
  NoDup (map fst lookups) -> ~ In "$lookup" (map fst lookups) ->
  ~ In "__proto__" (map fst lookups) ->
  Forall (row_ready this lookups) rows ->
  exists rows', shape_rows this lookups rows = Ok rows'
    /\ Forall2 (shaped this lookups) rows rows'.
Proof.
  intros ND NL NP. induction 1 as [|row rows Rd _ IH]; cbn [shape_rows].
  - exists []. split; [reflexivity | constructor].
  - destruct (shape_row_spec lookups row ND NL NP Rd) as [row' [E S]].
    destruct IH as [rows' [Es F]]. rewrite E, Es. cbn [rbind].
    exists (row' :: rows'). split; [reflexivity | now constructor].
Qed.

Lemma field_names (lookups : list (string * Ref)) :
  Forall (fun entry => field_name (fst entry) = true) lookups ->
  ~ In "$lookup" (map fst lookups) /\ ~ In "__proto__" (map fst lookups).
Proof.
  intros F. split; intros I; apply in_map_iff in I as [[k c] [E I]];
    cbn [fst] in E; subst k;
    pose proof (proj1 (Forall_forall _ _) F _ I) as N; discriminate N.
Qed.

(** A find with lookups and without a sort, run against the store: the
    rows the pipeline yields are shaped, provided the model cache answers
    on them. *)
Lemma lookup_run (clazz : Ref) (query : obj) (filter : value) (options : FindOptions.t)
    (lookups : list (string * Ref)) (db : Mongo.database) (rows : list obj) :
  FindOptions.lookup options = Some lookups ->
  NoDup (map fst lookups) ->
  Forall (fun entry => field_name (fst entry) = true) lookups ->
  FindOptions.sort options = None ->
  translateQuery this clazz query = Ok filter ->
  Mongo.stages db (pipeline_of this filter options) (db (getDomain (hierarchy this) clazz))
    = Some rows ->
  Forall (fun row => forall key target, In (key, target) lookups ->
            non_model this target = false ->
            exists found,
              getObject (modelDb this) (or_undefined (obj_get key row)) = Ok found) rows ->
  exists rows',
    Mongo.run (lookup this clazz query options) db = Some (Ok rows', db)
    /\ Forall2 (shaped this lookups) rows rows'.
Proof.
  intros Lk ND FN So Q St Cache. destruct (field_names lookups FN) as [NL NP].
  assert (Lo : lookups_of options = lookups) by (unfold lookups_of; now rewrite Lk).
  assert (Rd : Forall (row_ready this lookups) rows).
  { unfold pipeline_of in St. rewrite So, Lo in St. rewrite stages_app in St.
    destruct (Mongo.stages db [_] _) as [rows0|]; [|discriminate].
    rewrite stages_app in St.
    destruct (Mongo.stages db (lookup_stages this lookups) rows0)
      as [rows1|] eqn:L; [|discriminate].
    cbn [app] in St.
    destruct (lookup_stages_joined db _ _ _ L) as [J _].
    assert (J1 : forall key target, In (key, target) lookups ->
                 non_model this target = true ->
                 Forall (fun row => exists arr,
                           obj_get (key ++ "_lookup") row = Some (VArr arr)) rows).
    { intros key target I N. specialize (J key target I N).
      destruct (FindOptions.limit options) as [n|].
      - cbn [Mongo.stages] in St.
        destruct (Mongo.stage db _ rows1) as [rows2|] eqn:S2; [|discriminate].
        injection St as <-.
        change (Mongo.stage db (VObj (obj_lit [("$limit", VNum n)])) rows1)
          with (if (0 <? n)%Z then Some (firstn (Z.to_nat n) rows1) else None) in S2.
        destruct (0 <? n)%Z; [|discriminate]. injection S2 as <-.
        now apply Forall_firstn.
      - cbn [Mongo.stages] in St. now injection St as <-. }
    apply Forall_forall. intros row I key target It.
    destruct (non_model this target) eqn:N.
    - exact (proj1 (Forall_forall _ _) (J1 key target It N) row I).
    - exact (proj1 (Forall_forall _ _) Cache row I key target It N). }
  destruct (shape_rows_spec lookups rows ND NL NP Rd) as [rows' [E F]].
  exists rows'. split; [|exact F].
  unfold lookup. rewrite Q, Lo. cbn [lift Mongo.run Mongo.exec]. rewrite St.
  cbn [Mongo.run]. rewrite E. reflexivity.
Qed.


End Lookups.

(** ** Concrete runs *)

Module Runs.
Import JS Driver Storage Props.

(** The C2 transaction at [Fixture.putBag]: one field under [$set], no
    stamp. *)
Example txPutBag_run :
  txPutBag Fixture.adapter Fixture.putBag =
    await (updateOne "tasks" [("_id", VStr "d1")]
             [("$set", VObj [("labels.color", VStr "red")])])
          (fun _ => resolve (VObj [])).
Proof. reflexivity. Qed.

(** The reposition of the specification on a plain UpdateDoc moves [B] to
    the front. *)
Example txUpdateDoc_move_run :
  option_map (fun r => (fst r, snd r "tasks"))
    (Mongo.run (txUpdateDoc (core := Fixture.core) Fixture.adapter
       {| TxUpdateDoc.objectId := "d1"; TxUpdateDoc.objectClass := "Task";
          TxUpdateDoc.modifiedBy := "u1"; TxUpdateDoc.modifiedOn := 7;
          TxUpdateDoc.operations := [("$move", VObj [("items", Fixture.descriptor)])];
          TxUpdateDoc.retrieve := None |}) Fixture.db)
  = Some (Ok (Mongo.BulkWriteResult 2 2),
          [[("_id", VStr "d1"); ("_class", VStr "Task");
            ("items", VArr [VStr "B"; VStr "A"; VStr "C"]); ("parent", VStr "d2");
            ("owner", VStr "u1"); ("modifiedBy", VStr "u1"); ("modifiedOn", VNum 7)];
           Fixture.task2]).
Proof. vm_compute. reflexivity. Qed.

Lemma txMixin_move_throws_witness :
  TxMixin.attributes Fixture.mixinMove = [("$move", VObj [("items", Fixture.descriptor)])]
  /\ isOperator (Core := Fixture.core) (TxMixin.attributes Fixture.mixinMove) = true
  /\ txMixin (core := Fixture.core) Fixture.adapter Fixture.mixinMove =
       reject (TypeError "Cannot read properties of undefined or null").
Proof.
  split; [reflexivity|]. split; [reflexivity|].
  apply (txMixin_move_throws (core := Fixture.core) Fixture.adapter Fixture.mixinMove
           "items" Fixture.descriptor); reflexivity.
Defined.

Lemma translateQuery_overrides_class_witness :
  NoDup (map fst [("_class", VStr "Task")])
  /\ In ("_class", VStr "Task") [("_class", VStr "Task")]
  /\ has_in (VStr "Task") = false
  /\ Forall (fun kv => well_patterned (snd kv) = true) [("_class", VStr "Task")]
  /\ "Doc" <> "_class"
  /\ translateQuery Fixture.adapter "Doc" [("_class", VStr "Task")] =
       Ok (VObj [("_class", VObj [("$in", VArr [VStr "Doc"; VStr "Task"; VStr "Bug"])])])
  /\ exists t,
       translateQuery Fixture.adapter "Doc" [("_class", VStr "Task")] = Ok t
       /\ obj_get "_class" (own t) =
            Some (VObj [("$in", VArr [VStr "Doc"; VStr "Task"; VStr "Bug"])])
       /\ obj_get "_class" (own t) <> Some (VStr "Task").
Proof.
  assert (ND : NoDup (map fst [("_class", VStr "Task")])).
  { repeat constructor. cbn. intuition. }
  assert (W : Forall (fun kv => well_patterned (snd kv) = true) [("_class", VStr "Task")]).
  { repeat constructor. }
  split; [exact ND|]. split; [now left|]. split; [reflexivity|].
  split; [exact W|]. split; [discriminate|]. split; [reflexivity|].
  apply (translateQuery_overrides_class Fixture.adapter "Doc"
           [("_class", VStr "Task")] (VStr "Task") ND (or_introl eq_refl) eq_refl W).
  discriminate.
Defined.



Lemma txUpdateDoc_retrieve_witness :
  TxUpdateDoc.retrieve Fixture.updateRetrieve = Some true
  /\ is_reposition (core := Fixture.core) (TxUpdateDoc.operations Fixture.updateRetrieve) = false
  /\ txUpdateDoc (core := Fixture.core) Fixture.adapter Fixture.updateRetrieve =
       await (findOneAndUpdate "tasks" [("_id", VStr "d2")]
                [("$set", VObj [("title", VStr "Fix"); ("modifiedBy", VStr "u1");
                                ("modifiedOn", VNum 1700000000000)])]
                [("returnDocument", VStr "after")])
             retrieved
  /\ Mongo.run (txUpdateDoc (core := Fixture.core) Fixture.adapter Fixture.updateRetrieve)
       Fixture.db
     = Some (Ok (VObj [("object",
                        VObj [("_id", VStr "d2"); ("_class", VStr "Task");
                              ("owner", VStr "u1"); ("title", VStr "Fix");
                              ("modifiedBy", VStr "u1");
                              ("modifiedOn", VNum 1700000000000)])]),
             Mongo.store Fixture.db "tasks"
               ([Fixture.task1] ++
                [("_id", VStr "d2"); ("_class", VStr "Task");
                 ("owner", VStr "u1"); ("title", VStr "Fix");
                 ("modifiedBy", VStr "u1");
                 ("modifiedOn", VNum 1700000000000)] :: [])).
Proof.
  split; [reflexivity|]. split; [reflexivity|].
  destruct (txUpdateDoc_retrieve (core := Fixture.core) Fixture.adapter
              Fixture.updateRetrieve eq_refl eq_refl) as (E & _ & R).
  split; [exact E|].
  destruct (R Fixture.db) as [Found _].
  apply (Found [Fixture.task1] Fixture.task2 []); reflexivity.
Defined.

Lemma txMixin_empty_marks_witness :
  TxMixin.attributes Fixture.mixinEmpty = []
  /\ isOperator (Core := Fixture.core) [] = false
  /\ txMixin (core := Fixture.core) Fixture.adapter Fixture.mixinEmpty =
       await (updateOne "tasks" [("_id", VStr "d1")]
                [("$set", VObj [("Assigned.__mixin", VStr "true");
                                ("modifiedBy", VStr "u1");
                                ("modifiedOn", VNum 1700000000000)])])
             resolve
  /\ exists d',
       Mongo.store Fixture.db "tasks"
         [Fixture.task1 ++ [("Assigned", VObj [("__mixin", VStr "true")]);
                            ("modifiedBy", VStr "u1");
                            ("modifiedOn", VNum 1700000000000)];
          Fixture.task2] "tasks" = [] ++ d' :: [Fixture.task2]
       /\ Mongo.matches (has_facet "Assigned") d' = Some true.
Proof.
  split; [reflexivity|]. split; [reflexivity|].
  destruct (txMixin_empty_marks (core := Fixture.core) Fixture.adapter
              Fixture.mixinEmpty eq_refl eq_refl) as (E & R).
  split; [exact E|].
  apply (R Fixture.db _ [] Fixture.task1 [Fixture.task2] (Mongo.UpdateResult 1 1));
    reflexivity.
Defined.

Lemma txRemoveDoc_idempotent_witness :
  Mongo.keyed (Fixture.db "tasks")
  /\ exists db1,
       Mongo.run (txRemoveDoc Fixture.adapter Fixture.removeTask) Fixture.db
         = Some (Ok (VObj []), db1)
       /\ db1 "tasks" = [Fixture.task2]
       /\ Mongo.run (txRemoveDoc Fixture.adapter Fixture.removeTask) db1
         = Some (Ok (VObj []), db1).
Proof.
  assert (K : Mongo.keyed (Fixture.db "tasks")).
  { split; repeat constructor; cbn; intuition discriminate. }
  split; [exact K|].
  destruct (txRemoveDoc_idempotent Fixture.adapter Fixture.removeTask Fixture.db K)
    as (_ & db1 & R1 & D & _ & R2).
  exists db1. split; [exact R1|]. split; [exact D|exact R2].
Defined.



Lemma dispatch_on_first_key_witness :
  isOperator (Core := Fixture.core) Fixture.moveThenPush = true
  /\ isOperator (Core := Fixture.core) Fixture.pushThenMove = true
  /\ txUpdateDoc (core := Fixture.core) Fixture.adapter
       {| TxUpdateDoc.objectId := "d1"; TxUpdateDoc.objectClass := "Task";
          TxUpdateDoc.modifiedBy := "u1"; TxUpdateDoc.modifiedOn := 7;
          TxUpdateDoc.operations := Fixture.moveThenPush;
          TxUpdateDoc.retrieve := Some true |}
     = await (bulkWrite "tasks"
                [VObj [("updateOne",
                        VObj [("filter", VObj [("_id", VStr "d1")]);
                              ("update", VObj [("$pull", VObj [("items", VStr "B")])])])];
                 VObj [("updateOne",
                        VObj [("filter", VObj [("_id", VStr "d1")]);
                              ("update",
                               VObj [("$set", VObj [("modifiedBy", VStr "u1");
                                                    ("modifiedOn", VNum 7)]);
                                     ("$push",
                                      VObj [("items",
                                             VObj [("$each", VArr [VStr "B"]);
                                                   ("$position", VNum 0)])])])])]])
             resolve
  /\ txMixin (core := Fixture.core) Fixture.adapter
       {| TxMixin.objectId := "d1"; TxMixin.objectClass := "Task";
          TxMixin.modifiedBy := "u1"; TxMixin.modifiedOn := 7;
          TxMixin.mixin := "Assigned"; TxMixin.attributes := Fixture.moveThenPush |}
     = reject (TypeError "Cannot read properties of undefined or null")
  /\ txUpdateDoc (core := Fixture.core) Fixture.adapter
       {| TxUpdateDoc.objectId := "d1"; TxUpdateDoc.objectClass := "Task";
          TxUpdateDoc.modifiedBy := "u1"; TxUpdateDoc.modifiedOn := 7;
          TxUpdateDoc.operations := Fixture.pushThenMove;
          TxUpdateDoc.retrieve := Some true |}
     = await (findOneAndUpdate "tasks" [("_id", VStr "d1")]
                [("$push", VObj [("tags", VStr "x")]);
                 ("$move", VObj [("items", Fixture.descriptor)]);
                 ("$set", VObj [("modifiedBy", VStr "u1"); ("modifiedOn", VNum 7)])]
                [("returnDocument", VStr "after")])
             retrieved
  /\ txMixin (core := Fixture.core) Fixture.adapter
       {| TxMixin.objectId := "d1"; TxMixin.objectClass := "Task";
          TxMixin.modifiedBy := "u1"; TxMixin.modifiedOn := 7;
          TxMixin.mixin := "Assigned"; TxMixin.attributes := Fixture.pushThenMove |}
     = await (updateOne "tasks" [("_id", VStr "d1")]
                [("$push", VObj [("Assigned.tags", VStr "x")]);
                 ("$move", VObj [("Assigned.items", Fixture.descriptor)]);
                 ("$set", VObj [("modifiedBy", VStr "u1"); ("modifiedOn", VNum 7)])])
             resolve.
Proof.
  split; [reflexivity|]. split; [reflexivity|].
  destruct (dispatch_on_first_key (core := Fixture.core) Fixture.adapter
              "d1" "Task" "u1" "Assigned" 7 "$move" (VObj [("items", Fixture.descriptor)])
              [("$push", VObj [("tags", VStr "x")])] (Some true) eq_refl)
    as [Move _].
  destruct (dispatch_on_first_key (core := Fixture.core) Fixture.adapter
              "d1" "Task" "u1" "Assigned" 7 "$push" (VObj [("tags", VStr "x")])
              [("$move", VObj [("items", Fixture.descriptor)])] (Some true) eq_refl)
    as [_ Generic].
  destruct (Move eq_refl) as [U M]. destruct (Generic ltac:(discriminate)) as [U' M'].
  split; [exact U|]. split; [exact M|]. split; [exact U' | exact M'].
Defined.



(** What the shaping of the two rows binds: the owner from the model
    cache, the parent from the joined array, [undefined] where it is
    empty. *)
Example shape_rows_run :
  option_map (map (obj_get "$lookup"))
    (match shape_rows (core := Fixture.core) Fixture.adapter
             [("owner", "User"); ("parent", "Task")]
             [Fixture.joined1; Fixture.joined2] with
     | Ok rows => Some rows
     | Err _ => None
     end)
  = Some [Some (VObj [("owner", VObj [("_id", VStr "u1"); ("_class", VStr "User")]);
                      ("parent", VObj Fixture.task2)]);
          Some (VObj [("owner", VObj [("_id", VStr "u1"); ("_class", VStr "User")]);
                      ("parent", VUndefined)])].
Proof. vm_compute. reflexivity. Qed.

(** A find for the class [Bug] alone, against a store that holds two
    tasks and no bug: both tasks come back, the caller's class is gone from
    the filter. *)
Example findAll_plain_class_run :
  option_map fst
    (Mongo.run (findAll (core := Fixture.core) Fixture.adapter "Doc"
                  [("_class", VStr "Bug")] None) Fixture.db)
  = Some (Ok [Fixture.task1; Fixture.task2]).
Proof. vm_compute. reflexivity. Qed.

(** A find with lookups, end to end. *)
Example findAll_lookup_run :
  option_map fst
    (Mongo.run (findAll (core := Fixture.core) Fixture.adapter "Task" []
                  (Some Fixture.withLookups)) Fixture.db)
  = Some (Ok [Fixture.joined1 ++
                [("$lookup",
                  VObj [("owner", VObj [("_id", VStr "u1"); ("_class", VStr "User")]);
                        ("parent", VObj Fixture.task2)])];
              Fixture.joined2 ++
                [("$lookup",
                  VObj [("owner", VObj [("_id", VStr "u1"); ("_class", VStr "User")]);
                        ("parent", VUndefined)])]]).
Proof. vm_compute. reflexivity. Qed.

(** Retrieval after an update by an identifier no document has. *)
Example retrieve_absent_run :
  option_map fst
    (Mongo.run (txUpdateDoc (core := Fixture.core) Fixture.adapter
       {| TxUpdateDoc.objectId := "d9"; TxUpdateDoc.objectClass := "Task";
          TxUpdateDoc.modifiedBy := "u1"; TxUpdateDoc.modifiedOn := 7;
          TxUpdateDoc.operations := [("title", VStr "Fix")];
          TxUpdateDoc.retrieve := Some true |}) Fixture.db)
  = Some (Ok (VObj [("object", VNull)])).
Proof. vm_compute. reflexivity. Qed.

(** After the attribute-less mixin update, a find for the mixin class
    returns the document. *)
Example find_facet_after_marker_run :
  match Mongo.run (txMixin (core := Fixture.core) Fixture.adapter Fixture.mixinEmpty)
          Fixture.db with
  | Some (Ok _, db') =>
      option_map fst
        (Mongo.run (findAll (core := Fixture.core) Fixture.adapter "Assigned" [] None) db')
  | _ => None
  end
  = Some (Ok [Fixture.task1 ++ [("Assigned", VObj [("__mixin", VStr "true")]);
                                ("modifiedBy", VStr "u1");
                                ("modifiedOn", VNum 1700000000000)]]).
Proof. vm_compute. reflexivity. Qed.

End Runs.

(** * Further properties of the adapter *)

(** ** Strings and objects, continued *)

Module MoreFacts.
Import JS JSFacts.


Lemma split_no_dot (s : string) : no_dot s = true -> split "." s = [s].
Proof.
  induction s as [|c s IH]; [reflexivity|]. cbn [no_dot split]. intros H.
  apply andb_true_iff in H as [H1 H2]. apply negb_true_iff in H1.
  rewrite H1, (IH H2). reflexivity.
Qed.





Lemma append_inj_l (p a b : string) : (p ++ a = p ++ b)%string -> a = b.
Proof. induction p as [|c p IH]; cbn [append]; [auto|]. intros [= E]. auto. Qed.

Lemma obj_set_not_nil (k : string) (v : value) (o : obj) : obj_set k v o <> [].
Proof.
  intros E. pose proof (obj_get_set_same k v o) as G. rewrite E in G. discriminate.
Qed.

(** What an object binds after a write is the written pair or was bound
    before. *)
Lemma obj_get_set_inv (k k' : string) (v v' : value) (o : obj) :
  obj_get k' (obj_set k v o) = Some v' ->
  (k' = k /\ v' = v) \/ (k' <> k /\ obj_get k' o = Some v').
Proof.
  destruct (String.eqb_spec k' k) as [->|N].
  - rewrite obj_get_set_same. intros [= <-]. now left.
  - rewrite obj_get_set_other by now apply String.eqb_neq. intros G. now right.
Qed.

(** A spread binds what its second object binds, and otherwise what the
    first does. *)
Lemma obj_get_spread (k : string) (b : obj) :
  NoDup (map fst b) ->
  forall a, obj_get k (obj_spread a b) =
            match obj_get k b with
            | Some v => Some v
            | None => obj_get k a
            end.
Proof.
  unfold obj_spread. induction b as [|[k0 v0] b IH]; intros ND a; cbn [fold_left fst snd].
  - reflexivity.
  - cbn [map fst] in ND. inversion ND as [|? ? N ND']; subst.
    rewrite (IH ND'). cbn [obj_get].
    destruct (String.eqb_spec k k0) as [->|Nk].
    + assert (G : obj_get k0 b = None).
      { clear - N. induction b as [|[k1 v1] b IH]; [reflexivity|].
        cbn [obj_get map fst] in *. destruct (String.eqb_spec k0 k1) as [->|_].
        - exfalso. apply N. now left.
        - apply IH. intros I. apply N. now right. }
      rewrite G. apply obj_get_set_same.
    + destruct (obj_get k b); [reflexivity|].
      apply obj_get_set_other. now apply String.eqb_neq.
Qed.

Lemma obj_get_In (k : string) (v : value) (o : obj) :
  obj_get k o = Some v -> In (k, v) o.
Proof.
  induction o as [|[k0 v0] o IH]; cbn [obj_get]; [discriminate|].
  destruct (String.eqb_spec k k0) as [->|_].
  - intros [= <-]. now left.
  - intros G. right. auto.
Qed.

Lemma In_obj_get (k : string) (v : value) (o : obj) :
  NoDup (map fst o) -> In (k, v) o -> obj_get k o = Some v.
Proof.
  induction o as [|[k0 v0] o IH]; intros ND I; [destruct I|].
  cbn [map fst] in ND. inversion ND as [|? ? N ND']; subst.
  cbn [obj_get]. destruct I as [[= -> ->]|I].
  - now rewrite String.eqb_refl.
  - destruct (String.eqb_spec k k0) as [->|_]; [|auto].
    exfalso. apply N. change k0 with (fst (k0, v)). now apply in_map.
Qed.

End MoreFacts.

(** ** Sorting on looked-up fields *)

(** A loop that assigns an order under a key computed from each sort
    key, as [lookup] and [findAll] both have one. *)
Section SortLoop.
Import JS Driver Storage Props JSFacts AssignFacts MoreFacts.
Variable target_key : string -> string.
Variable loop : list (string * SortingOrder) -> value -> value.
Hypothesis loop_nil : forall sort, loop [] sort = sort.
Hypothesis loop_cons : forall key order rest sort,
  loop ((key, order) :: rest) sort =
  loop rest (assign (target_key key) (order_value order) sort).





End SortLoop.

Section SortKeys.
Import JS Driver Storage Props JSFacts AssignFacts MoreFacts.
Context {core : Core}.
Variable this : MongoAdapterBase.




End SortKeys.

(** ** The query translator, continued *)

Section QueriesMore.
Import JS Driver Storage Props JSFacts AssignFacts MoreFacts.
Variable this : MongoAdapterBase.

Lemma translateField_ill_patterned (v : value) :
  well_patterned v = false ->
  translateField v = Err (TypeError "pattern.split is not a function").
Proof.
  destruct v as [| | | | | |[|[k x] o]|q [|[k x] o]]; try discriminate;
    cbn [well_patterned]; (destruct (String.eqb k "$like") eqn:K; [|discriminate]);
    apply String.eqb_eq in K; subst k; destruct x; try discriminate; reflexivity.
Qed.

Lemma translateField_ok_patterned (v v' : value) :
  translateField v = Ok v' -> well_patterned v = true.
Proof.
  intros T. destruct (well_patterned v) eqn:W; [reflexivity|].
  rewrite (translateField_ill_patterned v W) in T. discriminate.
Qed.

Lemma translateFields_result (query : obj) :
  forall acc,
    (forall t, translateFields query acc = Ok t ->
       Forall (fun kv => well_patterned (snd kv) = true) query)
    /\ (forall e, translateFields query acc = Err e ->
          e = TypeError "pattern.split is not a function").
Proof.
  induction query as [|[k v] query IH]; intros acc; cbn [translateFields].
  - split; [constructor | discriminate].
  - destruct (translateField v) as [v'|e'] eqn:T; cbn [rbind].
    + destruct (IH (assign k v' acc)) as [Hok Herr]. split; [|exact Herr].
      intros t E. constructor; [|now apply (Hok t)].
      now apply (translateField_ok_patterned v v').
    + split; [discriminate|]. intros e [= <-].
      destruct (well_patterned v) eqn:W.
      * destruct (translateField_total v W) as [x Ex]. congruence.
      * rewrite (translateField_ill_patterned v W) in T. now injection T as <-.
Qed.

(** X2. The translation of a query fails exactly when some field has the
    pattern-match marker as its first key over a pattern that is not a
    string, and then with a [TypeError], the pattern having no [split] to
    call; every other query is translated. *)
Theorem translateQuery_fails_iff (clazz : Ref) (query : obj) :
  ((exists t, translateQuery this clazz query = Ok t) <->
   Forall (fun kv => well_patterned (snd kv) = true) query)
  /\ (forall e, translateQuery this clazz query = Err e ->
        (exists msg, e = TypeError msg)
        /\ exists key value, In (key, value) query /\ well_patterned value = false).
Proof.
  rewrite translateQuery_steps. split; [split|].
  - intros [t E]. destruct (translateFields query (VObj [])) as [t0|] eqn:F; [|discriminate].
    now apply (proj1 (translateFields_result query (VObj [])) t0).
  - intros W. destruct (translateFields_total query W (VObj [])) as [t0 ->]. cbn [rbind]. eauto.
  - intros e E. destruct (translateFields query (VObj [])) as [t0|e0] eqn:F; [discriminate|].
    cbn [rbind] in E. injection E as <-.
    split; [eexists; now apply (proj2 (translateFields_result query (VObj [])))|].
    destruct (Forall_Exists_dec (fun kv : string * value => well_patterned (snd kv) = true)
                (fun kv => bool_dec (well_patterned (snd kv)) true) query) as [W|X].
    + destruct (translateFields_total query W (VObj [])) as [t0 E0]. congruence.
    + apply Exists_exists in X as [[key value] [I N]]. cbn [snd] in N.
      exists key, value. split; [exact I|]. now destruct (well_patterned value).
Qed.

(** X3. The translated filter constrains nothing the caller did not name,
    apart from the class field and, for a class stored with another base
    class, the class's own identifier. *)
Theorem translateQuery_keys (clazz : Ref) (query : obj) (t : value) (k : string) (v : value) :
  translateQuery this clazz query = Ok t ->
  obj_get k (own t) = Some v ->
  In k (map fst query) \/ k = "_class"
  \/ (k = clazz /\ getBaseClass (hierarchy this) clazz <> clazz).
Proof.
  rewrite translateQuery_steps.
  destruct (translateFields query (VObj [])) as [t0|] eqn:F; [|discriminate].
  cbn [rbind]. intros [= <-] G.
  destruct (in_dec string_dec k (map fst query)) as [I|N]; [now left|]. right.
  destruct (translateFields_spec query (VObj []) _ eq_refl F) as (_ & Hout & _).
  specialize (Hout k N). cbn [own obj_get] in Hout.
  unfold with_facet, with_class in G.
  destruct (String.eqb_spec (getBaseClass (hierarchy this) clazz) clazz) as [Eb|Nb];
    cbn [negb] in G.
  - destruct (is_undefined _).
    + apply own_assign_inv in G as [->|G]; [now left | congruence].
    + congruence.
  - apply own_assign_inv in G as [->|G]; [now right|].
    destruct (is_undefined _).
    + apply own_assign_inv in G as [->|G]; [now left | congruence].
    + congruence.
Qed.

End QueriesMore.

(** ** Objects: membership and well-formedness *)

Module ObjFacts.
Import JS JSFacts MoreFacts.

Lemma In_obj_replace (k k0 : string) (v v0 : value) (o : obj) :
  In (k, v) (obj_replace k0 v0 o) -> (k = k0 /\ v = v0) \/ In (k, v) o.
Proof.
  induction o as [|[k1 v1] o IH]; cbn [obj_replace]; [intros []|].
  destruct (String.eqb k0 k1); cbn [In].
  - intros [[= <- <-]|I]; auto.
  - intros [E|I]; [auto|]. destruct (IH I); auto.
Qed.

Lemma In_obj_insert_index (n : N) (k k0 : string) (v v0 : value) (o : obj) :
  In (k, v) (obj_insert_index n k0 v0 o) -> (k = k0 /\ v = v0) \/ In (k, v) o.
Proof.
  induction o as [|[k1 v1] o IH]; cbn [obj_insert_index].
  - intros [[= <- <-]|[]]. auto.
  - destruct (index_of_string k1) as [m|]; [destruct (N.ltb n m)|]; cbn [In].
    + intros [[= <- <-]|I]; auto.
    + intros [E|I]; [auto|]. destruct (IH I); auto.
    + intros [[= <- <-]|I]; auto.
Qed.

(** A pair of an object after a write is the written pair or a pair of the
    object before. *)
Lemma In_obj_set (k k0 : string) (v v0 : value) (o : obj) :
  In (k, v) (obj_set k0 v0 o) -> (k = k0 /\ v = v0) \/ In (k, v) o.
Proof.
  unfold obj_set. destruct (obj_has k0 o).
  - apply In_obj_replace.
  - destruct (index_of_string k0).
    + apply In_obj_insert_index.
    + intros I. apply in_app_or in I as [I|[[= <- <-]|[]]]; auto.
Qed.

Lemma keys_obj_replace (k : string) (v : value) (o : obj) :
  map fst (obj_replace k v o) = map fst o.
Proof.
  induction o as [|[k1 v1] o IH]; cbn [obj_replace]; [reflexivity|].
  destruct (String.eqb_spec k k1) as [->|_]; cbn [map fst]; [reflexivity|].
  now rewrite IH.
Qed.

Lemma obj_has_false (k : string) (o : obj) :
  obj_has k o = false -> ~ In k (map fst o).
Proof.
  unfold obj_has. induction o as [|[k1 v1] o IH]; cbn [obj_get map fst]; [auto|].
  destruct (String.eqb_spec k k1) as [->|N]; [discriminate|].
  intros H [E|I]; [congruence | now apply IH].
Qed.

Lemma keys_obj_insert_index (n : N) (k k' : string) (v : value) (o : obj) :
  In k' (map fst (obj_insert_index n k v o)) <-> k' = k \/ In k' (map fst o).
Proof.
  induction o as [|[k1 v1] o IH]; cbn [obj_insert_index map fst In].
  - intuition.
  - destruct (index_of_string k1) as [m|]; [destruct (N.ltb n m)|]; cbn [map fst In];
      rewrite ?IH; intuition.
Qed.

Lemma NoDup_obj_insert_index (n : N) (k : string) (v : value) (o : obj) :
  ~ In k (map fst o) -> NoDup (map fst o) ->
  NoDup (map fst (obj_insert_index n k v o)).
Proof.
  induction o as [|[k1 v1] o IH]; cbn [obj_insert_index map fst]; intros N0 ND.
  - repeat constructor. intros [].
  - inversion ND as [|? ? N1 ND']; subst.
    destruct (index_of_string k1) as [m|]; [destruct (N.ltb n m)|]; cbn [map fst].
    + constructor; [exact N0 | exact ND].
    + constructor.
      * rewrite keys_obj_insert_index. intros [->|I]; [|contradiction].
        apply N0. now left.
      * apply IH; [|exact ND']. intros I. apply N0. now right.
    + constructor; [exact N0 | exact ND].
Qed.

(** A write keeps the keys of an object distinct. *)
Lemma NoDup_obj_set (k : string) (v : value) (o : obj) :
  NoDup (map fst o) -> NoDup (map fst (obj_set k v o)).
Proof.
  intros ND. unfold obj_set. destruct (obj_has k o) eqn:H.
  - now rewrite keys_obj_replace.
  - apply obj_has_false in H. destruct (index_of_string k).
    + now apply NoDup_obj_insert_index.
    + rewrite map_app. cbn [map fst]. apply NoDup_app.
      * exact ND.
      * repeat constructor. intros [].
      * intros x I [<-|[]]. contradiction.
Qed.

End ObjFacts.

(** ** [translateMixinAttrs] *)

Section MixinAttrs.
Import JS Driver Storage Props MoreProps JSFacts MoreFacts ObjFacts.

(** The loop counts its entries, keeps the keys of the accumulator
    distinct, and leaves it non-empty as soon as there is an entry. *)
Lemma mixin_entries_shape (rec : value -> result obj) (mixin : Ref) (es : obj) :
  forall attrs count attrs' count',
    mixin_entries rec mixin es attrs count = Ok (attrs', count') ->
    count' = count + length es
    /\ (es = [] -> attrs' = attrs)
    /\ (attrs <> [] \/ es <> [] -> attrs' <> [])
    /\ (NoDup (map fst attrs) -> NoDup (map fst attrs')).
Proof.
  induction es as [|[k v] es IH]; intros attrs count attrs' count'; cbn [mixin_entries].
  - intros [= <- <-]. repeat split; auto. intros [H|H]; congruence.
  - assert (Step : forall a,
      mixin_entries rec mixin es (obj_set (fst a) (snd a) attrs) (S count) = Ok (attrs', count') ->
      count' = count + length ((k, v) :: es)
      /\ ((k, v) :: es = [] -> attrs' = attrs)
      /\ (attrs <> [] \/ (k, v) :: es <> [] -> attrs' <> [])
      /\ (NoDup (map fst attrs) -> NoDup (map fst attrs'))).
    { intros a E. destruct (IH _ _ _ _ E) as (C & _ & Ne & ND).
      split; [cbn [length]; lia|]. split; [discriminate|].
      split; [intros _; apply Ne; left; apply obj_set_not_nil|].
      intros H. apply ND. now apply NoDup_obj_set. }
    destruct (startsWith k "$").
    + destruct (rec v) as [sub|]; cbn [rbind]; [|discriminate].
      apply (Step (k, VObj sub)).
    + apply (Step ((mixin ++ "." ++ k)%string, v)).
Qed.

Lemma translateMixinAttrs_unfold (mixin : Ref) (attributes : value) :
  translateMixinAttrs mixin attributes =
  match attributes with
  | VObj es | VInherit _ es =>
      let? r := mixin_entries (translateMixinAttrs mixin) mixin es [] 0 in
      Ok (mixin_marker mixin r)
  | _ =>
      let? es := entries attributes in
      let? r := mixin_entries (fun _ => Ok []) mixin es [] 0 in
      Ok (mixin_marker mixin r)
  end.
Proof. destruct attributes; reflexivity. Qed.

(** Whatever the loop ran on, what [translateMixinAttrs] returns comes from
    a run of the loop followed by the marker step. *)
Lemma translateMixinAttrs_run (mixin : Ref) (attributes : value) (attrs : obj) :
  translateMixinAttrs mixin attributes = Ok attrs ->
  exists rec es r,
    mixin_entries rec mixin es [] 0 = Ok r /\ attrs = mixin_marker mixin r
    /\ (forall o, attributes = VObj o -> es = o /\ rec = translateMixinAttrs mixin).
Proof.
  rewrite translateMixinAttrs_unfold. destruct attributes; cbn [entries rbind];
    try discriminate.
  - intros [= <-]. exists (fun _ => Ok []), [], ([], 0). repeat split; discriminate.
  - intros [= <-]. exists (fun _ => Ok []), [], ([], 0). repeat split; discriminate.
  - destruct (mixin_entries _ mixin (indexed VStr 0 (chars s)) [] 0) as [r|] eqn:M;
      cbn [rbind]; [|discriminate].
    intros [= <-]. exists (fun _ => Ok []), (indexed VStr 0 (chars s)), r.
    repeat split; auto; discriminate.
  - destruct (mixin_entries _ mixin (indexed (fun x => x) 0 elems) [] 0) as [r|] eqn:M;
      cbn [rbind]; [|discriminate].
    intros [= <-]. exists (fun _ => Ok []), (indexed (fun x => x) 0 elems), r.
    repeat split; auto; discriminate.
  - destruct (mixin_entries (translateMixinAttrs mixin) mixin props [] 0) as [r|] eqn:M;
      cbn [rbind]; [|discriminate].
    intros [= <-]. exists (translateMixinAttrs mixin), props, r.
    split; [exact M|]. split; [reflexivity|]. intros o [= <-]. auto.
  - destruct (mixin_entries (translateMixinAttrs mixin) mixin props [] 0) as [r|] eqn:M;
      cbn [rbind]; [|discriminate].
    intros [= <-]. exists (translateMixinAttrs mixin), props, r.
    split; [exact M|]. split; [reflexivity|]. discriminate.
Qed.

Lemma translateMixinAttrs_keys_distinct (mixin : Ref) (attributes : value) (attrs : obj) :
  translateMixinAttrs mixin attributes = Ok attrs -> NoDup (map fst attrs).
Proof.
  intros T. destruct (translateMixinAttrs_run _ _ _ T) as (rec & es & [a c] & M & -> & _).
  destruct (mixin_entries_shape _ _ _ _ _ _ _ M) as (_ & _ & _ & ND).
  unfold mixin_marker. cbn [fst snd]. destruct (Nat.eqb c 0).
  - apply NoDup_obj_set, ND. constructor.
  - apply ND. constructor.
Qed.

(** X4. [translateMixinAttrs] never returns a map without keys: the
    placeholder stands in where the attributes have none. The same holds
    under an operator: an operator key over an empty map is translated to
    the operator over the placeholder. *)
Theorem translateMixinAttrs_never_empty (mixin : Ref) (attributes : value) (attrs : obj) (op : string) :
  (translateMixinAttrs mixin attributes = Ok attrs -> attrs <> [])
  /\ (startsWith op "$" = true ->
      translateMixinAttrs mixin (VObj [(op, VObj [])]) =
        Ok [(op, VObj [((mixin ++ "." ++ "__mixin")%string, VStr "true")])]).
Proof.
  split.
  - intros T. destruct (translateMixinAttrs_run _ _ _ T) as (rec & es & [a c] & M & -> & _).
    destruct (mixin_entries_shape _ _ _ _ _ _ _ M) as (C & _ & Ne & _).
    unfold mixin_marker. cbn [fst snd]. destruct (Nat.eqb c 0) eqn:Z.
    + apply obj_set_not_nil.
    + apply Ne. right. intros ->. cbn [length] in C. subst c. discriminate.
  - intros O. rewrite translateMixinAttrs_unfold. cbn [mixin_entries]. rewrite O.
    rewrite translateMixinAttrs_unfold. cbn [mixin_entries rbind mixin_marker fst snd Nat.eqb].
    now rewrite !obj_set_nil.
Qed.

(** The loop over plain keys: every field is written under the mixin. *)
Lemma mixin_entries_plain (rec : value -> result obj) (mixin : Ref) (es : obj) :
  Forall (fun kv => startsWith (fst kv) "$" = false) es ->
  NoDup (map fst es) ->
  forall attrs count, exists attrs',
    mixin_entries rec mixin es attrs count = Ok (attrs', count + length es)
    /\ (forall k, obj_get (mixin ++ "." ++ k) attrs' =
                  match obj_get k es with
                  | Some v => Some v
                  | None => obj_get (mixin ++ "." ++ k) attrs
                  end)
    /\ (forall k' v, In (k', v) attrs' ->
          In (k', v) attrs
          \/ exists k, k' = (mixin ++ "." ++ k)%string /\ In (k, v) es).
Proof.
  induction 1 as [|[k0 v0] es P _ IH]; intros ND attrs count; cbn [mixin_entries].
  - exists attrs. rewrite Nat.add_0_r. repeat split; auto.
  - cbn [fst] in P. rewrite P. cbn [map fst] in ND. inversion ND as [|? ? N0 ND']; subst.
    destruct (IH ND' (obj_set (mixin ++ "." ++ k0) v0 attrs) (S count))
      as (attrs' & E & G & I).
    exists attrs'. split; [rewrite E; cbn [length]; do 2 f_equal; lia|]. split.
    + intros k. rewrite G. cbn [obj_get].
      destruct (String.eqb_spec k k0) as [->|Nk].
      * assert (G0 : obj_get k0 es = None).
        { destruct (obj_get k0 es) eqn:X; [|reflexivity].
          exfalso. apply N0. apply obj_get_In in X.
          change k0 with (fst (k0, v)). now apply in_map. }
        rewrite G0. apply obj_get_set_same.
      * destruct (obj_get k es); [reflexivity|].
        apply obj_get_set_other. apply String.eqb_neq. intros A.
        apply append_inj_l in A. cbn [append] in A. now injection A.
    + intros k' v Hin. destruct (I k' v Hin) as [Ha|(k & -> & He)].
      * apply In_obj_set in Ha as [[-> ->]|Ha]; [|now left].
        right. exists k0. split; [reflexivity | now left].
      * right. exists k. split; [reflexivity | now right].
Qed.

(** X5. A map of plain fields (no key starts with [$]) that is not empty
    is translated key by key: the result binds [<mixin>.<field>] to what the
    attributes bind [<field>] to, binds nothing else, and has no
    placeholder of its own. *)
Theorem translateMixinAttrs_plain (mixin : Ref) (es : obj) :
  es <> [] ->
  Forall (fun kv => startsWith (fst kv) "$" = false) es ->
  NoDup (map fst es) ->
  exists attrs,
    translateMixinAttrs mixin (VObj es) = Ok attrs
    /\ (forall k, obj_get (mixin ++ "." ++ k) attrs = obj_get k es)
    /\ (forall k' v, In (k', v) attrs ->
          exists k, k' = (mixin ++ "." ++ k)%string /\ In (k, v) es).
Proof.
  intros Ne P ND.
  destruct (mixin_entries_plain (translateMixinAttrs mixin) mixin es P ND [] 0)
    as (attrs & E & G & I).
  exists attrs. rewrite translateMixinAttrs_unfold, E. cbn [rbind Nat.add].
  unfold mixin_marker. cbn [fst snd].
  destruct es as [|e es]; [congruence|]. cbn [length Nat.eqb].
  split; [reflexivity|]. split.
  - intros k. rewrite G. now destruct (obj_get k (e :: es)).
  - intros k' v Hin. destruct (I k' v Hin) as [[]|H]. exact H.
Qed.

(** The loop keeps the accumulator namespaced when the recursive calls
    return namespaced maps. *)
Lemma mixin_entries_namespaced (rec : value -> result obj) (mixin : Ref) (es : obj) :
  Forall (fun kv => forall sub, rec (snd kv) = Ok sub -> namespaced mixin sub) es ->
  forall attrs count attrs' count',
    namespaced mixin attrs ->
    mixin_entries rec mixin es attrs count = Ok (attrs', count') ->
    namespaced mixin attrs'.
Proof.
  induction 1 as [|[k v] es R _ IH]; intros attrs count attrs' count' NS;
    cbn [mixin_entries].
  - now intros [= <- _].
  - cbn [snd] in R. destruct (startsWith k "$") eqn:D.
    + destruct (rec v) as [sub|] eqn:Rv; cbn [rbind]; [|discriminate].
      apply IH. constructor. intros k' v' I.
      apply In_obj_set in I as [[-> ->]|I].
      * right. split; [exact D|]. exists sub. split; [reflexivity | now apply R].
      * destruct NS as [o H]. now apply H.
    + apply IH. constructor. intros k' v' I.
      apply In_obj_set in I as [[-> ->]|I].
      * left. now exists k.
      * destruct NS as [o H]. now apply H.
Qed.

Lemma namespaced_nil (mixin : Ref) : namespaced mixin [].
Proof. constructor. intros ? ? []. Qed.

Lemma mixin_marker_namespaced (mixin : Ref) (r : obj * nat) :
  namespaced mixin (fst r) -> namespaced mixin (mixin_marker mixin r).
Proof.
  intros NS. unfold mixin_marker. destruct (Nat.eqb (snd r) 0); [|exact NS].
  constructor. intros k v I. apply In_obj_set in I as [[-> ->]|I].
  - left. now exists "__mixin".
  - destruct NS as [o H]. now apply H.
Qed.

(** X6. Whatever the attributes, every key [translateMixinAttrs] writes is
    a field under the mixin, [<mixin>.<field>], or an operator key whose
    payload was translated the same way: nothing is written outside the
    mixin's namespace. *)
Theorem translateMixinAttrs_namespaced (mixin : Ref) (attributes : value) (attrs : obj) :
  translateMixinAttrs mixin attributes = Ok attrs -> namespaced mixin attrs.
Proof.
  revert attrs. induction attributes as [| | | | | l _ | es IH | p es _ IH] using value_ind;
    intros attrs; rewrite translateMixinAttrs_unfold; cbn [entries rbind];
    try discriminate.
  - intros [= <-]. apply mixin_marker_namespaced, namespaced_nil.
  - intros [= <-]. apply mixin_marker_namespaced, namespaced_nil.
  - destruct (mixin_entries _ mixin (indexed VStr 0 (chars s)) [] 0) as [[a c]|] eqn:M;
      cbn [rbind]; [|discriminate].
    intros [= <-]. apply mixin_marker_namespaced. cbn [fst].
    eapply mixin_entries_namespaced; [| apply namespaced_nil | exact M].
    apply Forall_forall. intros kv _ sub [= <-]. apply namespaced_nil.
  - destruct (mixin_entries _ mixin (indexed (fun x => x) 0 l) [] 0) as [[a c]|] eqn:M;
      cbn [rbind]; [|discriminate].
    intros [= <-]. apply mixin_marker_namespaced. cbn [fst].
    eapply mixin_entries_namespaced; [| apply namespaced_nil | exact M].
    apply Forall_forall. intros kv _ sub [= <-]. apply namespaced_nil.
  - destruct (mixin_entries (translateMixinAttrs mixin) mixin es [] 0) as [[a c]|] eqn:M;
      cbn [rbind]; [|discriminate].
    intros [= <-]. apply mixin_marker_namespaced. cbn [fst].
    eapply mixin_entries_namespaced; [exact IH | apply namespaced_nil | exact M].
  - destruct (mixin_entries (translateMixinAttrs mixin) mixin es [] 0) as [[a c]|] eqn:M;
      cbn [rbind]; [|discriminate].
    intros [= <-]. apply mixin_marker_namespaced. cbn [fst].
    eapply mixin_entries_namespaced; [exact IH | apply namespaced_nil | exact M].
Qed.

End MixinAttrs.

(** ** The update documents *)

Section UpdateDocuments.
Import JS Driver Storage Props MoreProps JSFacts MoreFacts ObjFacts.
Context {core : Core}.
Variable this : MongoAdapterBase.

Lemma obj_get_spread_nil (k : string) (o : obj) :
  NoDup (map fst o) -> obj_get k (obj_spread [] o) = obj_get k o.
Proof. intros ND. rewrite (obj_get_spread k o ND []). now destruct (obj_get k o). Qed.

(** The operator form of an update: the stamp is its whole [$set], every
    other key is the payload's. *)
Lemma stamped_over (modifiedBy : Ref) (modifiedOn : Z) (payload : obj) :
  NoDup (map fst payload) ->
  obj_get "$set" (obj_set "$set" (VObj (modified modifiedBy modifiedOn))
                    (obj_spread [] payload))
    = Some (VObj [("modifiedBy", VStr modifiedBy); ("modifiedOn", VNum modifiedOn)])
  /\ forall k, k <> "$set" ->
       obj_get k (obj_set "$set" (VObj (modified modifiedBy modifiedOn))
                    (obj_spread [] payload))
       = obj_get k payload.
Proof.
  intros ND. split.
  - now rewrite obj_get_set_same.
  - intros k N. rewrite obj_get_set_other by now apply String.eqb_neq.
    now apply obj_get_spread_nil.
Qed.

(** X7. An UpdateDoc whose payload is an operator map other than a
    reposition passes every operator of the payload to the store as it is,
    except [$set]: the [$set] of the update is the stamp alone, so a [$set]
    of the caller's is not written. *)
Theorem txUpdateDoc_operator_set_is_stamp (tx : TxUpdateDoc.t) :
  isOperator (TxUpdateDoc.operations tx) = true ->
  is_reposition (TxUpdateDoc.operations tx) = false ->
  NoDup (map fst (TxUpdateDoc.operations tx)) ->
  exists update,
    (txUpdateDoc this tx =
       await (updateOne (getDomain (hierarchy this) (TxUpdateDoc.objectClass tx))
                [("_id", VStr (TxUpdateDoc.objectId tx))] update) resolve
     \/ txUpdateDoc this tx =
       await (findOneAndUpdate (getDomain (hierarchy this) (TxUpdateDoc.objectClass tx))
                [("_id", VStr (TxUpdateDoc.objectId tx))] update
                [("returnDocument", VStr "after")]) retrieved)
    /\ obj_get "$set" update =
         Some (VObj [("modifiedBy", VStr (TxUpdateDoc.modifiedBy tx));
                     ("modifiedOn", VNum (TxUpdateDoc.modifiedOn tx))])
    /\ forall k, k <> "$set" -> obj_get k update = obj_get k (TxUpdateDoc.operations tx).
Proof.
  intros O R ND. unfold is_reposition in R. rewrite O in R. cbn [andb] in R.
  destruct (stamped_over (TxUpdateDoc.modifiedBy tx) (TxUpdateDoc.modifiedOn tx) _ ND)
    as [Hs Hk].
  eexists. split; [|split; [exact Hs | exact Hk]].
  unfold txUpdateDoc. rewrite O, R. unfold by_id. rewrite obj_lit_single.
  destruct (TxUpdateDoc.retrieve tx) as [[|]|]; [right | left | left]; reflexivity.
Qed.

(** X8. A MixinUpdate whose payload is an operator map other than a
    reposition writes the translated attributes operator by operator,
    except [$set]: the [$set] of the update is the stamp alone, so the
    fields a [$set] of the caller's would set under the mixin are not
    written. *)
Theorem txMixin_operator_set_is_stamp (tx : TxMixin.t) (attrs : obj) :
  isOperator (TxMixin.attributes tx) = true ->
  is_reposition (TxMixin.attributes tx) = false ->
  translateMixinAttrs (TxMixin.mixin tx) (VObj (TxMixin.attributes tx)) = Ok attrs ->
  exists update,
    txMixin this tx =
      await (updateOne (getDomain (hierarchy this) (TxMixin.objectClass tx))
               [("_id", VStr (TxMixin.objectId tx))] update) resolve
    /\ obj_get "$set" update =
         Some (VObj [("modifiedBy", VStr (TxMixin.modifiedBy tx));
                     ("modifiedOn", VNum (TxMixin.modifiedOn tx))])
    /\ forall k, k <> "$set" -> obj_get k update = obj_get k attrs.
Proof.
  intros O R T. unfold is_reposition in R. rewrite O in R. cbn [andb] in R.
  pose proof (translateMixinAttrs_keys_distinct _ _ _ T) as ND.
  destruct (stamped_over (TxMixin.modifiedBy tx) (TxMixin.modifiedOn tx) _ ND) as [Hs Hk].
  eexists. split; [|split; [exact Hs | exact Hk]].
  unfold txMixin. rewrite O, R, T. unfold by_id. rewrite obj_lit_single. reflexivity.
Qed.

(** X9. An UpdateDoc whose payload is a map of plain fields is one [$set]
    of those fields and the stamp: every field of the payload is set to the
    payload's value, except that [modifiedBy] and [modifiedOn] are the
    transaction's even where the payload names them. *)
Theorem txUpdateDoc_plain_sets_fields (tx : TxUpdateDoc.t) :
  isOperator (TxUpdateDoc.operations tx) = false ->
  NoDup (map fst (TxUpdateDoc.operations tx)) ->
  exists fields,
    (txUpdateDoc this tx =
       await (updateOne (getDomain (hierarchy this) (TxUpdateDoc.objectClass tx))
                [("_id", VStr (TxUpdateDoc.objectId tx))]
                [("$set", VObj fields)]) resolve
     \/ txUpdateDoc this tx =
       await (findOneAndUpdate (getDomain (hierarchy this) (TxUpdateDoc.objectClass tx))
                [("_id", VStr (TxUpdateDoc.objectId tx))]
                [("$set", VObj fields)]
                [("returnDocument", VStr "after")]) retrieved)
    /\ obj_get "modifiedBy" fields = Some (VStr (TxUpdateDoc.modifiedBy tx))
    /\ obj_get "modifiedOn" fields = Some (VNum (TxUpdateDoc.modifiedOn tx))
    /\ forall k, k <> "modifiedBy" -> k <> "modifiedOn" ->
         obj_get k fields = obj_get k (TxUpdateDoc.operations tx).
Proof.
  intros O ND.
  exists (obj_spread (obj_spread [] (TxUpdateDoc.operations tx))
            (modified (TxUpdateDoc.modifiedBy tx) (TxUpdateDoc.modifiedOn tx))).
  split.
  { unfold txUpdateDoc. rewrite O. unfold by_id. rewrite !obj_lit_single.
    destruct (TxUpdateDoc.retrieve tx) as [[|]|]; [right | left | left]; reflexivity. }
  assert (NM : NoDup (map fst (modified (TxUpdateDoc.modifiedBy tx)
                                  (TxUpdateDoc.modifiedOn tx)))).
  { rewrite modified_eq. repeat constructor; cbn; intuition discriminate. }
  split; [|split].
  - rewrite (obj_get_spread _ _ NM). now rewrite modified_eq.
  - rewrite (obj_get_spread _ _ NM). now rewrite modified_eq.
  - intros k N1 N2. rewrite (obj_get_spread _ _ NM), modified_eq.
    rewrite !obj_get_next by now apply String.eqb_neq.
    cbn [obj_get]. now apply obj_get_spread_nil.
Qed.

(** X10. A reposition whose payload names no field (an empty map, [null]
    or [undefined] under [$move]) throws before the store is called, for an
    UpdateDoc and for a MixinUpdate alike. *)
Theorem move_without_field_throws (objectId objectClass modifiedBy mixin : Ref) (modifiedOn : Z)
    (keyval : value) (rest : obj) (retrieve : option bool) :
  keyval = VObj [] \/ keyval = VNull \/ keyval = VUndefined ->
  isOperator (("$move", keyval) :: rest) = true ->
  throws (txUpdateDoc this
    {| TxUpdateDoc.objectId := objectId; TxUpdateDoc.objectClass := objectClass;
       TxUpdateDoc.modifiedBy := modifiedBy; TxUpdateDoc.modifiedOn := modifiedOn;
       TxUpdateDoc.operations := ("$move", keyval) :: rest;
       TxUpdateDoc.retrieve := retrieve |}) = true
  /\ throws (txMixin this
    {| TxMixin.objectId := objectId; TxMixin.objectClass := objectClass;
       TxMixin.modifiedBy := modifiedBy; TxMixin.modifiedOn := modifiedOn;
       TxMixin.mixin := mixin; TxMixin.attributes := ("$move", keyval) :: rest |}) = true.
Proof.
  intros K O. split.
  - unfold txUpdateDoc. cbn [TxUpdateDoc.operations TxUpdateDoc.objectId
      TxUpdateDoc.objectClass TxUpdateDoc.modifiedBy TxUpdateDoc.modifiedOn].
    rewrite O. cbn [map fst first_key hd_error]. rewrite obj_get_here.
    change (String.eqb "$move" "$move") with true. cbv iota. cbn [or_undefined].
    destruct K as [-> | [-> | ->]]; reflexivity.
  - unfold txMixin. cbn [TxMixin.attributes TxMixin.objectId TxMixin.mixin
      TxMixin.objectClass TxMixin.modifiedBy TxMixin.modifiedOn].
    rewrite O. cbn [map fst first_key hd_error]. rewrite obj_get_here.
    change (String.eqb "$move" "$move") with true. cbv iota. cbn [or_undefined].
    destruct K as [-> | [-> | ->]]; reflexivity.
Qed.

End UpdateDocuments.

(** ** What the methods call *)

Ltac literal := unfold JS.obj_lit, JS.obj_spread; cbn [fold_left fst snd].
Ltac getset :=
  repeat first [ rewrite JSFacts.obj_get_set_same
               | rewrite JSFacts.obj_get_set_other by reflexivity ].

Section Calls.
Import JS Driver Storage Props MoreProps JSFacts MoreFacts ObjFacts.
Context {core : Core}.
Variable this : MongoAdapterBase.




Lemma by_identifier_id (id : Ref) : by_identifier id (by_id id) = true.
Proof. unfold by_identifier, by_id. cbn. now rewrite String.eqb_refl. Qed.

Lemma single_write_lift {A B : Type} (domain : string) (id : Ref) (r : result A) (k : A -> Promise B) :
  (forall a, single_write domain id (k a)) -> single_write domain id (lift r k).
Proof. intros H. destruct r; cbn [lift]; [apply H | constructor]. Qed.

Lemma move_ops_by_identifier (objectId modifiedBy : Ref) (modifiedOn : Z) (arr : string) (desc : value) (ops : list value) :
  move_ops objectId modifiedBy modifiedOn arr desc = Ok ops ->
  forallb (op_by_identifier objectId) ops = true.
Proof.
  unfold move_ops.
  destruct (get_prop desc "$value") as [x|]; [|discriminate].
  destruct (get_prop desc "$position") as [y|]; [|discriminate].
  cbn [rbind]. intros [= <-]. cbn [forallb].
  unfold op_by_identifier, get_prop_opt, get_prop.
  rewrite !obj_lit_single. rewrite !obj_get_here. cbn [or_undefined].
  literal. getset. cbn [or_undefined].
  now rewrite by_identifier_id.
Qed.

Lemma settled_retrieved (r : value) : settled (retrieved r) = true.
Proof. unfold retrieved. now destruct (get_prop r "value"). Qed.

Lemma move_single_write (domain : string) (objectId modifiedBy : Ref) (modifiedOn : Z)
    (name : option string -> string) (keyval : value) :
  single_write domain objectId
    (lift (keys keyval) (fun ks =>
     let arr := name (first_key ks) in
     lift (get_prop keyval arr) (fun desc =>
     lift (move_ops objectId modifiedBy modifiedOn arr desc) (fun ops =>
     await (bulkWrite domain ops) resolve)))).
Proof.
  apply single_write_lift. intros ks. cbv zeta.
  apply single_write_lift. intros desc.
  destruct (move_ops objectId modifiedBy modifiedOn (name (first_key ks)) desc)
    as [ops|] eqn:M; cbn [lift]; [|constructor].
  constructor; [|reflexivity]. cbn [writes_to].
  now rewrite String.eqb_refl, (move_ops_by_identifier _ _ _ _ _ _ M).
Qed.

(** X12. Each of the four mutation methods throws or makes exactly one
    write call, on the collection of the transaction's object class, and
    the call addresses the transaction's object by identifier and nothing
    else: every filter in it is [{ _id: objectId }], also in the two
    operations of a reposition. *)
Theorem mutations_single_write (pb : TxPutBag.t) (rm : TxRemoveDoc.t) (mx : TxMixin.t) (up : TxUpdateDoc.t) :
  single_write (getDomain (hierarchy this) (TxPutBag.objectClass pb))
    (TxPutBag.objectId pb) (txPutBag this pb)
  /\ single_write (getDomain (hierarchy this) (TxRemoveDoc.objectClass rm))
       (TxRemoveDoc.objectId rm) (txRemoveDoc this rm)
  /\ single_write (getDomain (hierarchy this) (TxMixin.objectClass mx))
       (TxMixin.objectId mx) (txMixin this mx)
  /\ single_write (getDomain (hierarchy this) (TxUpdateDoc.objectClass up))
       (TxUpdateDoc.objectId up) (txUpdateDoc this up).
Proof.
  repeat split.
  - unfold txPutBag. constructor; [|reflexivity]. cbn [writes_to].
    now rewrite String.eqb_refl, by_identifier_id.
  - unfold txRemoveDoc. constructor; [|reflexivity]. cbn [writes_to].
    now rewrite String.eqb_refl, by_identifier_id.
  - unfold txMixin. destruct (isOperator (TxMixin.attributes mx)).
    + destruct (match first_key (map fst (TxMixin.attributes mx)) with
                | Some k => String.eqb k "$move" | None => false end).
      * apply (move_single_write _ _ _ _
                 (fun k => (TxMixin.mixin mx ++ "." ++ key_string k)%string)).
      * apply single_write_lift. intros attrs. constructor; [|reflexivity].
        cbn [writes_to]. now rewrite String.eqb_refl, by_identifier_id.
    + apply single_write_lift. intros attrs. constructor; [|reflexivity].
      cbn [writes_to]. now rewrite String.eqb_refl, by_identifier_id.
  - unfold txUpdateDoc. destruct (isOperator (TxUpdateDoc.operations up)).
    + destruct (match first_key (map fst (TxUpdateDoc.operations up)) with
                | Some k => String.eqb k "$move" | None => false end).
      * apply (move_single_write _ _ _ _ key_string).
      * destruct (TxUpdateDoc.retrieve up) as [[|]|]; constructor;
          try reflexivity; try apply settled_retrieved; cbn [writes_to];
          now rewrite String.eqb_refl, by_identifier_id.
    + destruct (TxUpdateDoc.retrieve up) as [[|]|]; constructor;
        try reflexivity; try apply settled_retrieved; cbn [writes_to];
        now rewrite String.eqb_refl, by_identifier_id.
Qed.

End Calls.

(** ** Finds, continued *)

Section FindsMore.
Import JS Driver Storage Props MoreProps JSFacts AssignFacts MoreFacts ObjFacts MongoFacts.
Context {core : Core}.
Variable this : MongoAdapterBase.

Lemma shape_rows_length (lookups : list (string * Ref)) (rows rows' : list obj) :
  shape_rows this lookups rows = Ok rows' -> length rows' = length rows.
Proof.
  revert rows'. induction rows as [|row rows IH]; intros rows'; cbn [shape_rows].
  - now intros [= <-].
  - destruct (shape_row this lookups row); cbn [rbind]; [|discriminate].
    destruct (shape_rows this lookups rows) as [l|]; cbn [rbind]; [|discriminate].
    intros [= <-]. cbn [length]. now rewrite (IH l eq_refl).
Qed.

Lemma stages_limit_last (db : Mongo.database) (p : list value) (n : Z) (rows out : list obj) :
  Mongo.stages db (p ++ [VObj (obj_lit [("$limit", VNum n)])]) rows = Some out ->
  length out <= Z.to_nat n.
Proof.
  rewrite stages_app. destruct (Mongo.stages db p rows) as [mid|]; [|discriminate].
  cbn [Mongo.stages].
  change (Mongo.stage db (VObj (obj_lit [("$limit", VNum n)])) mid)
    with (if (0 <? n)%Z then Some (firstn (Z.to_nat n) mid) else None).
  destruct (0 <? n)%Z; [|discriminate]. intros [= <-]. apply firstn_le_length.
Qed.

(** X13. A find with a positive limit returns at most that many rows,
    with lookups or without: the limit is the last stage of the pipeline,
    after the joins, and shaping keeps the number of rows. *)
Theorem findAll_limit (_class : Ref) (query : obj) (o : FindOptions.t) (n : Z)
    (db db' : Mongo.database) (rows : list obj) :
  FindOptions.limit o = Some n ->
  (0 < n)%Z ->
  Mongo.run (findAll this _class query (Some o)) db = Some (Ok rows, db') ->
  length rows <= Z.to_nat n.
Proof.
  intros L P. unfold findAll.
  destruct (FindOptions.lookup o) as [lk|] eqn:K.
  - unfold lookup. destruct (translateQuery this _class query) as [filter|];
      cbn [lift Mongo.run Mongo.exec]; [|discriminate].
    destruct (Mongo.stages db (pipeline_of this filter o) _) as [out|] eqn:S;
      [|discriminate].
    cbn [Mongo.run].
    destruct (shape_rows this (lookups_of o) out) as [rows'|] eqn:Sh;
      cbn [lift Mongo.run]; [|discriminate].
    intros [= <- _]. rewrite (shape_rows_length _ _ _ Sh).
    unfold pipeline_of in S. rewrite L in S. rewrite !app_assoc in S.
    now apply stages_limit_last in S.
  - destruct (translateQuery this _class query) as [filter|];
      cbn [lift Mongo.run Mongo.exec]; [|discriminate].
    destruct filter as [| | | | | |filter|]; try discriminate;
      destruct (option_map _ (FindOptions.sort o)) as [[| | | | | |[|]|]|];
      try discriminate;
      destruct (Mongo.select filter _) as [docs|]; try discriminate;
      rewrite L; unfold Mongo.limited;
      (destruct (n =? 0)%Z eqn:Z0; [apply Z.eqb_eq in Z0; lia|]);
      apply Z.ltb_lt in P; rewrite P; cbn [Mongo.run]; intros [= <- _];
      apply firstn_le_length.
Qed.



End FindsMore.

(** ** The store, continued *)

Module StoreFacts.
Import JS Driver Mongo JSFacts MoreFacts MongoFacts MoreProps.

(** Reading back what was written at a path. *)
Lemma get_set_path (p : path) (v : value) :
  forall d d', set_path p v d = Some (Ok d') -> get_path p (VObj d') = Some (Found v).
Proof.
  induction p as [|h p IH]; intros d d'; cbn [set_path]; [discriminate|].
  destruct (valid_field h); cbn [negb]; [|discriminate].
  destruct p as [|h' p].
  - intros [= <-]. cbn [get_path]. now rewrite obj_get_doc_set_same.
  - destruct (obj_get h d) as [[]|]; try discriminate.
    + destruct (set_path (h' :: p) v props) as [[sub|]|] eqn:S; try discriminate.
      intros [= <-]. cbn [get_path]. rewrite obj_get_doc_set_same.
      exact (IH _ _ S).
    + destruct (set_path (h' :: p) v []) as [[sub|]|] eqn:S; try discriminate.
      intros [= <-]. cbn [get_path]. rewrite obj_get_doc_set_same.
      exact (IH _ _ S).
Qed.

(** A write at a path leaves the other top-level fields alone. *)
Lemma set_path_frame (h : string) (p : path) (v : value) (d d' : obj) :
  set_path (h :: p) v d = Some (Ok d') ->
  forall f, f <> h -> obj_get f d' = obj_get f d.
Proof.
  cbn [set_path]. destruct (valid_field h); cbn [negb]; [|discriminate].
  intros E f N. apply String.eqb_neq in N.
  destruct p as [|h' p].
  - injection E as <-. now apply obj_get_doc_set_other.
  - destruct (obj_get h d) as [[]|]; try discriminate.
    + destruct (set_path (h' :: p) v props) as [[sub|]|]; try discriminate.
      injection E as <-. now apply obj_get_doc_set_other.
    + destruct (set_path (h' :: p) v []) as [[sub|]|]; try discriminate.
      injection E as <-. now apply obj_get_doc_set_other.
Qed.

Lemma path_of_top (f : string) : no_dot f = true -> path_of f = [f].
Proof. apply split_no_dot. Qed.

Lemma path_of_pair (a b : string) :
  no_dot a = true -> no_dot b = true -> path_of (a ++ "." ++ b) = [a; b].
Proof.
  intros A B. unfold path_of. cbn [append].
  now rewrite split_app, (split_no_dot _ A), (split_no_dot _ B).
Qed.

Lemma first_match_inv (filter : obj) (docs : list obj) :
  forall before d after,
    first_match filter docs = Some (Some (before, d, after)) ->
    docs = before ++ d :: after
    /\ matches filter d = Some true
    /\ Forall (fun x => matches filter x = Some false) before.
Proof.
  induction docs as [|x docs IH]; intros before d after; cbn [first_match];
    [discriminate|].
  destruct (matches filter x) as [[|]|] eqn:M; try discriminate.
  - intros [= <- <- <-]. repeat split; auto.
  - destruct (first_match filter docs) as [[[[b m] a]|]|]; try discriminate.
    intros [= <- <- <-]. destruct (IH b m a eq_refl) as (E & Hm & F).
    repeat split; [now rewrite E | exact Hm | now constructor].
Qed.

Lemma first_match_intro (filter : obj) (before : list obj) (d : obj) (after : list obj) :
  Forall (fun x => matches filter x = Some false) before ->
  matches filter d = Some true ->
  first_match filter (before ++ d :: after) = Some (Some (before, d, after)).
Proof.
  induction 1 as [|x before Hx _ IH]; intros M; cbn [app first_match].
  - now rewrite M.
  - now rewrite Hx, (IH M).
Qed.

(** A filter on the identifier looks at the identifier only. *)
Lemma matches_id_only (c : value) (d d' : obj) :
  obj_get "_id" d' = obj_get "_id" d ->
  matches [("_id", c)] d' = matches [("_id", c)] d.
Proof.
  intros E. cbn [matches]. change (startsWith "_id" "$") with false. cbv iota.
  change (path_of "_id") with ["_id"]. cbn [get_path]. now rewrite E.
Qed.

End StoreFacts.

(** ** Mutations against the store *)

Section StoreRuns.
Import JS Driver Storage Props MoreProps JSFacts MoreFacts ObjFacts MongoFacts StoreFacts.
Context {core : Core}.
Variable this : MongoAdapterBase.

Lemma top_field_parts (f : string) :
  top_field f = true -> no_dot f = true /\ Mongo.valid_field f = true.
Proof. unfold top_field. now intros H%andb_true_iff. Qed.

(** X15. Run against the store on a document that has the identifier, a
    PutBag with plain bag and key names sets the one key of the bag to the
    value, creating the bag where the document has none, and keeps the
    other keys of the bag and the other fields of the document. *)
Theorem txPutBag_writes_bag (tx : TxPutBag.t) (db : Mongo.database)
    (before : list obj) (d : obj) (after : list obj) :
  top_field (TxPutBag.bag tx) = true ->
  top_field (TxPutBag.key tx) = true ->
  TxPutBag.bag tx <> "_id" ->
  embeddable (TxPutBag.bag tx) d = true ->
  Mongo.first_match [("_id", VStr (TxPutBag.objectId tx))]
    (db (getDomain (hierarchy this) (TxPutBag.objectClass tx)))
    = Some (Some (before, d, after)) ->
  exists d',
    Mongo.run (txPutBag this tx) db =
      Some (Ok (VObj []),
            Mongo.store db (getDomain (hierarchy this) (TxPutBag.objectClass tx))
              (before ++ d' :: after))
    /\ d' = Mongo.doc_set (TxPutBag.bag tx)
              (VObj (Mongo.doc_set (TxPutBag.key tx) (TxPutBag.value tx)
                       (embedded (TxPutBag.bag tx) d))) d
    /\ Mongo.get_path [TxPutBag.bag tx; TxPutBag.key tx] (VObj d')
       = Some (Mongo.Found (TxPutBag.value tx))
    /\ (forall k, k <> TxPutBag.key tx ->
          Mongo.get_path [TxPutBag.bag tx; k] (VObj d')
          = Mongo.get_path [TxPutBag.bag tx; k] (VObj d))
    /\ (forall f, f <> TxPutBag.bag tx -> obj_get f d' = obj_get f d).
Proof.
  intros Tb Tk Nid Em M.
  destruct (top_field_parts _ Tb) as [Db Vb]. destruct (top_field_parts _ Tk) as [Dk Vk].
  eexists. split; [|split; [reflexivity|]].
  - unfold txPutBag, by_id. rewrite !obj_lit_single.
    cbn [Mongo.run Mongo.exec]. unfold Mongo.update_first.
    assert (C : Mongo.check_update
                  [("$set", VObj [((TxPutBag.bag tx ++ "." ++ TxPutBag.key tx)%string,
                                   TxPutBag.value tx)])] = Some (Ok tt)).
    { unfold Mongo.check_update. cbn [Mongo.check_operators Mongo.update_paths map fst app].
      change (startsWith "$set" "$") with true.
      change (Mongo.apply_operator "$set") with (Some Mongo.set_path). cbn [negb].
      rewrite (path_of_pair _ _ Db Dk). cbn [Mongo.writes_id existsb Mongo.conflicts].
      apply String.eqb_neq in Nid. now rewrite Nid. }
    rewrite C, M. cbn [Mongo.apply_operators].
    change (Mongo.apply_operator "$set") with (Some Mongo.set_path).
    cbn [Mongo.apply_fields]. rewrite (path_of_pair _ _ Db Dk).
    cbn [Mongo.set_path]. rewrite Vb, Vk. cbn [negb].
    unfold embeddable, embedded in *.
    destruct (obj_get (TxPutBag.bag tx) d) as [[]|]; try discriminate Em; reflexivity.
  - split; [|split].
    + cbn [Mongo.get_path]. now rewrite !obj_get_doc_set_same.
    + intros k N. cbn [Mongo.get_path]. rewrite !obj_get_doc_set_same.
      rewrite obj_get_doc_set_other by now apply String.eqb_neq.
      unfold embeddable, embedded in *.
      destruct (obj_get (TxPutBag.bag tx) d) as [[]|]; try discriminate Em; reflexivity.
    + intros f N. apply obj_get_doc_set_other. now apply String.eqb_neq.
Qed.

(** What [move_ops] builds from a descriptor that can be read. *)
Lemma move_ops_eq (objectId modifiedBy : Ref) (modifiedOn : Z) (arr : string)
    (desc v position : value) :
  get_prop desc "$value" = Ok v ->
  get_prop desc "$position" = Ok position ->
  move_ops objectId modifiedBy modifiedOn arr desc =
    Ok [pull_op objectId arr v; push_op objectId modifiedBy modifiedOn arr v position].
Proof.
  intros V P. unfold move_ops. rewrite V, P. cbn [rbind].
  rewrite !(obj_lit_single arr). reflexivity.
Qed.

(** The program of a reposition on one field of an UpdateDoc. *)
Lemma txUpdateDoc_move_program (tx : TxUpdateDoc.t) (f : string) (desc v position : value) (rest : obj) :
  TxUpdateDoc.operations tx = ("$move", VObj [(f, desc)]) :: rest ->
  isOperator (TxUpdateDoc.operations tx) = true ->
  get_prop desc "$value" = Ok v ->
  get_prop desc "$position" = Ok position ->
  txUpdateDoc this tx =
    await (bulkWrite (getDomain (hierarchy this) (TxUpdateDoc.objectClass tx))
             [pull_op (TxUpdateDoc.objectId tx) f v;
              push_op (TxUpdateDoc.objectId tx) (TxUpdateDoc.modifiedBy tx)
                (TxUpdateDoc.modifiedOn tx) f v position])
          resolve.
Proof.
  intros Ops O V P. unfold txUpdateDoc. rewrite O, Ops.
  cbn [map fst first_key hd_error]. rewrite obj_get_here.
  change (String.eqb "$move" "$move") with true. cbv iota. cbn [or_undefined].
  unfold keys, entries. cbn [rbind map fst lift first_key hd_error key_string].
  unfold get_prop at 1. rewrite obj_get_here. cbn [or_undefined lift].
  rewrite (move_ops_eq _ _ _ _ _ _ _ V P). reflexivity.
Qed.

Lemma pull_step (id : Ref) (f : string) (v : value) (docs before : list obj) (d : obj)
    (after : list obj) (items : list value) :
  top_field f = true -> f <> "_id" -> is_object v = false ->
  Mongo.first_match [("_id", VStr id)] docs = Some (Some (before, d, after)) ->
  obj_get f d = Some (VArr items) ->
  Mongo.update_first [("_id", VStr id)] [("$pull", VObj [(f, v)])] docs =
    Some (Ok (before ++ Mongo.doc_set f (VArr (without v items)) d :: after,
              Some (d, Mongo.doc_set f (VArr (without v items)) d))).
Proof.
  intros T Nid Nv M G. destruct (top_field_parts _ T) as [D V].
  unfold Mongo.update_first.
  assert (C : Mongo.check_update [("$pull", VObj [(f, v)])] = Some (Ok tt)).
  { unfold Mongo.check_update. cbn [Mongo.check_operators Mongo.update_paths map fst app].
    change (startsWith "$pull" "$") with true.
    change (Mongo.apply_operator "$pull") with (Some Mongo.pull_value). cbn [negb].
    rewrite (path_of_top _ D). cbn [Mongo.writes_id existsb Mongo.conflicts].
    apply String.eqb_neq in Nid. now rewrite Nid. }
  rewrite C, M. cbn [Mongo.apply_operators].
  change (Mongo.apply_operator "$pull") with (Some Mongo.pull_value).
  cbn [Mongo.apply_fields]. rewrite (path_of_top _ D).
  assert (P : Mongo.pull_value [f] v d =
              Some (Ok (Mongo.doc_set f (VArr (without v items)) d))).
  { unfold Mongo.pull_value, Mongo.is_missing, Mongo.array_at. cbn [Mongo.get_path].
    rewrite G. cbn [Mongo.get_path Mongo.set_path]. rewrite V. cbn [negb].
    destruct v; try discriminate Nv; reflexivity. }
  now rewrite P.
Qed.

Lemma push_step (id modifiedBy : Ref) (modifiedOn : Z) (f : string) (v : value) (position : Z)
    (docs before : list obj) (d : obj) (after : list obj) (items : list value) :
  top_field f = true -> f <> "_id" -> f <> "modifiedBy" -> f <> "modifiedOn" ->
  Mongo.first_match [("_id", VStr id)] docs = Some (Some (before, d, after)) ->
  obj_get f d = Some (VArr items) ->
  Mongo.update_first [("_id", VStr id)]
    [("$set", VObj [("modifiedBy", VStr modifiedBy); ("modifiedOn", VNum modifiedOn)]);
     ("$push", VObj [(f, VObj [("$each", VArr [v]); ("$position", VNum position)])])]
    docs =
    Some (Ok (before ++
                Mongo.doc_set f (VArr (Mongo.insert_at position [v] items))
                  (Mongo.doc_set "modifiedOn" (VNum modifiedOn)
                     (Mongo.doc_set "modifiedBy" (VStr modifiedBy) d)) :: after,
              Some (d,
                Mongo.doc_set f (VArr (Mongo.insert_at position [v] items))
                  (Mongo.doc_set "modifiedOn" (VNum modifiedOn)
                     (Mongo.doc_set "modifiedBy" (VStr modifiedBy) d))))).
Proof.
  intros T Nid Nb Non M G. destruct (top_field_parts _ T) as [D V].
  apply String.eqb_neq in Nid, Nb, Non.
  unfold Mongo.update_first.
  assert (C : Mongo.check_update
    [("$set", VObj [("modifiedBy", VStr modifiedBy); ("modifiedOn", VNum modifiedOn)]);
     ("$push", VObj [(f, VObj [("$each", VArr [v]); ("$position", VNum position)])])]
    = Some (Ok tt)).
  { unfold Mongo.check_update. cbn [Mongo.check_operators Mongo.update_paths map fst app].
    change (startsWith "$set" "$") with true.
    change (startsWith "$push" "$") with true.
    change (Mongo.apply_operator "$set") with (Some Mongo.set_path).
    change (Mongo.apply_operator "$push") with (Some Mongo.push_value). cbn [negb].
    rewrite (path_of_top _ D).
    change (Mongo.path_of "modifiedBy") with ["modifiedBy"].
    change (Mongo.path_of "modifiedOn") with ["modifiedOn"].
    cbn [Mongo.writes_id existsb Mongo.conflicts].
    unfold Mongo.conflict. cbn [Mongo.is_prefix].
    rewrite Nid, Nb, Non, (eqb_false_sym _ _ Nb), (eqb_false_sym _ _ Non).
    reflexivity. }
  rewrite C, M. cbn [Mongo.apply_operators].
  change (Mongo.apply_operator "$set") with (Some Mongo.set_path).
  change (Mongo.apply_operator "$push") with (Some Mongo.push_value).
  cbn [Mongo.apply_fields].
  change (Mongo.path_of "modifiedBy") with ["modifiedBy"].
  change (Mongo.path_of "modifiedOn") with ["modifiedOn"].
  change (Mongo.set_path ["modifiedBy"] (VStr modifiedBy) d)
    with (Some (Ok (Mongo.doc_set "modifiedBy" (VStr modifiedBy) d))).
  cbv iota.
  change (Mongo.set_path ["modifiedOn"] (VNum modifiedOn)
            (Mongo.doc_set "modifiedBy" (VStr modifiedBy) d))
    with (Some (Ok (Mongo.doc_set "modifiedOn" (VNum modifiedOn)
                      (Mongo.doc_set "modifiedBy" (VStr modifiedBy) d)))).
  cbv iota. rewrite (path_of_top _ D).
  unfold Mongo.push_value, Mongo.array_at. cbn [Mongo.get_path].
  rewrite !obj_get_doc_set_other by assumption. rewrite G.
  cbn [Mongo.get_path Mongo.set_path]. rewrite V. cbn [negb]. reflexivity.
Qed.

(** X16. Run against the store, a reposition on an array field of the
    document that has the identifier succeeds and leaves the array with every
    occurrence of the value taken out and the value put in once at the
    position; [modifiedBy] and [modifiedOn] are the transaction's and every
    other field is as it was. *)
Theorem txUpdateDoc_move_repositions (tx : TxUpdateDoc.t) (db : Mongo.database)
    (f : string) (v : value) (position : Z) (items : list value)
    (before : list obj) (d : obj) (after : list obj) :
  TxUpdateDoc.operations tx = [("$move", VObj [(f, move_descriptor v position)])] ->
  isOperator (TxUpdateDoc.operations tx) = true ->
  top_field f = true -> f <> "_id" -> f <> "modifiedBy" -> f <> "modifiedOn" ->
  is_object v = false ->
  Mongo.first_match [("_id", VStr (TxUpdateDoc.objectId tx))]
    (db (getDomain (hierarchy this) (TxUpdateDoc.objectClass tx)))
    = Some (Some (before, d, after)) ->
  obj_get f d = Some (VArr items) ->
  exists r d',
    Mongo.run (txUpdateDoc this tx) db =
      Some (Ok r,
            Mongo.store db (getDomain (hierarchy this) (TxUpdateDoc.objectClass tx))
              (before ++ d' :: after))
    /\ obj_get f d' = Some (VArr (Mongo.insert_at position [v] (without v items)))
    /\ obj_get "modifiedBy" d' = Some (VStr (TxUpdateDoc.modifiedBy tx))
    /\ obj_get "modifiedOn" d' = Some (VNum (TxUpdateDoc.modifiedOn tx))
    /\ forall g, g <> f -> g <> "modifiedBy" -> g <> "modifiedOn" ->
         obj_get g d' = obj_get g d.
Proof.
  intros Ops O T Nid Nb Non Nv M G.
  set (d1 := Mongo.doc_set f (VArr (without v items)) d).
  set (d2 := Mongo.doc_set f (VArr (Mongo.insert_at position [v] (without v items)))
               (Mongo.doc_set "modifiedOn" (VNum (TxUpdateDoc.modifiedOn tx))
                  (Mongo.doc_set "modifiedBy" (VStr (TxUpdateDoc.modifiedBy tx)) d1))).
  pose proof (first_match_inv _ _ _ _ _ M) as (_ & Md & Fb).
  assert (M1 : Mongo.first_match [("_id", VStr (TxUpdateDoc.objectId tx))]
                 (before ++ d1 :: after) = Some (Some (before, d1, after))).
  { apply first_match_intro; [exact Fb|]. rewrite <- Md. apply matches_id_only.
    unfold d1. apply obj_get_doc_set_other. apply String.eqb_neq. congruence. }
  assert (G1 : obj_get f d1 = Some (VArr (without v items))).
  { unfold d1. apply obj_get_doc_set_same. }
  exists (Mongo.BulkWriteResult 2 (Mongo.changed d1 d2 + (Mongo.changed d d1 + 0))), d2.
  split.
  - rewrite (txUpdateDoc_move_program tx f (move_descriptor v position) v (VNum position) []
               Ops O eq_refl eq_refl).
    cbn [Mongo.run Mongo.exec]. unfold pull_op, push_op. cbn [Mongo.bulk].
    rewrite (pull_step _ _ _ _ _ _ _ _ T Nid Nv M G). fold d1.
    rewrite (push_step _ _ _ _ _ _ _ _ _ _ _ T Nid Nb Non M1 G1). fold d2.
    reflexivity.
  - apply String.eqb_neq in Nb, Non. unfold d2. repeat split.
    + apply obj_get_doc_set_same.
    + rewrite obj_get_doc_set_other by now apply eqb_false_sym.
      rewrite obj_get_doc_set_other by reflexivity. apply obj_get_doc_set_same.
    + rewrite obj_get_doc_set_other by now apply eqb_false_sym.
      apply obj_get_doc_set_same.
    + intros g N1 N2 N3. apply String.eqb_neq in N1, N2, N3.
      rewrite !obj_get_doc_set_other by assumption.
      unfold d1. now apply obj_get_doc_set_other.
Qed.

Lemma in_match_classes (classes : list Ref) (c : string) :
  Mongo.in_match (map VStr classes) (Mongo.Found (VStr c)) = existsb (String.eqb c) classes.
Proof.
  unfold Mongo.in_match. induction classes as [|x classes IH]; [reflexivity|].
  cbn [map existsb]. rewrite IH. f_equal. cbn. apply orb_false_r.
Qed.

Lemma select_classes (classes : list Ref) (docs : list obj) :
  Forall (fun d => classed d = true) docs ->
  Mongo.select [("_class", class_in classes)] docs = Some (filter (class_among classes) docs).
Proof.
  induction 1 as [|d docs C _ IH]; [reflexivity|]. cbn [Mongo.select filter]. rewrite IH.
  assert (M : Mongo.matches [("_class", class_in classes)] d = Some (class_among classes d)).
  { cbn [Mongo.matches]. change (startsWith "_class" "$") with false. cbv iota.
    change (Mongo.path_of "_class") with ["_class"]. cbn [Mongo.get_path].
    unfold classed, class_among in *.
    destruct (obj_get "_class" d) as [[]|]; try discriminate C.
    cbn [Mongo.get_path].
    change (Mongo.cond_match (class_in classes) (Mongo.Found (VStr s)))
      with (Some (Mongo.in_match (map VStr classes) (Mongo.Found (VStr s)))).
    now rewrite in_match_classes, andb_true_r. }
  now rewrite M.
Qed.

(** X17. Run against the store, a find for a class that is its own base
    class, with an empty query and no options, returns exactly the documents
    of the class's collection whose class is a descendant of it, in their
    stored order. *)
Theorem findAll_polymorphic (clazz : Ref) (db : Mongo.database) :
  getBaseClass (hierarchy this) clazz = clazz ->
  Forall (fun d => classed d = true) (db (getDomain (hierarchy this) clazz)) ->
  Mongo.run (findAll this clazz [] None) db =
    Some (Ok (filter (class_among (getDescendants (hierarchy this) clazz))
                (db (getDomain (hierarchy this) clazz))),
          db).
Proof.
  intros B C. unfold findAll.
  assert (Q : translateQuery this clazz [] =
              Ok (VObj [("_class", class_in (getDescendants (hierarchy this) clazz))])).
  { unfold translateQuery. cbn [translateFields rbind]. rewrite B, String.eqb_refl.
    reflexivity. }
  rewrite Q. cbn [lift Mongo.run Mongo.exec]. rewrite (select_classes _ _ C).
  reflexivity.
Qed.

End StoreRuns.

(** ** Further concrete runs *)

Module MoreRuns.
Import JS Driver Storage Props MoreProps.


Lemma translateQuery_fails_iff_witness :
  translateQuery Fixture.adapter "Doc" MoreFixture.badLike
    = Err (TypeError "pattern.split is not a function")
  /\ exists key value,
       In (key, value) MoreFixture.badLike /\ well_patterned value = false.
Proof.
  split; [reflexivity|].
  exact (proj2 (proj2 (translateQuery_fails_iff Fixture.adapter "Doc" MoreFixture.badLike)
                  _ eq_refl)).
Defined.

Lemma translateQuery_keys_witness :
  translateQuery Fixture.adapter "Assigned" Fixture.likeQuery =
    Ok (VObj [("name", like_regex "ab%cd"); ("size", VObj [("$gt", VNum 3)]);
              ("_class", VObj [("$in", VArr [VStr "Doc"; VStr "Task"; VStr "Bug"])]);
              ("Assigned", VObj [("$exists", VBool true)])])
  /\ (In "Assigned" (map fst Fixture.likeQuery) \/ "Assigned" = "_class"
      \/ ("Assigned" = "Assigned"
          /\ getBaseClass (hierarchy Fixture.adapter) "Assigned" <> "Assigned")).
Proof.
  split; [reflexivity|].
  apply (translateQuery_keys Fixture.adapter "Assigned" Fixture.likeQuery _ "Assigned"
           (VObj [("$exists", VBool true)]) eq_refl eq_refl).
Defined.

Lemma translateMixinAttrs_never_empty_witness :
  translateMixinAttrs "Assigned" (VObj []) = Ok [("Assigned.__mixin", VStr "true")]
  /\ [("Assigned.__mixin", VStr "true")] <> []
  /\ startsWith "$push" "$" = true
  /\ translateMixinAttrs "Assigned" (VObj [("$push", VObj [])]) =
       Ok [("$push", VObj [("Assigned.__mixin", VStr "true")])].
Proof.
  split; [reflexivity|].
  destruct (translateMixinAttrs_never_empty "Assigned" (VObj [])
              [("Assigned.__mixin", VStr "true")] "$push") as [N P].
  split; [exact (N eq_refl)|]. split; [reflexivity | exact (P eq_refl)].
Defined.

Lemma translateMixinAttrs_plain_witness :
  MoreFixture.plainAttrs <> []
  /\ Forall (fun kv => startsWith (fst kv) "$" = false) MoreFixture.plainAttrs
  /\ NoDup (map fst MoreFixture.plainAttrs)
  /\ translateMixinAttrs "Assigned" (VObj MoreFixture.plainAttrs) =
       Ok [("Assigned.due", VNum 5); ("Assigned.note", VStr "soon")]
  /\ exists attrs,
       translateMixinAttrs "Assigned" (VObj MoreFixture.plainAttrs) = Ok attrs
       /\ (forall k, obj_get ("Assigned" ++ "." ++ k) attrs = obj_get k MoreFixture.plainAttrs)
       /\ (forall k' v, In (k', v) attrs ->
             exists k, k' = ("Assigned" ++ "." ++ k)%string /\ In (k, v) MoreFixture.plainAttrs).
Proof.
  assert (Ne : MoreFixture.plainAttrs <> []) by discriminate.
  assert (P : Forall (fun kv => startsWith (fst kv) "$" = false) MoreFixture.plainAttrs)
    by repeat constructor.
  assert (ND : NoDup (map fst MoreFixture.plainAttrs)).
  { repeat constructor; cbn; intuition discriminate. }
  split; [exact Ne|]. split; [exact P|]. split; [exact ND|]. split; [reflexivity|].
  exact (translateMixinAttrs_plain "Assigned" MoreFixture.plainAttrs Ne P ND).
Defined.

Lemma translateMixinAttrs_namespaced_witness :
  translateMixinAttrs "Assigned" MoreFixture.nestedAttrs =
    Ok [("$push", VObj [("Assigned.tags", VStr "x")]); ("Assigned.due", VNum 5)]
  /\ namespaced "Assigned"
       [("$push", VObj [("Assigned.tags", VStr "x")]); ("Assigned.due", VNum 5)].
Proof.
  split; [reflexivity|].
  exact (translateMixinAttrs_namespaced "Assigned" MoreFixture.nestedAttrs _ eq_refl).
Defined.

Lemma txUpdateDoc_operator_set_is_stamp_witness :
  isOperator (Core := Fixture.core) (TxUpdateDoc.operations MoreFixture.operatorUpdate) = true
  /\ is_reposition (core := Fixture.core)
       (TxUpdateDoc.operations MoreFixture.operatorUpdate) = false
  /\ NoDup (map fst (TxUpdateDoc.operations MoreFixture.operatorUpdate))
  /\ txUpdateDoc (core := Fixture.core) Fixture.adapter MoreFixture.operatorUpdate =
       await (updateOne "tasks" [("_id", VStr "d1")]
                [("$set", VObj [("modifiedBy", VStr "u1");
                                ("modifiedOn", VNum 1700000000000)]);
                 ("$inc", VObj [("rank", VNum 1)])])
             resolve
  /\ exists update,
       (txUpdateDoc (core := Fixture.core) Fixture.adapter MoreFixture.operatorUpdate =
          await (updateOne "tasks" [("_id", VStr "d1")] update) resolve
        \/ txUpdateDoc (core := Fixture.core) Fixture.adapter MoreFixture.operatorUpdate =
          await (findOneAndUpdate "tasks" [("_id", VStr "d1")] update
                   [("returnDocument", VStr "after")]) retrieved)
       /\ obj_get "$set" update =
            Some (VObj [("modifiedBy", VStr "u1"); ("modifiedOn", VNum 1700000000000)])
       /\ forall k, k <> "$set" ->
            obj_get k update = obj_get k (TxUpdateDoc.operations MoreFixture.operatorUpdate).
Proof.
  assert (ND : NoDup (map fst (TxUpdateDoc.operations MoreFixture.operatorUpdate))).
  { repeat constructor; cbn; intuition discriminate. }
  split; [reflexivity|]. split; [reflexivity|]. split; [exact ND|]. split; [reflexivity|].
  exact (txUpdateDoc_operator_set_is_stamp (core := Fixture.core) Fixture.adapter
           MoreFixture.operatorUpdate eq_refl eq_refl ND).
Defined.

Lemma txMixin_operator_set_is_stamp_witness :
  isOperator (Core := Fixture.core) (TxMixin.attributes MoreFixture.operatorMixin) = true
  /\ is_reposition (core := Fixture.core)
       (TxMixin.attributes MoreFixture.operatorMixin) = false
  /\ translateMixinAttrs "Assigned" (VObj (TxMixin.attributes MoreFixture.operatorMixin)) =
       Ok [("$set", VObj [("Assigned.due", VNum 5)]);
           ("$inc", VObj [("Assigned.rank", VNum 1)])]
  /\ txMixin (core := Fixture.core) Fixture.adapter MoreFixture.operatorMixin =
       await (updateOne "tasks" [("_id", VStr "d1")]
                [("$set", VObj [("modifiedBy", VStr "u1");
                                ("modifiedOn", VNum 1700000000000)]);
                 ("$inc", VObj [("Assigned.rank", VNum 1)])])
             resolve
  /\ exists update,
       txMixin (core := Fixture.core) Fixture.adapter MoreFixture.operatorMixin =
         await (updateOne "tasks" [("_id", VStr "d1")] update) resolve
       /\ obj_get "$set" update =
            Some (VObj [("modifiedBy", VStr "u1"); ("modifiedOn", VNum 1700000000000)])
       /\ forall k, k <> "$set" ->
            obj_get k update =
            obj_get k [("$set", VObj [("Assigned.due", VNum 5)]);
                       ("$inc", VObj [("Assigned.rank", VNum 1)])].
Proof.
  split; [reflexivity|]. split; [reflexivity|]. split; [reflexivity|].
  split; [reflexivity|].
  exact (txMixin_operator_set_is_stamp (core := Fixture.core) Fixture.adapter
           MoreFixture.operatorMixin _ eq_refl eq_refl eq_refl).
Defined.

Lemma txUpdateDoc_plain_sets_fields_witness :
  isOperator (Core := Fixture.core) (TxUpdateDoc.operations Fixture.updateRetrieve) = false
  /\ NoDup (map fst (TxUpdateDoc.operations Fixture.updateRetrieve))
  /\ exists fields,
       (txUpdateDoc (core := Fixture.core) Fixture.adapter Fixture.updateRetrieve =
          await (updateOne "tasks" [("_id", VStr "d2")] [("$set", VObj fields)]) resolve
        \/ txUpdateDoc (core := Fixture.core) Fixture.adapter Fixture.updateRetrieve =
          await (findOneAndUpdate "tasks" [("_id", VStr "d2")] [("$set", VObj fields)]
                   [("returnDocument", VStr "after")]) retrieved)
       /\ obj_get "modifiedBy" fields = Some (VStr "u1")
       /\ obj_get "modifiedOn" fields = Some (VNum 1700000000000)
       /\ forall k, k <> "modifiedBy" -> k <> "modifiedOn" ->
            obj_get k fields = obj_get k (TxUpdateDoc.operations Fixture.updateRetrieve).
Proof.
  assert (ND : NoDup (map fst (TxUpdateDoc.operations Fixture.updateRetrieve))).
  { repeat constructor; cbn; intuition. }
  split; [reflexivity|]. split; [exact ND|].
  exact (txUpdateDoc_plain_sets_fields (core := Fixture.core) Fixture.adapter
           Fixture.updateRetrieve eq_refl ND).
Defined.

Lemma move_without_field_throws_witness :
  (VObj [] = VObj [] \/ VObj [] = VNull \/ VObj [] = VUndefined)
  /\ isOperator (Core := Fixture.core) [("$move", VObj [])] = true
  /\ throws (txUpdateDoc (core := Fixture.core) Fixture.adapter
       {| TxUpdateDoc.objectId := "d1"; TxUpdateDoc.objectClass := "Task";
          TxUpdateDoc.modifiedBy := "u1"; TxUpdateDoc.modifiedOn := 7;
          TxUpdateDoc.operations := [("$move", VObj [])];
          TxUpdateDoc.retrieve := None |}) = true
  /\ throws (txMixin (core := Fixture.core) Fixture.adapter
       {| TxMixin.objectId := "d1"; TxMixin.objectClass := "Task";
          TxMixin.modifiedBy := "u1"; TxMixin.modifiedOn := 7;
          TxMixin.mixin := "Assigned"; TxMixin.attributes := [("$move", VObj [])] |}) = true.
Proof.
  split; [now left|]. split; [reflexivity|].
  exact (move_without_field_throws (core := Fixture.core) Fixture.adapter
           "d1" "Task" "u1" "Assigned" 7 (VObj []) [] None (or_introl eq_refl) eq_refl).
Defined.

Lemma findAll_limit_witness :
  FindOptions.limit MoreFixture.limitOne = Some 1%Z
  /\ (0 < 1)%Z
  /\ Mongo.run (findAll (core := Fixture.core) Fixture.adapter "Doc" []
                  (Some MoreFixture.limitOne)) Fixture.db
     = Some (Ok [Fixture.task1], Fixture.db)
  /\ length [Fixture.task1] <= Z.to_nat 1.
Proof.
  split; [reflexivity|]. split; [reflexivity|]. split; [reflexivity|].
  exact (findAll_limit (core := Fixture.core) Fixture.adapter "Doc" []
           MoreFixture.limitOne 1 Fixture.db Fixture.db [Fixture.task1]
           eq_refl eq_refl eq_refl).
Defined.


Lemma txPutBag_writes_bag_witness :
  top_field "labels" = true /\ top_field "color" = true /\ "labels" <> "_id"
  /\ embeddable "labels" Fixture.task1 = true
  /\ Mongo.first_match [("_id", VStr "d1")] (Fixture.db "tasks")
     = Some (Some ([], Fixture.task1, [Fixture.task2]))
  /\ exists d',
       Mongo.run (txPutBag Fixture.adapter Fixture.putBag) Fixture.db =
         Some (Ok (VObj []), Mongo.store Fixture.db "tasks" ([] ++ d' :: [Fixture.task2]))
       /\ d' = Fixture.task1 ++ [("labels", VObj [("color", VStr "red")])]
       /\ Mongo.get_path ["labels"; "color"] (VObj d') = Some (Mongo.Found (VStr "red")).
Proof.
  split; [reflexivity|]. split; [reflexivity|]. split; [discriminate|].
  split; [reflexivity|]. split; [reflexivity|].
  destruct (txPutBag_writes_bag Fixture.adapter Fixture.putBag Fixture.db
              [] Fixture.task1 [Fixture.task2] eq_refl eq_refl ltac:(discriminate)
              eq_refl eq_refl) as (d' & R & E & G & _).
  exists d'. split; [exact R|]. split; [exact E | exact G].
Defined.

Lemma txUpdateDoc_move_repositions_witness :
  TxUpdateDoc.operations MoreFixture.moveItems =
    [("$move", VObj [("items", move_descriptor (VStr "B") 0)])]
  /\ isOperator (Core := Fixture.core) (TxUpdateDoc.operations MoreFixture.moveItems) = true
  /\ top_field "items" = true
  /\ is_object (VStr "B") = false
  /\ Mongo.first_match [("_id", VStr "d1")] (Fixture.db "tasks")
     = Some (Some ([], Fixture.task1, [Fixture.task2]))
  /\ obj_get "items" Fixture.task1 = Some (VArr [VStr "A"; VStr "B"; VStr "C"])
  /\ exists r d',
       Mongo.run (txUpdateDoc (core := Fixture.core) Fixture.adapter MoreFixture.moveItems)
         Fixture.db
       = Some (Ok r, Mongo.store Fixture.db "tasks" ([] ++ d' :: [Fixture.task2]))
       /\ obj_get "items" d' = Some (VArr [VStr "B"; VStr "A"; VStr "C"])
       /\ obj_get "modifiedBy" d' = Some (VStr "u1")
       /\ obj_get "modifiedOn" d' = Some (VNum 1700000000000)
       /\ obj_get "parent" d' = Some (VStr "d2").
Proof.
  split; [reflexivity|]. split; [reflexivity|]. split; [reflexivity|].
  split; [reflexivity|]. split; [reflexivity|]. split; [reflexivity|].
  destruct (txUpdateDoc_move_repositions (core := Fixture.core) Fixture.adapter
              MoreFixture.moveItems Fixture.db "items" (VStr "B") 0
              [VStr "A"; VStr "B"; VStr "C"] [] Fixture.task1 [Fixture.task2]
              eq_refl eq_refl eq_refl ltac:(discriminate) ltac:(discriminate)
              ltac:(discriminate) eq_refl eq_refl eq_refl)
    as (r & d' & R & I & B & O & F).
  exists r, d'. split; [exact R|]. split; [exact I|]. split; [exact B|].
  split; [exact O|].
  rewrite (F "parent") by discriminate. reflexivity.
Defined.

Lemma findAll_polymorphic_witness :
  getBaseClass (hierarchy Fixture.adapter) "Doc" = "Doc"
  /\ Forall (fun d => classed d = true) (Fixture.db "tasks")
  /\ Mongo.run (findAll (core := Fixture.core) Fixture.adapter "Doc" [] None) Fixture.db
     = Some (Ok [Fixture.task1; Fixture.task2], Fixture.db).
Proof.
  assert (C : Forall (fun d => classed d = true) (Fixture.db "tasks"))
    by repeat constructor.
  split; [reflexivity|]. split; [exact C|].
  exact (findAll_polymorphic (core := Fixture.core) Fixture.adapter "Doc" Fixture.db
           eq_refl C).
Defined.

End MoreRuns.
